(** * Master Mason Education: the game loop of the patrol variant

    A shallow embedding of the simulation core of [GameCanvas]
    (the component with patrolling enemies), of the level tables in
    [constants] and of the data types in [types], followed by the
    properties of that core.

    Numbers.  The program computes with JavaScript numbers.  They are
    modelled here as exact rationals [Q]: every constant of the level
    is a short decimal, which [Q] represents exactly, and the comparisons
    and the arithmetic are those of the source, without rounding.
    Identifiers and counters, which the program only ever sets to small
    integers, are integers [Z].

    React.  A [useState] cell and a [useRef] cell are both fields of one
    record, [Game]; an event handler is a function on [Game] whose result
    is the component after the handler and the re-render it causes (the
    two mirror effects [scoreRef.current = score] and
    [collectedRef.current = collectedIds] included).  The drawing half of
    a frame reads the record and changes nothing in it; it is left out.

    Closures.  The frame callback [loop] is created by an effect and
    keeps the values of the render that created it: [dimensions],
    [userId], [userName], [warningMessage] and, through [handleDeath],
    [gameState].  It reads the refs as they are when it runs.  The record
    [Closure] holds the captured values, and a frame is an event that
    names the closure of the callback that runs.

    Animation frames.  The callback asks for its next frame with an id it
    keeps in a local variable, while [animationRef] holds the id of the
    first request only; the clean-up of the effect cancels that id.  A
    callback that has run once is therefore not cancelled when the state
    leaves PLAYING or a modal opens: it goes on with the values it
    captured, beside the callbacks subscribed later.  [Page] adds to the
    component the queue of requested callbacks and this subscription;
    every run of a page is a run of its component ([page_run_run]). *)

From Stdlib Require Import ZArith QArith Qabs Qminmax Qround Lqa Lia Bool String.
From stdpp Require Import base option list gmap sets strings.

Local Open Scope Z_scope.
Local Open Scope string_scope.
Local Open Scope Q_scope.

(** ** Numbers *)

(** [a < b] on numbers, as a test. *)
Definition Qltb (a b : Q) : bool :=
  (Qnum a * QDen b <? Qnum b * QDen a)%Z.

(** [a > b], written as in the source. *)
Definition Qgtb (a b : Q) : bool := Qltb b a.

(** [a === 0] on numbers. *)
Definition Qzerob (a : Q) : bool := (Qnum a =? 0)%Z.

(** ** Strings *)

(** A JavaScript string that the program looks at character by character
    is the list of its UTF-16 code units.  The other strings (key codes,
    the texts of the tables, the user id) are only compared and passed
    on; they are [string]s. *)
Definition JsString := list N.

Definition units (s : string) : JsString :=
  List.map Ascii.N_of_ascii (list_ascii_of_string s).

(** ** types *)

Inductive GameState := START | PLAYING | PAUSED | GRAVE | VICTORY.

Inductive ModalState := NONE | LORE | QUIZ.

Inductive GraveResult := correct | incorrect.

Inductive Category := review | ritual | working_tools.

Inductive PlatformType := floor | platform | rubble | gate | grave | stair.

Inductive EnemyType := Jubela | Jubelo | Jubelum.

Record Question := mkQuestion {
  q_id : Z;
  q_text : string;
  q_answers : list string;
  q_correctAnswer : string;
  q_explanation : option string;
  q_category : option Category
}.

Record Player := mkPlayer {
  p_x : Q;
  p_y : Q;
  p_width : Q;
  p_height : Q;
  p_vx : Q;
  p_vy : Q;
  p_isGrounded : bool;
  p_facing : Z;
  p_jumpCount : Z;
  p_coyoteTimer : Z
}.

Record Platform := mkPlatform {
  plat_x : Q;
  plat_y : Q;
  plat_width : Q;
  plat_height : Q;
  plat_color : string;
  plat_type : option PlatformType
}.

Record PlatformDef := mkPlatformDef {
  pd_x : Q;
  pd_yOffset : Q;
  pd_width : Q;
  pd_height : Q;
  pd_color : string;
  pd_type : option PlatformType
}.

Record Orb := mkOrb {
  orb_id : Z;
  orb_x : Q;
  orb_y : Q;
  orb_radius : Q;
  orb_active : bool;
  orb_questionId : option Z;
  orb_name : string;
  orb_spriteKey : string;
  orb_blurb : string;
  orb_points : option Q
}.

Record OrbDefinition := mkOrbDefinition {
  od_id : Z;
  od_x : Q;
  od_yOffset : Q;
  od_radius : Q;
  od_questionId : option Z;
  od_name : string;
  od_spriteKey : string;
  od_blurb : string;
  od_points : option Q
}.

Record EnemyDefinition := mkEnemyDefinition {
  ed_x : Q;
  ed_yOffset : Q;
  ed_minX : Q;
  ed_maxX : Q;
  ed_speed : Q;
  ed_type : EnemyType
}.

(** [EnemyState = Enemy & { dir; width; height }]. *)
Record EnemyState := mkEnemyState {
  en_x : Q;
  en_y : Q;
  en_minX : Q;
  en_maxX : Q;
  en_speed : Q;
  en_type : EnemyType;
  en_dir : Z;
  en_width : Q;
  en_height : Q
}.

Record Checkpoint := mkCheckpoint {
  cp_x : Q;
  cp_yOffset : Q
}.

(** An [{ x, y }] object: the last checkpoint and the camera. *)
Record Point := mkPoint {
  pt_x : Q;
  pt_y : Q
}.

Record Bounds := mkBounds {
  b_minY : Q;
  b_maxY : Q
}.

Record Dimensions := mkDimensions {
  dim_w : Q;
  dim_h : Q
}.

(** ** constants *)

Module TEMPLE_COLORS.
Definition INDIGO := "#1b2440".
Definition BLACK := "#0b0f1a".
Definition SILVER := "#c0c7d1".
Definition GOLD := "#c8a24a".
Definition ASH := "#3b3f4a".
Definition MOURNING := "#121521".
Definition CANDLE := "#f1c97a".
Definition SHADOW := "#0a0d14".
End TEMPLE_COLORS.

Definition GRAVITY : Q := 0.45.
Definition FRICTION : Q := 0.84.
Definition MOVE_SPEED : Q := 4.6.
Definition JUMP_FORCE : Q := -11.5.

Definition WORLD_WIDTH : Q := 5200.
Definition WORLD_HEIGHT : Q := 1200.

Definition DESIGN_HEIGHT : Q := 360.

Definition CHECKPOINTS : list Checkpoint := [
  mkCheckpoint 140 0;
  mkCheckpoint 1100 0;
  mkCheckpoint 1950 (-240);
  mkCheckpoint 2600 120;
  mkCheckpoint 3200 0;
  mkCheckpoint 4200 (-140)
].

Definition PLATFORM_DATA : list PlatformDef := [
  mkPlatformDef 0 0 900 90 TEMPLE_COLORS.INDIGO (Some floor);
  mkPlatformDef 1020 0 620 90 TEMPLE_COLORS.INDIGO (Some floor);
  mkPlatformDef 1700 0 280 90 TEMPLE_COLORS.INDIGO (Some floor);
  mkPlatformDef 2800 0 620 90 TEMPLE_COLORS.INDIGO (Some floor);
  mkPlatformDef 3600 0 520 90 TEMPLE_COLORS.INDIGO (Some floor);
  mkPlatformDef 4500 0 520 90 TEMPLE_COLORS.INDIGO (Some floor);

  mkPlatformDef 200 (-60) 90 16 TEMPLE_COLORS.ASH (Some rubble);
  mkPlatformDef 360 (-120) 110 16 TEMPLE_COLORS.ASH (Some rubble);
  mkPlatformDef 520 (-70) 90 16 TEMPLE_COLORS.ASH (Some rubble);
  mkPlatformDef 700 (-140) 120 16 TEMPLE_COLORS.ASH (Some rubble);

  mkPlatformDef 1500 (-40) 120 16 TEMPLE_COLORS.SILVER (Some stair);
  mkPlatformDef 1600 (-90) 120 16 TEMPLE_COLORS.SILVER (Some stair);
  mkPlatformDef 1700 (-140) 120 16 TEMPLE_COLORS.SILVER (Some stair);
  mkPlatformDef 1800 (-190) 120 16 TEMPLE_COLORS.SILVER (Some stair);
  mkPlatformDef 1900 (-240) 140 16 TEMPLE_COLORS.SILVER (Some stair);
  mkPlatformDef 2020 (-260) 220 20 TEMPLE_COLORS.SILVER (Some platform);

  mkPlatformDef 2200 200 520 90 TEMPLE_COLORS.MOURNING (Some grave);
  mkPlatformDef 2320 140 120 16 TEMPLE_COLORS.ASH (Some platform);
  mkPlatformDef 2450 90 120 16 TEMPLE_COLORS.ASH (Some platform);
  mkPlatformDef 2580 40 120 16 TEMPLE_COLORS.ASH (Some platform);
  mkPlatformDef 2720 0 140 16 TEMPLE_COLORS.ASH (Some platform);

  mkPlatformDef 3000 (-60) 140 16 TEMPLE_COLORS.SILVER (Some stair);
  mkPlatformDef 3120 (-110) 140 16 TEMPLE_COLORS.SILVER (Some stair);
  mkPlatformDef 3260 (-160) 160 16 TEMPLE_COLORS.SILVER (Some stair);

  mkPlatformDef 3700 (-70) 200 16 TEMPLE_COLORS.ASH (Some platform);
  mkPlatformDef 3950 (-130) 200 16 TEMPLE_COLORS.ASH (Some platform);
  mkPlatformDef 4200 (-70) 200 16 TEMPLE_COLORS.ASH (Some platform);
  mkPlatformDef 4400 (-170) 220 16 TEMPLE_COLORS.ASH (Some platform);

  mkPlatformDef 4700 (-40) 200 18 TEMPLE_COLORS.GOLD (Some platform)
].

Definition GOAL_X : Q := 4800.
Definition GOAL_Y_OFFSET : Q := -40.

Definition REVIEW_QUESTIONS : list Question := [
  mkQuestion 1
    "What are the working tools of a Master Mason?"
    [ "The Skirret, the Pencil, and the Compasses.";
      "The Square, the Level, and the Plumb Rule.";
      "The 24 inch gauge and the common gavel." ]
    "The Skirret, the Pencil, and the Compasses."
    None (Some review);
  mkQuestion 2
    "To what do the working tools of a Master Mason allude?"
    [ "To morality and the Divine Creator.";
      "To the Middle Chamber and its wages.";
      "To the pillars of Strength and Establishment." ]
    "To morality and the Divine Creator."
    None (Some review);
  mkQuestion 3
    "What are the ornaments of a Master Mason Lodge?"
    [ "The Porch, the Dormer, and the Square Pavement.";
      "The Mosaic Pavement, the Blazing Star, and the Border.";
      "The Pillars, the Winding Staircase, and the Middle Chamber." ]
    "The Porch, the Dormer, and the Square Pavement."
    None (Some review);
  mkQuestion 4
    "How many constitute a Lodge of Master Masons?"
    [ "Three."; "Five."; "Seven." ]
    "Three."
    None (Some review);
  mkQuestion 5
    "What are the Five Points of Fellowship?"
    [ "Hand to hand, foot to foot, knee to knee, breast to breast, hand over back.";
      "Hand to hand, arm to arm, knee to knee, cheek to cheek, hand over heart.";
      "Hand to hand, foot to foot, knee to knee, shoulder to shoulder, hand over head." ]
    "Hand to hand, foot to foot, knee to knee, breast to breast, hand over back."
    None (Some review)
].

Definition QUESTIONS : list Question := [
  mkQuestion 101
    "What is the peculiar object of the Third Degree?"
    [ "To teach us how to die and the knowledge of oneself.";
      "To reveal the hidden mysteries of nature and science.";
      "To explain the wages of the Middle Chamber." ]
    "To teach us how to die and the knowledge of oneself."
    None (Some ritual);
  mkQuestion 102
    "How were you prepared for the Third Degree?"
    [ "Both arms, both breasts, both knees bare, both heels slipshod.";
      "Both arms bare, left breast bare, right heel slipshod.";
      "Left arm and right knee bare, hoodwinked, with a cable tow twice around." ]
    "Both arms, both breasts, both knees bare, both heels slipshod."
    None (Some ritual);
  mkQuestion 103
    "What do the three steps consist of?"
    [ "The first three as if stepping over a grave.";
      "The three principal officers of a lodge.";
      "The three great supports of Masonry." ]
    "The first three as if stepping over a grave."
    None (Some ritual);
  mkQuestion 104
    "The Skirret points out"
    [ "The straight and undeviating line of conduct.";
      "The level of equality among mankind.";
      "The uprightness of life and actions." ]
    "The straight and undeviating line of conduct."
    None (Some working_tools);
  mkQuestion 105
    "The Pencil teaches us"
    [ "That our words and actions are recorded by the Almighty Architect.";
      "That time is measured in equal parts.";
      "That wisdom is gained through silence." ]
    "That our words and actions are recorded by the Almighty Architect."
    None (Some working_tools);
  mkQuestion 106
    "The Compasses remind us of"
    [ "Unerring and impartial justice.";
      "The limits of earthly desires.";
      "The equality of all men in the lodge." ]
    "Unerring and impartial justice."
    None (Some working_tools)
].

Definition ORB_DATA : list OrbDefinition := [
  mkOrbDefinition 1 1180 (-20) 18 (Some 1%Z) "Skirret" "skirret"
    "The Skirret draws the straight and undeviating line of conduct."
    (Some 150);
  mkOrbDefinition 2 1880 (-220) 18 (Some 2%Z) "Pencil" "pencil"
    "The Pencil records our work in the Book of Life."
    (Some 150);
  mkOrbDefinition 3 3120 (-20) 18 (Some 3%Z) "Compasses" "compasses"
    "The Compasses keep our passions within due bounds."
    (Some 150);
  mkOrbDefinition 4 4150 (-150) 18 None "Sprig of Acacia" "acacia"
    "The acacia marks the place of fidelity and hope beyond the grave."
    (Some 250)
].

Definition REQUIRED_TOOL_IDS : list Z := [1; 2; 3]%Z.

Definition ENEMY_DATA : list EnemyDefinition := [
  mkEnemyDefinition 1200 0 1050 1500 1.1 Jubela;
  mkEnemyDefinition 1850 (-230) 1700 2050 0.9 Jubelo;
  mkEnemyDefinition 3100 0 2950 3400 1.6 Jubelum
].

(** ** The component

    One call of [submitLeaderboardScore (name, score, completed, userId)]. *)
Record Submission := mkSubmission {
  sub_name : JsString;
  sub_score : Q;
  sub_completed : bool;
  sub_userId : option string
}.

(** The props [userId] and [userName], the [useState] cells, the [useRef]
    cells, and the calls made so far to the leaderboard collaborator
    (oldest first). *)
Record Game := mkGame {
  userId : option string;
  userName : option JsString;
  dimensions : Dimensions;
  gameState : GameState;
  modalState : ModalState;
  activeOrb : option Orb;
  activeQuestion : option Question;
  graveQuestion : option Question;
  graveAnswers : list string;
  graveResult : option GraveResult;
  score : Q;
  collectedIds : gset Z;
  warningMessage : option string;
  scoreRef : Q;
  collectedRef : gset Z;
  seenLoreRef : gset string;
  keysRef : gmap string bool;
  jumpBufferRef : Z;
  lastCheckpointRef : Point;
  cameraRef : Point;
  platformsRef : list Platform;
  enemiesRef : list EnemyState;
  boundsRef : Bounds;
  playerRef : Player;
  submitted : list Submission
}.

(** Assignments to one field of a record. *)
Definition set_p_x (v : Q) (p : Player) : Player :=
  mkPlayer v (p_y p) (p_width p) (p_height p) (p_vx p) (p_vy p) (p_isGrounded p) (p_facing p) (p_jumpCount p) (p_coyoteTimer p).

Definition set_p_y (v : Q) (p : Player) : Player :=
  mkPlayer (p_x p) v (p_width p) (p_height p) (p_vx p) (p_vy p) (p_isGrounded p) (p_facing p) (p_jumpCount p) (p_coyoteTimer p).

Definition set_p_vx (v : Q) (p : Player) : Player :=
  mkPlayer (p_x p) (p_y p) (p_width p) (p_height p) v (p_vy p) (p_isGrounded p) (p_facing p) (p_jumpCount p) (p_coyoteTimer p).

Definition set_p_vy (v : Q) (p : Player) : Player :=
  mkPlayer (p_x p) (p_y p) (p_width p) (p_height p) (p_vx p) v (p_isGrounded p) (p_facing p) (p_jumpCount p) (p_coyoteTimer p).

Definition set_p_isGrounded (v : bool) (p : Player) : Player :=
  mkPlayer (p_x p) (p_y p) (p_width p) (p_height p) (p_vx p) (p_vy p) v (p_facing p) (p_jumpCount p) (p_coyoteTimer p).

Definition set_p_facing (v : Z) (p : Player) : Player :=
  mkPlayer (p_x p) (p_y p) (p_width p) (p_height p) (p_vx p) (p_vy p) (p_isGrounded p) v (p_jumpCount p) (p_coyoteTimer p).

Definition set_p_jumpCount (v : Z) (p : Player) : Player :=
  mkPlayer (p_x p) (p_y p) (p_width p) (p_height p) (p_vx p) (p_vy p) (p_isGrounded p) (p_facing p) v (p_coyoteTimer p).

Definition set_p_coyoteTimer (v : Z) (p : Player) : Player :=
  mkPlayer (p_x p) (p_y p) (p_width p) (p_height p) (p_vx p) (p_vy p) (p_isGrounded p) (p_facing p) (p_jumpCount p) v.

Definition set_en_x (v : Q) (e : EnemyState) : EnemyState :=
  mkEnemyState v (en_y e) (en_minX e) (en_maxX e) (en_speed e) (en_type e) (en_dir e) (en_width e) (en_height e).

Definition set_en_dir (v : Z) (e : EnemyState) : EnemyState :=
  mkEnemyState (en_x e) (en_y e) (en_minX e) (en_maxX e) (en_speed e) (en_type e) v (en_width e) (en_height e).

Definition set_dimensions (v : Dimensions) (g : Game) : Game :=
  mkGame (userId g) (userName g) v (gameState g) (modalState g) (activeOrb g) (activeQuestion g) (graveQuestion g) (graveAnswers g) (graveResult g) (score g) (collectedIds g) (warningMessage g) (scoreRef g) (collectedRef g) (seenLoreRef g) (keysRef g) (jumpBufferRef g) (lastCheckpointRef g) (cameraRef g) (platformsRef g) (enemiesRef g) (boundsRef g) (playerRef g) (submitted g).

Definition set_gameState (v : GameState) (g : Game) : Game :=
  mkGame (userId g) (userName g) (dimensions g) v (modalState g) (activeOrb g) (activeQuestion g) (graveQuestion g) (graveAnswers g) (graveResult g) (score g) (collectedIds g) (warningMessage g) (scoreRef g) (collectedRef g) (seenLoreRef g) (keysRef g) (jumpBufferRef g) (lastCheckpointRef g) (cameraRef g) (platformsRef g) (enemiesRef g) (boundsRef g) (playerRef g) (submitted g).

Definition set_modalState (v : ModalState) (g : Game) : Game :=
  mkGame (userId g) (userName g) (dimensions g) (gameState g) v (activeOrb g) (activeQuestion g) (graveQuestion g) (graveAnswers g) (graveResult g) (score g) (collectedIds g) (warningMessage g) (scoreRef g) (collectedRef g) (seenLoreRef g) (keysRef g) (jumpBufferRef g) (lastCheckpointRef g) (cameraRef g) (platformsRef g) (enemiesRef g) (boundsRef g) (playerRef g) (submitted g).

Definition set_activeOrb (v : option Orb) (g : Game) : Game :=
  mkGame (userId g) (userName g) (dimensions g) (gameState g) (modalState g) v (activeQuestion g) (graveQuestion g) (graveAnswers g) (graveResult g) (score g) (collectedIds g) (warningMessage g) (scoreRef g) (collectedRef g) (seenLoreRef g) (keysRef g) (jumpBufferRef g) (lastCheckpointRef g) (cameraRef g) (platformsRef g) (enemiesRef g) (boundsRef g) (playerRef g) (submitted g).

Definition set_activeQuestion (v : option Question) (g : Game) : Game :=
  mkGame (userId g) (userName g) (dimensions g) (gameState g) (modalState g) (activeOrb g) v (graveQuestion g) (graveAnswers g) (graveResult g) (score g) (collectedIds g) (warningMessage g) (scoreRef g) (collectedRef g) (seenLoreRef g) (keysRef g) (jumpBufferRef g) (lastCheckpointRef g) (cameraRef g) (platformsRef g) (enemiesRef g) (boundsRef g) (playerRef g) (submitted g).

Definition set_graveQuestion (v : option Question) (g : Game) : Game :=
  mkGame (userId g) (userName g) (dimensions g) (gameState g) (modalState g) (activeOrb g) (activeQuestion g) v (graveAnswers g) (graveResult g) (score g) (collectedIds g) (warningMessage g) (scoreRef g) (collectedRef g) (seenLoreRef g) (keysRef g) (jumpBufferRef g) (lastCheckpointRef g) (cameraRef g) (platformsRef g) (enemiesRef g) (boundsRef g) (playerRef g) (submitted g).

Definition set_graveAnswers (v : list string) (g : Game) : Game :=
  mkGame (userId g) (userName g) (dimensions g) (gameState g) (modalState g) (activeOrb g) (activeQuestion g) (graveQuestion g) v (graveResult g) (score g) (collectedIds g) (warningMessage g) (scoreRef g) (collectedRef g) (seenLoreRef g) (keysRef g) (jumpBufferRef g) (lastCheckpointRef g) (cameraRef g) (platformsRef g) (enemiesRef g) (boundsRef g) (playerRef g) (submitted g).

Definition set_graveResult (v : option GraveResult) (g : Game) : Game :=
  mkGame (userId g) (userName g) (dimensions g) (gameState g) (modalState g) (activeOrb g) (activeQuestion g) (graveQuestion g) (graveAnswers g) v (score g) (collectedIds g) (warningMessage g) (scoreRef g) (collectedRef g) (seenLoreRef g) (keysRef g) (jumpBufferRef g) (lastCheckpointRef g) (cameraRef g) (platformsRef g) (enemiesRef g) (boundsRef g) (playerRef g) (submitted g).

Definition set_score (v : Q) (g : Game) : Game :=
  mkGame (userId g) (userName g) (dimensions g) (gameState g) (modalState g) (activeOrb g) (activeQuestion g) (graveQuestion g) (graveAnswers g) (graveResult g) v (collectedIds g) (warningMessage g) (scoreRef g) (collectedRef g) (seenLoreRef g) (keysRef g) (jumpBufferRef g) (lastCheckpointRef g) (cameraRef g) (platformsRef g) (enemiesRef g) (boundsRef g) (playerRef g) (submitted g).

Definition set_collectedIds (v : gset Z) (g : Game) : Game :=
  mkGame (userId g) (userName g) (dimensions g) (gameState g) (modalState g) (activeOrb g) (activeQuestion g) (graveQuestion g) (graveAnswers g) (graveResult g) (score g) v (warningMessage g) (scoreRef g) (collectedRef g) (seenLoreRef g) (keysRef g) (jumpBufferRef g) (lastCheckpointRef g) (cameraRef g) (platformsRef g) (enemiesRef g) (boundsRef g) (playerRef g) (submitted g).

Definition set_warningMessage (v : option string) (g : Game) : Game :=
  mkGame (userId g) (userName g) (dimensions g) (gameState g) (modalState g) (activeOrb g) (activeQuestion g) (graveQuestion g) (graveAnswers g) (graveResult g) (score g) (collectedIds g) v (scoreRef g) (collectedRef g) (seenLoreRef g) (keysRef g) (jumpBufferRef g) (lastCheckpointRef g) (cameraRef g) (platformsRef g) (enemiesRef g) (boundsRef g) (playerRef g) (submitted g).

Definition set_scoreRef (v : Q) (g : Game) : Game :=
  mkGame (userId g) (userName g) (dimensions g) (gameState g) (modalState g) (activeOrb g) (activeQuestion g) (graveQuestion g) (graveAnswers g) (graveResult g) (score g) (collectedIds g) (warningMessage g) v (collectedRef g) (seenLoreRef g) (keysRef g) (jumpBufferRef g) (lastCheckpointRef g) (cameraRef g) (platformsRef g) (enemiesRef g) (boundsRef g) (playerRef g) (submitted g).

Definition set_collectedRef (v : gset Z) (g : Game) : Game :=
  mkGame (userId g) (userName g) (dimensions g) (gameState g) (modalState g) (activeOrb g) (activeQuestion g) (graveQuestion g) (graveAnswers g) (graveResult g) (score g) (collectedIds g) (warningMessage g) (scoreRef g) v (seenLoreRef g) (keysRef g) (jumpBufferRef g) (lastCheckpointRef g) (cameraRef g) (platformsRef g) (enemiesRef g) (boundsRef g) (playerRef g) (submitted g).

Definition set_seenLoreRef (v : gset string) (g : Game) : Game :=
  mkGame (userId g) (userName g) (dimensions g) (gameState g) (modalState g) (activeOrb g) (activeQuestion g) (graveQuestion g) (graveAnswers g) (graveResult g) (score g) (collectedIds g) (warningMessage g) (scoreRef g) (collectedRef g) v (keysRef g) (jumpBufferRef g) (lastCheckpointRef g) (cameraRef g) (platformsRef g) (enemiesRef g) (boundsRef g) (playerRef g) (submitted g).

Definition set_keysRef (v : gmap string bool) (g : Game) : Game :=
  mkGame (userId g) (userName g) (dimensions g) (gameState g) (modalState g) (activeOrb g) (activeQuestion g) (graveQuestion g) (graveAnswers g) (graveResult g) (score g) (collectedIds g) (warningMessage g) (scoreRef g) (collectedRef g) (seenLoreRef g) v (jumpBufferRef g) (lastCheckpointRef g) (cameraRef g) (platformsRef g) (enemiesRef g) (boundsRef g) (playerRef g) (submitted g).

Definition set_jumpBufferRef (v : Z) (g : Game) : Game :=
  mkGame (userId g) (userName g) (dimensions g) (gameState g) (modalState g) (activeOrb g) (activeQuestion g) (graveQuestion g) (graveAnswers g) (graveResult g) (score g) (collectedIds g) (warningMessage g) (scoreRef g) (collectedRef g) (seenLoreRef g) (keysRef g) v (lastCheckpointRef g) (cameraRef g) (platformsRef g) (enemiesRef g) (boundsRef g) (playerRef g) (submitted g).

Definition set_lastCheckpointRef (v : Point) (g : Game) : Game :=
  mkGame (userId g) (userName g) (dimensions g) (gameState g) (modalState g) (activeOrb g) (activeQuestion g) (graveQuestion g) (graveAnswers g) (graveResult g) (score g) (collectedIds g) (warningMessage g) (scoreRef g) (collectedRef g) (seenLoreRef g) (keysRef g) (jumpBufferRef g) v (cameraRef g) (platformsRef g) (enemiesRef g) (boundsRef g) (playerRef g) (submitted g).

Definition set_cameraRef (v : Point) (g : Game) : Game :=
  mkGame (userId g) (userName g) (dimensions g) (gameState g) (modalState g) (activeOrb g) (activeQuestion g) (graveQuestion g) (graveAnswers g) (graveResult g) (score g) (collectedIds g) (warningMessage g) (scoreRef g) (collectedRef g) (seenLoreRef g) (keysRef g) (jumpBufferRef g) (lastCheckpointRef g) v (platformsRef g) (enemiesRef g) (boundsRef g) (playerRef g) (submitted g).

Definition set_platformsRef (v : list Platform) (g : Game) : Game :=
  mkGame (userId g) (userName g) (dimensions g) (gameState g) (modalState g) (activeOrb g) (activeQuestion g) (graveQuestion g) (graveAnswers g) (graveResult g) (score g) (collectedIds g) (warningMessage g) (scoreRef g) (collectedRef g) (seenLoreRef g) (keysRef g) (jumpBufferRef g) (lastCheckpointRef g) (cameraRef g) v (enemiesRef g) (boundsRef g) (playerRef g) (submitted g).

Definition set_enemiesRef (v : list EnemyState) (g : Game) : Game :=
  mkGame (userId g) (userName g) (dimensions g) (gameState g) (modalState g) (activeOrb g) (activeQuestion g) (graveQuestion g) (graveAnswers g) (graveResult g) (score g) (collectedIds g) (warningMessage g) (scoreRef g) (collectedRef g) (seenLoreRef g) (keysRef g) (jumpBufferRef g) (lastCheckpointRef g) (cameraRef g) (platformsRef g) v (boundsRef g) (playerRef g) (submitted g).

Definition set_boundsRef (v : Bounds) (g : Game) : Game :=
  mkGame (userId g) (userName g) (dimensions g) (gameState g) (modalState g) (activeOrb g) (activeQuestion g) (graveQuestion g) (graveAnswers g) (graveResult g) (score g) (collectedIds g) (warningMessage g) (scoreRef g) (collectedRef g) (seenLoreRef g) (keysRef g) (jumpBufferRef g) (lastCheckpointRef g) (cameraRef g) (platformsRef g) (enemiesRef g) v (playerRef g) (submitted g).

Definition set_playerRef (v : Player) (g : Game) : Game :=
  mkGame (userId g) (userName g) (dimensions g) (gameState g) (modalState g) (activeOrb g) (activeQuestion g) (graveQuestion g) (graveAnswers g) (graveResult g) (score g) (collectedIds g) (warningMessage g) (scoreRef g) (collectedRef g) (seenLoreRef g) (keysRef g) (jumpBufferRef g) (lastCheckpointRef g) (cameraRef g) (platformsRef g) (enemiesRef g) (boundsRef g) v (submitted g).

Definition set_submitted (v : list Submission) (g : Game) : Game :=
  mkGame (userId g) (userName g) (dimensions g) (gameState g) (modalState g) (activeOrb g) (activeQuestion g) (graveQuestion g) (graveAnswers g) (graveResult g) (score g) (collectedIds g) (warningMessage g) (scoreRef g) (collectedRef g) (seenLoreRef g) (keysRef g) (jumpBufferRef g) (lastCheckpointRef g) (cameraRef g) (platformsRef g) (enemiesRef g) (boundsRef g) (playerRef g) v.

(** What the frame callback keeps of the render whose effect created
    it: the cells it names ([dimensions], [warningMessage]), the props
    ([userId], [userName]), and the [gameState] that [handleDeath] of
    that render tests.  [modalState] is kept with them because the
    effect tests both before it creates the callback. *)
Record Closure := mkClosure {
  cl_gameState : GameState;
  cl_modalState : ModalState;
  cl_dimensions : Dimensions;
  cl_userId : option string;
  cl_userName : option JsString;
  cl_warningMessage : option string
}.

(** ** Host inputs

    What one call of a handler draws from [Math.random]: the number that
    [pickGraveQuestion] scales into an index, and the order in which
    [shuffleAnswers] (a sort with a random comparator) leaves a list. *)
Record Chance := mkChance {
  ch_random : Q;
  ch_shuffle : list string -> list string
}.

(** ** Control flow of a handler body

    [Normal g]: the body ran on and the component is [g]; [Return g]: it
    executed [return]; [Throw e]: it raised the exception [e]. *)
Inductive Completion :=
  | Normal (g : Game)
  | Return (g : Game)
  | Throw (e : string).

Definition andThen (c : Completion) (k : Game -> Completion) : Completion :=
  match c with
  | Normal g => k g
  | Return g => Return g
  | Throw e => Throw e
  end.

Notation "c >>> k" := (andThen c k) (at level 62, left associativity).

(** A pure statement as a step of a body. *)
Definition stmt (f : Game -> Game) (g : Game) : Completion := Normal (f g).

(** The component a call leaves behind, if it did not throw. *)
Definition completed (c : Completion) : option Game :=
  match c with
  | Normal g => Some g
  | Return g => Some g
  | Throw _ => None
  end.

(** ** GameCanvas: set-up *)

Definition groundRefY : Q := DESIGN_HEIGHT - 40.

(** JavaScript truthiness of an optional number, an optional string and a
    number. *)
Definition truthyId (o : option Z) : bool :=
  match o with
  | Some n => negb (n =? 0)%Z
  | None => false
  end.

Definition truthyString (o : option string) : bool :=
  match o with
  | Some s => negb (String.eqb s "")
  | None => false
  end.

(** [keys[code]] read as a condition: an absent key is [undefined]. *)
Definition held (keys : gmap string bool) (code : string) : bool :=
  default false (keys !! code).

Definition initialPlayer : Player :=
  mkPlayer 60 (DESIGN_HEIGHT - 140) 30 44 0 0 false 1 0 0.

Definition initialPlatforms : list Platform :=
  List.map (fun p => mkPlatform (pd_x p) (groundRefY + pd_yOffset p)
                       (pd_width p) (pd_height p) (pd_color p) (pd_type p))
           PLATFORM_DATA.

(** [Math.min(...xs)] and [Math.max(...xs)] of a list that is not empty
    (with no argument they are the infinities, which no level reaches:
    the platform table is not empty). *)
Definition minOf (xs : list Q) : Q :=
  match xs with
  | [] => 0
  | x :: rest => fold_left Qmin rest x
  end.

Definition maxOf (xs : list Q) : Q :=
  match xs with
  | [] => 0
  | x :: rest => fold_left Qmax rest x
  end.

Definition levelBounds (platforms : list Platform) : Bounds :=
  mkBounds
    (minOf (List.map plat_y platforms) - 200)
    (maxOf (List.map (fun p => plat_y p + plat_height p) platforms)
       - DESIGN_HEIGHT + 200).

Definition initialEnemies : list EnemyState :=
  List.map (fun e => mkEnemyState (ed_x e) (groundRefY + ed_yOffset e - 44)
                       (ed_minX e) (ed_maxX e) (ed_speed e) (ed_type e)
                       1 32 44)
           ENEMY_DATA.

Definition initializeEnemies (g : Game) : Game :=
  set_enemiesRef initialEnemies g.

(** The component after mounting in a window of size [dims], for the
    props [uid] and [uname]: the initial values of the cells and the
    effects that run once. *)
Definition mount (uid : option string) (uname : option JsString)
    (dims : Dimensions) : Game :=
  mkGame uid uname dims START NONE None None None [] None 0 ∅ None
         0 ∅ ∅ ∅ 0
         (mkPoint 60 (DESIGN_HEIGHT - 140)) (mkPoint 0 0)
         initialPlatforms initialEnemies (levelBounds initialPlatforms)
         initialPlayer [].

(** ** GameCanvas: handlers *)

Definition pickGraveQuestion (c : Chance) : option Question :=
  let i := Qfloor (ch_random c * inject_Z (Z.of_nat (length QUESTIONS))) in
  if (i <? 0)%Z then None else QUESTIONS !! Z.to_nat i.

Definition resetPlayer (x y : Q) (p : Player) : Player :=
  set_p_coyoteTimer 0
    (set_p_jumpCount 0
      (set_p_isGrounded false
        (set_p_vy 0 (set_p_vx 0 (set_p_y y (set_p_x x p)))))).

Definition resetGame (toMenu : bool) (g : Game) : Game :=
  let g := set_playerRef (resetPlayer 60 (groundRefY - 100) (playerRef g)) g in
  let g := set_cameraRef (mkPoint 0 0) g in
  let g := set_lastCheckpointRef (mkPoint 60 (groundRefY - 100)) g in
  let g := set_collectedRef ∅ g in
  let g := set_seenLoreRef ∅ g in
  let g := set_collectedIds ∅ g in
  let g := set_scoreRef 0 g in
  let g := set_score 0 g in
  let g := set_activeOrb None g in
  let g := set_activeQuestion None g in
  let g := set_graveQuestion None g in
  let g := set_graveResult None g in
  let g := set_warningMessage None g in
  let g := set_modalState NONE g in
  let g := initializeEnemies g in
  set_gameState (if toMenu then START else PLAYING) g.

Definition respawnAtCheckpoint (g : Game) : Game :=
  let cp := lastCheckpointRef g in
  let g := set_playerRef (resetPlayer (pt_x cp) (pt_y cp) (playerRef g)) g in
  let g := set_gameState PLAYING g in
  let g := set_graveQuestion None g in
  set_graveResult None g.

(** [handleDeath] of a render in which [gameState] was [captured]; the
    frame callback calls the one of the render that subscribed it.
    [question.answers] on an index outside the table reads a property of
    [undefined]. *)
Definition handleDeath (captured : GameState) (c : Chance) (g : Game)
  : Completion :=
  match captured with
  | PLAYING =>
      match pickGraveQuestion c with
      | None => Throw "TypeError"
      | Some question =>
          let g := set_graveQuestion (Some question) g in
          let g := set_graveAnswers (ch_shuffle c (q_answers question)) g in
          let g := set_graveResult None g in
          let g := set_keysRef ∅ g in
          let g := set_playerRef (set_p_vy 0 (set_p_vx 0 (playerRef g))) g in
          Normal (set_gameState GRAVE g)
      end
  | _ => Return g
  end.

Definition collectOrb (orb : Orb) (g : Game) : Game :=
  let collected := collectedRef g ∪ {[ orb_id orb ]} in
  let g := set_collectedRef collected g in
  let g := set_collectedIds collected g in
  let points := default 100 (orb_points orb) in
  let next := score g + points in
  let g := set_scoreRef next (set_score next g) in
  let g := set_activeOrb None g in
  let g := set_activeQuestion None g in
  set_modalState NONE g.

(** [REVIEW_QUESTIONS.find((q) => q.id === id)]. *)
Definition findReview (id : Z) : option Question :=
  List.find (fun q => (q_id q =? id)%Z) REVIEW_QUESTIONS.

Definition handleLoreContinue (g : Game) : Game :=
  match activeOrb g with
  | None => set_modalState NONE g
  | Some orb =>
      let g := set_seenLoreRef (seenLoreRef g ∪ {[ orb_spriteKey orb ]}) g in
      let quiz :=
        if truthyId (orb_questionId orb)
        then findReview (default 0%Z (orb_questionId orb))
        else None in
      match quiz with
      | Some question =>
          set_modalState QUIZ (set_activeQuestion (Some question) g)
      | None => collectOrb orb g
      end
  end.

Definition handleQuizCorrect (g : Game) : Game :=
  match activeOrb g with
  | Some orb => collectOrb orb g
  | None => g
  end.

Definition handleQuizIncorrect (g : Game) : Game :=
  let g := set_activeQuestion None g in
  let g := set_activeOrb None g in
  let g := set_modalState NONE g in
  set_warningMessage
    (Some "Fidelity falters. The tool remains in shadow.") g.

Definition executeJump (g : Game) : Game :=
  let p := playerRef g in
  if p_isGrounded p || (0 <? p_coyoteTimer p)%Z then
    let p := set_p_coyoteTimer 0
               (set_p_jumpCount 1
                 (set_p_isGrounded false (set_p_vy JUMP_FORCE p))) in
    set_jumpBufferRef 0 (set_playerRef p g)
  else set_jumpBufferRef 6 g.

Definition isJumpKey (code : string) : bool :=
  String.eqb code "Space" || String.eqb code "ArrowUp"
  || String.eqb code "KeyW".

(** The short hop on releasing jump: [if (vy < 0) vy *= 0.5]. *)
Definition cutJump (p : Player) : Player :=
  if Qltb (p_vy p) 0 then set_p_vy (p_vy p * 0.5) p else p.

Definition handleKeyDown (code : string) (g : Game) : Game :=
  if String.eqb code "Escape" then
    match gameState g, modalState g with
    | PLAYING, NONE => set_gameState PAUSED g
    | PAUSED, _ => set_gameState PLAYING g
    | _, _ => g
    end
  else
    match gameState g, modalState g with
    | START, _ =>
        if String.eqb code "Enter" then resetGame false g else g
    | PLAYING, NONE =>
        let g := if isJumpKey code then executeJump g else g in
        set_keysRef (<[ code := true ]> (keysRef g)) g
    | _, _ => g
    end.

Definition handleKeyUp (code : string) (g : Game) : Game :=
  let g := set_keysRef (<[ code := false ]> (keysRef g)) g in
  if isJumpKey code then set_playerRef (cutJump (playerRef g)) g else g.

Definition handleInputStart (key : string) (g : Game) : Game :=
  match gameState g, modalState g with
  | PLAYING, NONE =>
      let g := if String.eqb key "Space" then executeJump g else g in
      set_keysRef (<[ key := true ]> (keysRef g)) g
  | _, _ => g
  end.

Definition handleInputEnd (key : string) (g : Game) : Game :=
  let g := set_keysRef (<[ key := false ]> (keysRef g)) g in
  if String.eqb key "Space" then set_playerRef (cutJump (playerRef g)) g
  else g.

(** The click on one answer of the grave panel. *)
Definition handleGraveAnswer (answer : string) (g : Game) : Game :=
  match graveQuestion g with
  | None => g
  | Some q =>
      if String.eqb answer (q_correctAnswer q)
      then set_graveResult (Some correct) g
      else set_graveResult (Some incorrect) g
  end.

Definition handleResize (w h : Q) (g : Game) : Game :=
  if Qltb 0 w && Qltb 0 h then set_dimensions (mkDimensions w h) g else g.

(** ** GameCanvas: one frame of the loop *)

(** [ORB_DATA.map(...)]: the orbs of the frame, with [active] read from
    the collected set. *)
Definition toOrb (collected : gset Z) (o : OrbDefinition) : Orb :=
  mkOrb (od_id o) (od_x o) (groundRefY + od_yOffset o) (od_radius o)
        (negb (bool_decide (od_id o ∈ collected)))
        (od_questionId o) (od_name o) (od_spriteKey o) (od_blurb o)
        (od_points o).

Definition frameOrbs (collected : gset Z) : list Orb :=
  List.map (toOrb collected) ORB_DATA.

(** Held directions accelerate and turn the player. *)
Definition steer (keys : gmap string bool) (p : Player) : Player :=
  let p := if held keys "ArrowLeft" || held keys "KeyA"
           then set_p_facing (-1) (set_p_vx (p_vx p - 0.8) p) else p in
  if held keys "ArrowRight" || held keys "KeyD"
  then set_p_facing 1 (set_p_vx (p_vx p + 0.8) p) else p.

Definition clampSpeed (p : Player) : Player :=
  let p := if Qgtb (p_vx p) MOVE_SPEED then set_p_vx MOVE_SPEED p else p in
  if Qltb (p_vx p) (- MOVE_SPEED) then set_p_vx (- MOVE_SPEED) p else p.

(** [vx *= FRICTION], then the snap to zero below [0.1]. *)
Definition applyFriction (p : Player) : Player :=
  let p := set_p_vx (p_vx p * FRICTION) p in
  if Qltb (Qabs (p_vx p)) 0.1 then set_p_vx 0 p else p.

Definition moveX (p : Player) : Player := set_p_x (p_x p + p_vx p) p.

(** The horizontal update of a frame, up to [player.x += player.vx]. *)
Definition horizontal (keys : gmap string bool) (p : Player) : Player :=
  moveX (applyFriction (clampSpeed (steer keys p))).

Definition vertical (p : Player) : Player :=
  let p := set_p_vy (p_vy p + GRAVITY) p in
  set_p_y (p_y p + p_vy p) p.

Definition fellOut (p : Player) : bool := Qgtb (p_y p) (groundRefY + 520).

(** One turn of [for (const cp of CHECKPOINTS)]. *)
Definition checkpointStep (p : Player) (last : Point) (cp : Checkpoint)
  : Point :=
  if Qgtb (p_x p) (cp_x cp) && Qgtb (cp_x cp) (pt_x last)
  then mkPoint (cp_x cp) (groundRefY + cp_yOffset cp - p_height p - 8)
  else last.

Definition updateCheckpoint (p : Player) (last : Point) : Point :=
  fold_left (checkpointStep p) CHECKPOINTS last.

Definition worldBounds (p : Player) : Player :=
  let p := if Qltb (p_x p) 0 then set_p_vx 0 (set_p_x 0 p) else p in
  if Qgtb (p_x p) (WORLD_WIDTH - p_width p)
  then set_p_vx 0 (set_p_x (WORLD_WIDTH - p_width p) p) else p.

(** The overlap test of the player's rectangle with a platform's, and its
    two halves, one per axis. *)
Definition overlapsOnX (p : Player) (plat : Platform) : bool :=
  Qltb (p_x p) (plat_x plat + plat_width plat)
  && Qgtb (p_x p + p_width p) (plat_x plat).

Definition overlapsOnY (p : Player) (plat : Platform) : bool :=
  Qltb (p_y p) (plat_y plat + plat_height plat)
  && Qgtb (p_y p + p_height p) (plat_y plat).

Definition overlapsPlatform (p : Player) (plat : Platform) : bool :=
  overlapsOnX p plat && overlapsOnY p plat.

Definition overlapX (p : Player) (plat : Platform) : Q :=
  let playerCenterX := p_x p + p_width p / 2 in
  let platCenterX := plat_x plat + plat_width plat / 2 in
  (p_width p + plat_width plat) / 2 - Qabs (playerCenterX - platCenterX).

Definition overlapY (p : Player) (plat : Platform) : Q :=
  let playerCenterY := p_y p + p_height p / 2 in
  let platCenterY := plat_y plat + plat_height plat / 2 in
  (p_height p + plat_height plat) / 2 - Qabs (playerCenterY - platCenterY).

(** The axis the body of the platform loop corrects. *)
Inductive Axis := AxisX | AxisY.

Definition resolvedAxis (p : Player) (plat : Platform) : Axis :=
  if Qltb (overlapX p plat) (overlapY p plat) then AxisX else AxisY.

(** The correction of an overlap with [plat]. *)
Definition pushOut (p : Player) (plat : Platform) : Player :=
  let playerCenterX := p_x p + p_width p / 2 in
  let playerCenterY := p_y p + p_height p / 2 in
  let platCenterX := plat_x plat + plat_width plat / 2 in
  let platCenterY := plat_y plat + plat_height plat / 2 in
  match resolvedAxis p plat with
  | AxisX =>
      let p := if Qltb playerCenterX platCenterX
               then set_p_x (plat_x plat - p_width p) p
               else set_p_x (plat_x plat + plat_width plat) p in
      set_p_vx 0 p
  | AxisY =>
      if Qltb playerCenterY platCenterY
      then set_p_jumpCount 0
             (set_p_vy 0
               (set_p_isGrounded true
                 (set_p_y (plat_y plat - p_height p) p)))
      else set_p_vy 0 (set_p_y (plat_y plat + plat_height plat) p)
  end.

(** One turn of [for (const plat of platforms)]. *)
Definition resolve (p : Player) (plat : Platform) : Player :=
  if overlapsPlatform p plat then pushOut p plat else p.

(** The collision pass: [isGrounded = false], then every platform in
    order, each against the rectangle the previous ones left. *)
Definition collide (platforms : list Platform) (p : Player) : Player :=
  fold_left resolve platforms (set_p_isGrounded false p).

Definition coyote (p : Player) : Player :=
  if p_isGrounded p then set_p_coyoteTimer 6 p
  else if (0 <? p_coyoteTimer p)%Z
       then set_p_coyoteTimer (p_coyoteTimer p - 1) p
       else p.

Definition bufferedJump (g : Game) : Game :=
  let g := if p_isGrounded (playerRef g) && (0 <? jumpBufferRef g)%Z
           then executeJump g else g in
  if (0 <? jumpBufferRef g)%Z
  then set_jumpBufferRef (jumpBufferRef g - 1) g else g.

(** [Math.sqrt(d2) < k] for a sum of squares [d2]: the root is not
    negative, so the test holds when [k] is positive and [d2 < k * k]. *)
Definition sqrtLt (d2 k : Q) : bool := Qltb 0 k && Qltb d2 (k * k).

Definition touchesOrb (p : Player) (orb : Orb) : bool :=
  let dx := p_x p + p_width p / 2 - orb_x orb in
  let dy := p_y p + p_height p / 2 - orb_y orb in
  sqrtLt (dx * dx + dy * dy) (orb_radius orb + p_width p / 2 + 8).

(** The body run for the orb the player touches. *)
Definition touchOrb (orb : Orb) (g : Game) : Game :=
  let g := set_activeOrb (Some orb) g in
  let g := set_playerRef (set_p_vy 0 (set_p_vx 0 (playerRef g))) g in
  let g := set_keysRef ∅ g in
  if bool_decide (orb_spriteKey orb ∈ seenLoreRef g) then
    let quiz :=
      if truthyId (orb_questionId orb)
      then findReview (default 0%Z (orb_questionId orb))
      else None in
    match quiz with
    | Some question =>
        set_modalState QUIZ (set_activeQuestion (Some question) g)
    | None => collectOrb orb g
    end
  else set_modalState LORE g.

Fixpoint orbLoop (orbs : list Orb) (g : Game) : Completion :=
  match orbs with
  | [] => Normal g
  | orb :: rest =>
      if negb (orb_active orb) then orbLoop rest g
      else if touchesOrb (playerRef g) orb then Return (touchOrb orb g)
      else orbLoop rest g
  end.

(** The patrol move of one enemy. *)
Definition patrol (e : EnemyState) : EnemyState :=
  let e := set_en_x (en_x e + en_speed e * inject_Z (en_dir e)) e in
  let e := if Qltb (en_x e) (en_minX e)
           then set_en_dir 1 (set_en_x (en_minX e) e) else e in
  if Qgtb (en_x e) (en_maxX e)
  then set_en_dir (-1) (set_en_x (en_maxX e) e) else e.

Definition hitsEnemy (p : Player) (e : EnemyState) : bool :=
  Qltb (p_x p) (en_x e + en_width e)
  && Qgtb (p_x p + p_width p) (en_x e)
  && Qltb (p_y p) (en_y e + en_height e)
  && Qgtb (p_y p + p_height p) (en_y e).

(** [for (const enemy of enemiesRef.current)]: the enemies as the loop
    leaves them, and whether it stopped on a contact.  The enemies after
    the one in contact have not moved. *)
Fixpoint enemyLoop (p : Player) (enemies : list EnemyState)
  : list EnemyState * bool :=
  match enemies with
  | [] => ([], false)
  | e :: rest =>
      let e' := patrol e in
      if hitsEnemy p e' then (e' :: rest, true)
      else let (rest', hit) := enemyLoop p rest in (e' :: rest', hit)
  end.

Definition enemyPhase (cl : Closure) (c : Chance) (g : Game)
  : Completion :=
  let (enemies, hit) := enemyLoop (playerRef g) (enemiesRef g) in
  let g := set_enemiesRef enemies g in
  if hit then
    match handleDeath (cl_gameState cl) c g with
    | Normal g' => Return g'
    | other => other
    end
  else Normal g.

Definition nearGoal (p : Player) : bool :=
  let goalY := groundRefY + GOAL_Y_OFFSET in
  Qltb (Qabs (p_x p - GOAL_X)) 40 && Qltb (Qabs (p_y p - goalY)) 80.

Definition hasTools (collected : gset Z) : bool :=
  forallb (fun id => bool_decide (id ∈ collected)) REQUIRED_TOOL_IDS.

(** [String.prototype.trim]: it strips the code units that are
    WhiteSpace or LineTerminator in ECMAScript (TAB, LF, VT, FF, CR,
    space, U+00A0, U+1680, U+2000 to U+200A, U+2028, U+2029, U+202F,
    U+205F, U+3000 and U+FEFF). *)
Definition isSpace (u : N) : bool :=
  ((9 <=? u) && (u <=? 13) || (u =? 32) || (u =? 160) || (u =? 5760)
   || (8192 <=? u) && (u <=? 8202) || (u =? 8232) || (u =? 8233)
   || (u =? 8239) || (u =? 8287) || (u =? 12288) || (u =? 65279))%N.

Fixpoint trimStart (s : JsString) : JsString :=
  match s with
  | [] => []
  | u :: rest => if isSpace u then trimStart rest else s
  end.

Fixpoint trimEnd (s : JsString) : JsString :=
  match s with
  | [] => []
  | u :: rest =>
      match trimEnd rest with
      | [] => if isSpace u then [] else [u]
      | kept => u :: kept
      end
  end.

Definition trim (s : JsString) : JsString := trimEnd (trimStart s).

(** [userName?.trim() || 'Mason']. *)
Definition displayName (name : option JsString) : JsString :=
  match name with
  | Some s =>
      match trim s with
      | [] => units "Mason"
      | kept => kept
      end
  | None => units "Mason"
  end.

(** The test of the goal.  [userName], [userId] and [warningMessage] are
    those of the closure. *)
Definition goalPhase (cl : Closure) (g : Game) : Completion :=
  if nearGoal (playerRef g) then
    if hasTools (collectedRef g) then
      let call := mkSubmission (displayName (cl_userName cl))
                    (scoreRef g + 500) true (cl_userId cl) in
      Return (set_gameState VICTORY
                (set_submitted (submitted g ++ [call]) g))
    else if negb (truthyString (cl_warningMessage cl)) then
      Normal (set_warningMessage
                (Some "The East is sealed. Recover the working tools first.")
                g)
    else Normal g
  else Normal g.

(** The camera moves a fixed fraction of the way to its clamped target. *)
Definition follow (dims : Dimensions) (bounds : Bounds) (p : Player)
    (cam : Point) : Point :=
  let scaleRatio := dim_h dims / DESIGN_HEIGHT in
  let viewW := dim_w dims / scaleRatio in
  let viewH := DESIGN_HEIGHT in
  let targetCamX := p_x p - viewW / 2 + p_width p / 2 in
  let targetCamX := Qmax 0 (Qmin targetCamX (WORLD_WIDTH - viewW)) in
  let targetCamY := p_y p - viewH / 2 in
  let targetCamY := Qmax (b_minY bounds) (Qmin targetCamY (b_maxY bounds)) in
  mkPoint (pt_x cam + (targetCamX - pt_x cam) * 0.12)
          (pt_y cam + (targetCamY - pt_y cam) * 0.12).

Definition cameraPhase (cl : Closure) (g : Game) : Game :=
  set_cameraRef
    (follow (cl_dimensions cl) (boundsRef g) (playerRef g) (cameraRef g)) g.

(** The kinematics of a frame up to the fatal-fall test. *)
Definition integrate (g : Game) : Game :=
  set_playerRef (vertical (horizontal (keysRef g) (playerRef g))) g.

Definition fallPhase (cl : Closure) (c : Chance) (g : Game) : Completion :=
  if fellOut (playerRef g) then
    match handleDeath (cl_gameState cl) c g with
    | Normal g' => Return g'
    | other => other
    end
  else Normal g.

(** Checkpoints, world bounds, platforms, coyote timer and buffered
    jump. *)
Definition settle (g : Game) : Game :=
  let g := set_lastCheckpointRef
             (updateCheckpoint (playerRef g) (lastCheckpointRef g)) g in
  let g := set_playerRef (worldBounds (playerRef g)) g in
  let g := set_playerRef (collide (platformsRef g) (playerRef g)) g in
  let g := set_playerRef (coyote (playerRef g)) g in
  bufferedJump g.

(** The body of [loop] down to the scan of the orbs, and down to the
    test of the goal. *)
Definition untilOrbs (cl : Closure) (c : Chance) (g : Game) : Completion :=
  stmt integrate g >>> fallPhase cl c >>> stmt settle.

Definition untilGoal (cl : Closure) (c : Chance) (g : Game) : Completion :=
  let orbs := frameOrbs (collectedRef g) in
  untilOrbs cl c g >>> orbLoop orbs >>> enemyPhase cl c.

(** The simulation half of [loop], in the order of the source, for the
    callback with closure [cl].  It completes normally when the callback
    reaches its last statement, the request for the next frame. *)
Definition loop (cl : Closure) (c : Chance) (g : Game) : Completion :=
  if Qzerob (dim_w (cl_dimensions cl)) || Qzerob (dim_h (cl_dimensions cl))
  then Return g
  else untilGoal cl c g >>> goalPhase cl >>> stmt (cameraPhase cl).

(** One run of the frame callback with closure [cl]. *)
Definition frame (cl : Closure) (c : Chance) (g : Game) : Completion :=
  loop cl c g.

(** ** Events *)

Inductive Event :=
  | Frame (cl : Closure) (c : Chance)
  | KeyDown (code : string)
  | KeyUp (code : string)
  | InputStart (key : string)
  | InputEnd (key : string)
  | Resize (w h : Q)
  | WarningTimeout
  | ClickBegin
  | LoreNext
  | QuizCorrect
  | QuizIncorrect
  | GraveAnswer (answer : string)
  | ClickReturnToWork
  | ClickBeginAgain
  | ClickResume
  | ClickRestart
  | ClickMainMenu
  | ClickReturnToMenu.

Definition isSome {A} (o : option A) : bool :=
  match o with Some _ => true | None => false end.

Definition inState (s : GameState) (g : Game) : bool :=
  match s, gameState g with
  | START, START | PLAYING, PLAYING | PAUSED, PAUSED
  | GRAVE, GRAVE | VICTORY, VICTORY => true
  | _, _ => false
  end.

Definition inModal (m : ModalState) (g : Game) : bool :=
  match m, modalState g with
  | NONE, NONE | LORE, LORE | QUIZ, QUIZ => true
  | _, _ => false
  end.

Definition graveShows (r : option GraveResult) (g : Game) : bool :=
  inState GRAVE g && isSome (graveQuestion g)
  && match r, graveResult g with
     | None, None | Some correct, Some correct
     | Some incorrect, Some incorrect => true
     | _, _ => false
     end.

(** The test of the effect that creates the frame callback: it goes on
    only for a render in state PLAYING with no modal. *)
Definition subscribes (s : GameState) (m : ModalState) : bool :=
  match s, m with
  | PLAYING, NONE => true
  | _, _ => false
  end.

(** Whether the page, as rendered for [g], can deliver the event: the
    control is on screen, the timer is armed.  A frame callback comes
    from a render that passed the test of its effect; which callbacks
    are requested at a given moment is a matter of the page
    ([page_offered]). *)
Definition offered (ev : Event) (g : Game) : bool :=
  match ev with
  | Frame cl _ => subscribes (cl_gameState cl) (cl_modalState cl)
  | KeyDown _ | KeyUp _ | Resize _ _ => true
  | InputStart _ | InputEnd _ => inState PLAYING g && inModal NONE g
  | WarningTimeout => truthyString (warningMessage g)
  | ClickBegin => inState START g
  | LoreNext => inModal LORE g && isSome (activeOrb g)
  | QuizCorrect | QuizIncorrect => inModal QUIZ g && isSome (activeQuestion g)
  | GraveAnswer a =>
      graveShows None g && bool_decide (a ∈ graveAnswers g)
  | ClickReturnToWork => graveShows (Some correct) g
  | ClickBeginAgain => graveShows (Some incorrect) g
  | ClickResume | ClickRestart | ClickMainMenu => inState PAUSED g
  | ClickReturnToMenu => inState VICTORY g
  end.

Definition handler (ev : Event) (g : Game) : Completion :=
  match ev with
  | Frame cl c => frame cl c g
  | KeyDown code => Normal (handleKeyDown code g)
  | KeyUp code => Normal (handleKeyUp code g)
  | InputStart key => Normal (handleInputStart key g)
  | InputEnd key => Normal (handleInputEnd key g)
  | Resize w h => Normal (handleResize w h g)
  | WarningTimeout => Normal (set_warningMessage None g)
  | ClickBegin => Normal (resetGame false g)
  | LoreNext => Normal (handleLoreContinue g)
  | QuizCorrect => Normal (handleQuizCorrect g)
  | QuizIncorrect => Normal (handleQuizIncorrect g)
  | GraveAnswer a => Normal (handleGraveAnswer a g)
  | ClickReturnToWork => Normal (respawnAtCheckpoint g)
  | ClickBeginAgain => Normal (resetGame false g)
  | ClickResume => Normal (set_gameState PLAYING g)
  | ClickRestart => Normal (resetGame false g)
  | ClickMainMenu => Normal (resetGame true g)
  | ClickReturnToMenu => Normal (resetGame true g)
  end.

(** One event: the component afterwards, or [None] when the handler
    threw.  An event the page does not offer changes nothing. *)
Definition step (ev : Event) (g : Game) : option Game :=
  if offered ev g then completed (handler ev g) else Some g.

Fixpoint run (evs : list Event) (g : Game) : option Game :=
  match evs with
  | [] => Some g
  | ev :: rest =>
      match step ev g with
      | Some g' => run rest g'
      | None => None
      end
  end.

(** The events that begin a run anew. *)
Definition restarts (ev : Event) (g : Game) : bool :=
  match ev with
  | ClickBegin | ClickBeginAgain | ClickRestart | ClickMainMenu
  | ClickReturnToMenu => offered ev g
  | KeyDown code =>
      negb (String.eqb code "Escape") && inState START g
      && String.eqb code "Enter"
  | _ => false
  end.

(** ** The page: requested frames and the subscription of the loop

    The component, [animationRef], and what the browser holds for it: the
    callbacks requested with [requestAnimationFrame] that have not run
    yet, oldest request first, each with the id the request returned, and
    the id the next request will return. *)
Record Page := mkPage {
  pg_game : Game;
  pg_animationRef : option Z;
  pg_requests : list (Z * Closure);
  pg_nextHandle : Z
}.

Definition set_pg_game (g : Game) (p : Page) : Page :=
  mkPage g (pg_animationRef p) (pg_requests p) (pg_nextHandle p).

Definition set_pg_animationRef (h : option Z) (p : Page) : Page :=
  mkPage (pg_game p) h (pg_requests p) (pg_nextHandle p).

(** The values a render of [g] hands to the closures it creates; they are
    also the dependencies of the effect that creates the frame
    callback. *)
Definition closureOf (g : Game) : Closure :=
  mkClosure (gameState g) (modalState g) (dimensions g) (userId g)
    (userName g) (warningMessage g).

Definition requested (h : Z) (p : Page) : option Closure :=
  option_map snd (List.find (fun r => (fst r =? h)%Z) (pg_requests p)).

Definition withoutRequest (h : Z) (p : Page) : Page :=
  mkPage (pg_game p) (pg_animationRef p)
    (List.filter (fun r => negb (fst r =? h)%Z) (pg_requests p))
    (pg_nextHandle p).

(** [requestAnimationFrame(loop)] for the callback with closure [cl]: the
    request is queued under a fresh id. *)
Definition requestAnimationFrame (cl : Closure) (p : Page) : Page :=
  mkPage (pg_game p) (pg_animationRef p)
    (pg_requests p ++ [(pg_nextHandle p, cl)]) (pg_nextHandle p + 1).

(** [cancelAnimationFrame(h)]: a request that has not run yet is dropped;
    an id that has run already names nothing. *)
Definition cancelAnimationFrame (h : Z) (p : Page) : Page :=
  withoutRequest h p.

(** The clean-up the effect returns:
    [if (animationRef.current) cancelAnimationFrame(animationRef.current)]. *)
Definition cleanup (p : Page) : Page :=
  match pg_animationRef p with
  | Some h => if (h =? 0)%Z then p else cancelAnimationFrame h p
  | None => p
  end.

(** The body of the effect: nothing outside PLAYING or with a modal open;
    otherwise the first request for the callback of this render, whose id
    goes to [animationRef]. *)
Definition subscribe (p : Page) : Page :=
  let g := pg_game p in
  if subscribes (gameState g) (modalState g) then
    set_pg_animationRef (Some (pg_nextHandle p))
      (requestAnimationFrame (closureOf g) p)
  else p.

(** Whether the dependencies of the effect,
    [[gameState, modalState, dimensions, userId, userName, warningMessage]],
    differ between the render before an event and the render after it.
    [dimensions] is an object, compared by identity: it differs exactly
    when [setDimensions] was called, which the resize handler does with a
    new object. *)
Definition resized (ev : Event) : bool :=
  match ev with
  | Resize w h => Qltb 0 w && Qltb 0 h
  | _ => false
  end.

Definition dependenciesChanged (ev : Event) (before after : Game) : bool :=
  resized ev
  || negb (inState (gameState before) after
           && inModal (modalState before) after
           && bool_decide (userId before = userId after)
           && bool_decide (userName before = userName after)
           && bool_decide (warningMessage before = warningMessage after)).

(** The effect after the re-render an event causes: when a dependency
    changed, the clean-up of the last run of the effect, if that run
    returned one (it does when it passed its test), and then the body. *)
Definition loopEffect (ev : Event) (before : Game) (p : Page) : Page :=
  if dependenciesChanged ev before (pg_game p) then
    subscribe
      (if subscribes (gameState before) (modalState before)
       then cleanup p else p)
  else p.

(** The events of a page: the browser runs the requested callback of id
    [h], or the component receives an event other than a frame. *)
Inductive PageEvent :=
  | Callback (h : Z) (c : Chance)
  | Deliver (ev : Event).

Definition isFrame (ev : Event) : bool :=
  match ev with
  | Frame _ _ => true
  | _ => false
  end.

Definition page_offered (pev : PageEvent) (p : Page) : bool :=
  match pev with
  | Callback h _ => isSome (requested h p)
  | Deliver ev => negb (isFrame ev) && offered ev (pg_game p)
  end.

(** The browser takes the request out of its queue and runs the callback;
    a callback that reaches its last statement requests its next frame
    ([frameId = requestAnimationFrame(loop)], the id going to the local
    variable only). *)
Definition runCallback (h : Z) (c : Chance) (p : Page) : option Page :=
  match requested h p with
  | None => Some p
  | Some cl =>
      let before := pg_game p in
      let p := withoutRequest h p in
      match frame cl c before with
      | Normal g =>
          Some (loopEffect (Frame cl c) before
                  (requestAnimationFrame cl (set_pg_game g p)))
      | Return g => Some (loopEffect (Frame cl c) before (set_pg_game g p))
      | Throw _ => None
      end
  end.

Definition page_step (pev : PageEvent) (p : Page) : option Page :=
  match pev with
  | Callback h c => runCallback h c p
  | Deliver ev =>
      if negb (isFrame ev) && offered ev (pg_game p) then
        match completed (handler ev (pg_game p)) with
        | Some g => Some (loopEffect ev (pg_game p) (set_pg_game g p))
        | None => None
        end
      else Some p
  end.

Fixpoint page_run (pevs : list PageEvent) (p : Page) : option Page :=
  match pevs with
  | [] => Some p
  | pev :: rest =>
      match page_step pev p with
      | Some p' => page_run rest p'
      | None => None
      end
  end.

(** The page after mounting: no callback is requested in state START. *)
Definition mountPage (uid : option string) (uname : option JsString)
    (dims : Dimensions) : Page :=
  mkPage (mount uid uname dims) None [] 1.

(** ** Vocabulary of the properties *)

(** The mirror effects hold: each ref equals the cell it copies. *)
Definition mirrored (g : Game) : Prop :=
  scoreRef g = score g /\ collectedRef g = collectedIds g.

(** The canvas has a size, so that [loop] goes past its first test. *)
Definition sized (d : Dimensions) : Prop :=
  Qzerob (dim_w d) || Qzerob (dim_h d) = false.

(** The patrol interval of an enemy is not empty. *)
Definition patrolSpan (e : EnemyState) : Prop := en_minX e <= en_maxX e.

Definition withinPatrol (e : EnemyState) : Prop :=
  en_minX e <= en_x e /\ en_x e <= en_maxX e.

(** Where the move alone would take the enemy. *)
Definition advanced (e : EnemyState) : Q :=
  en_x e + en_speed e * inject_Z (en_dir e).

(** [e'] is [e] after one patrol move: it keeps its interval and lies in
    it; a move past a bound ends on the bound, heading inwards; a move
    within the interval is kept as it is; and an enemy that was inside
    and moves forwards along its heading has turned round when it is
    stopped at a bound. *)
Record patrolled (e e' : EnemyState) : Prop := {
  pat_span : en_minX e' = en_minX e /\ en_maxX e' = en_maxX e;
  pat_within : withinPatrol e';
  pat_low : advanced e < en_minX e ->
            en_x e' = en_minX e /\ en_dir e' = 1%Z;
  pat_high : en_maxX e < advanced e ->
             en_x e' = en_maxX e /\ en_dir e' = (-1)%Z;
  pat_free : en_minX e <= advanced e <= en_maxX e ->
             en_x e' = advanced e /\ en_dir e' = en_dir e;
  pat_reverse : withinPatrol e -> 0 <= en_speed e ->
                en_dir e = 1%Z \/ en_dir e = (-1)%Z ->
                ~ (en_minX e <= advanced e <= en_maxX e) ->
                en_dir e' = (- en_dir e)%Z
}.

(** The patrol invariant as the specification words it: after the enemy
    update of a frame every enemy is inside its interval, wherever the
    enemies were before it. *)
Definition updateKeepsPatrols (p : Player) (enemies : list EnemyState)
  : Prop :=
  Forall withinPatrol (enemyLoop p enemies).1.

(** The player walks into the first ruffian. *)
Definition sampleByRuffian : Player := mkPlayer 1190 276 30 44 0 0 true 1 0 6.

(** The enemies of the level, the second one put 100 to the left of its
    interval. *)
Definition sampleStrayed : list EnemyState :=
  [ mkEnemyState 1200 276 1050 1500 1.1 Jubela 1 32 44;
    mkEnemyState 1600 46 1700 2050 0.9 Jubelo 1 32 44;
    mkEnemyState 3100 276 2950 3400 1.6 Jubelum 1 32 44 ].

(** What a frame that runs on to the goal leaves alone. *)
Definition ledger (g : Game) :=
  (userId g, userName g, dimensions g, gameState g, modalState g,
   (activeOrb g, activeQuestion g, graveQuestion g, graveAnswers g,
    graveResult g),
   (score g, scoreRef g), (collectedIds g, collectedRef g),
   seenLoreRef g, warningMessage g, submitted g,
   (platformsRef g, boundsRef g, cameraRef g)).

(** The Skirret, first row of [ORB_DATA], as a frame sees it. *)
Definition skirret (collected : gset Z) : Orb :=
  toOrb collected
    (mkOrbDefinition 1 1180 (-20) 18 (Some 1%Z) "Skirret" "skirret"
       "The Skirret draws the straight and undeviating line of conduct."
       (Some 150)).

(** The last checkpoint is the start of the level or a checkpoint that a
    reading has exceeded. *)
Definition checkpointEarned (last : Point) (xs : list Q) : Prop :=
  pt_x last = 60
  \/ exists cp x, cp ∈ CHECKPOINTS /\ x ∈ xs
                  /\ pt_x last = cp_x cp /\ cp_x cp < x.

(** ** Sample components *)

Definition sampleChance : Chance := mkChance 0.5 (fun answers => answers).

(** A run just begun from the menu, in a window of 800 by 600, and the
    closure of the frame callback that beginning it subscribes. *)
Definition sampleStart : Game :=
  resetGame false (mount None (Some (units "Hiram")) (mkDimensions 800 600)).

Definition sampleClosure : Closure := closureOf sampleStart.

(** The player has fallen into the gap after the first floor. *)
Definition sampleFallen : Game :=
  set_playerRef (mkPlayer 950 850 30 44 0 12 false 1 0 0) sampleStart.

(** The player stands on the last platform, by the chair, holding the
    three working tools. *)
Definition sampleAtGoal : Game :=
  let tools : gset Z := {[ 1%Z; 2%Z; 3%Z ]} in
  set_collectedRef tools
    (set_collectedIds tools
      (set_scoreRef 450
        (set_score 450
          (set_playerRef (mkPlayer 4790 236 30 44 0 0 true 1 0 6)
             sampleStart)))).

(** The player walks on the second floor, within reach of the Skirret. *)
Definition sampleBySkirret : Game :=
  set_playerRef (mkPlayer 1150 276 30 44 0 0 true 1 0 6) sampleStart.

(** The page of that run: the callback subscribed when the run began has
    run six times, so its request has the seventh id while [animationRef]
    holds the first. *)
Definition samplePlaying : Page :=
  mkPage sampleBySkirret (Some 1%Z) [(7%Z, sampleClosure)] 8.

(** The player touches the Skirret, acknowledges its lore, answers its
    question wrongly, touches the orb again at once, answers rightly
    while the warning of the wrong answer still shows, and plays on till
    the warning goes out. *)
Definition sampleCorrection : list PageEvent :=
  [ Callback 7 sampleChance; Deliver LoreNext; Deliver QuizIncorrect;
    Callback 8 sampleChance; Deliver QuizCorrect; Callback 9 sampleChance;
    Deliver WarningTimeout ].

(** The player stands by the chair. *)
Definition sampleByChair : Player := mkPlayer 4790 236 30 44 0 0 true 1 0 6.

(** The player has fallen into the same gap while heading left. *)
Definition sampleFacingLeft : Game :=
  set_playerRef (mkPlayer 950 850 30 44 (-3) 12 false (-1) 0 0) sampleStart.

(** The grave panel that fall opens. *)
Definition sampleGrave : Game :=
  default sampleStart
    (step (Frame sampleClosure sampleChance) sampleFacingLeft).

(** The claim of the grave as the specification words it: after a wrong
    answer and the restart it forces, the listed parts of the component,
    the whole player among them, have their initial values. *)
Definition graveIncorrectFullyResets (g : Game) (a : string) : Prop :=
  forall g',
    run [GraveAnswer a; ClickBeginAgain] g = Some g' ->
    let g0 := mount (userId g) (userName g) (dimensions g) in
    collectedIds g' = ∅ /\ score g' = 0
    /\ playerRef g' = playerRef g0
    /\ cameraRef g' = cameraRef g0
    /\ lastCheckpointRef g' = lastCheckpointRef g0
    /\ seenLoreRef g' = ∅
    /\ enemiesRef g' = enemiesRef g0
    /\ modalState g' = NONE.

(** Overlap of the two rectangles along one axis. *)
Definition overlapsOn (ax : Axis) (p : Player) (plat : Platform) : bool :=
  match ax with
  | AxisX => overlapsOnX p plat
  | AxisY => overlapsOnY p plat
  end.

(** One correction of the collision pass: the platform, the axis, and the
    player as the correction leaves it. *)
Record Resolution := mkResolution {
  res_platform : Platform;
  res_axis : Axis;
  res_player : Player
}.

(** The corrections the platform loop makes, in order, from the player
    [p] on. *)
Fixpoint resolutions (platforms : list Platform) (p : Player)
  : list Resolution :=
  match platforms with
  | [] => []
  | plat :: rest =>
      if overlapsPlatform p plat
      then mkResolution plat (resolvedAxis p plat) (pushOut p plat)
             :: resolutions rest (pushOut p plat)
      else resolutions rest p
  end.

(** The post-condition of the resolver as the specification words it:
    the rectangle the pass ends with is clear, on the corrected axis, of
    every platform the pass corrected against. *)
Definition passLeavesClear (platforms : list Platform) (p : Player) : Prop :=
  Forall (fun r => overlapsOn (res_axis r) (collide platforms p)
                     (res_platform r) = false)
         (resolutions platforms (set_p_isGrounded false p)).

(** The part of the rectangle that lies along one axis. *)
Definition along (ax : Axis) (p : Player) : Q * Q :=
  match ax with
  | AxisX => (p_x p, p_width p)
  | AxisY => (p_y p, p_height p)
  end.

(** A tentative rectangle that dips into the second floor under the
    first stair. *)
Definition sampleUnderStair : Player :=
  mkPlayer 1495 280 30 44 0 4 false 1 0 0.

(** A phase of a handler leaves a part of the component as it was,
    however it completes. *)
Definition Keeps {A : Type} (part : Game -> A) (phase : Game -> Completion)
  : Prop :=
  forall g g', completed (phase g) = Some g' -> part g' = part g.

(** The [x] that the checkpoint loop of a frame reads: the event is a
    run of a frame callback, whatever the state of the component, whose
    closure has a canvas with a size, and the player has not fallen
    out. *)
Definition checkpointReading (ev : Event) (g : Game) : option Q :=
  match ev with
  | Frame cl c =>
      if offered ev g
         && negb (Qzerob (dim_w (cl_dimensions cl))
                  || Qzerob (dim_h (cl_dimensions cl)))
         && negb (fellOut (playerRef (integrate g)))
      then Some (p_x (playerRef (integrate g)))
      else None
  | _ => None
  end.

(** The readings of the checkpoint loop along a sequence of events. *)
Fixpoint readings (evs : list Event) (g : Game) : list Q :=
  match evs with
  | [] => []
  | ev :: rest =>
      option_list (checkpointReading ev g)
      ++ match step ev g with
         | Some g' => readings rest g'
         | None => []
         end
  end.

(** No event of the sequence restarts the game: the sequence stays
    within one run. *)
Fixpoint oneRun (evs : list Event) (g : Game) : Prop :=
  match evs with
  | [] => True
  | ev :: rest =>
      restarts ev g = false
      /\ match step ev g with
         | Some g' => oneRun rest g'
         | None => True
         end
  end.

(** The largest checkpoint [x] that one of the positions [xs] exceeds,
    and the start of the level when there is none. *)
Definition furthest (xs : list Q) : Q :=
  fold_left
    (fun best cp =>
       if existsb (fun x => Qgtb x (cp_x cp)) xs
       then Qmax best (cp_x cp) else best)
    CHECKPOINTS 60.

(** The player walks on the first floor, one step before the first
    checkpoint. *)
Definition sampleByPorch : Game :=
  set_playerRef (mkPlayer 139 276 30 44 0 0 true 1 0 6) sampleStart.

(** ** The outcomes of a frame *)

(** The component [handleDeath] leaves when it runs to its end with the
    question [q]. *)
Definition graveOpened (c : Chance) (q : Question) (g : Game) : Game :=
  set_gameState GRAVE
    (set_playerRef (set_p_vy 0 (set_p_vx 0 (playerRef g)))
       (set_keysRef ∅
          (set_graveResult None
             (set_graveAnswers (ch_shuffle c (q_answers q))
                (set_graveQuestion (Some q) g))))).

(** The component at the scan of the orbs and at the test of the goal,
    in a frame that gets there. *)
Definition atOrbs (g : Game) : Game := settle (integrate g).

Definition atGoal (g : Game) : Game :=
  let g2 := atOrbs g in
  set_enemiesRef (enemyLoop (playerRef g2) (enemiesRef g2)).1 g2.

(** The victory branch and the warning branch of the goal test, for the
    callback with closure [cl]. *)
Definition victorious (cl : Closure) (g : Game) : Game :=
  set_gameState VICTORY
    (set_submitted
       (submitted g
        ++ [mkSubmission (displayName (cl_userName cl)) (scoreRef g + 500)
              true (cl_userId cl)])
       g).

Definition warned (cl : Closure) (g : Game) : Game :=
  if nearGoal (playerRef g) && negb (truthyString (cl_warningMessage cl))
  then set_warningMessage
         (Some "The East is sealed. Recover the working tools first.") g
  else g.

(** The closure is one of a frame callback (its render was in state
    PLAYING with no modal) and its canvas has a size. *)
Definition ticking (cl : Closure) : Prop :=
  cl_gameState cl = PLAYING /\ cl_modalState cl = NONE
  /\ sized (cl_dimensions cl).

(** The ways a run of the frame callback with closure [cl] can end, with
    the component each leaves. *)
Inductive FrameOutcome (cl : Closure) (c : Chance) (g : Game)
  : Game -> Prop :=
  | frame_idle :
      ~ ticking cl -> FrameOutcome cl c g g
  | frame_fall (q : Question) :
      ticking cl ->
      fellOut (playerRef (integrate g)) = true ->
      pickGraveQuestion c = Some q ->
      FrameOutcome cl c g (graveOpened c q (integrate g))
  | frame_orb (orb : Orb) :
      ticking cl ->
      fellOut (playerRef (integrate g)) = false ->
      orb ∈ frameOrbs (collectedRef g) ->
      orb_active orb = true ->
      touchesOrb (playerRef (atOrbs g)) orb = true ->
      FrameOutcome cl c g (touchOrb orb (atOrbs g))
  | frame_enemy (q : Question) :
      ticking cl ->
      fellOut (playerRef (integrate g)) = false ->
      orbLoop (frameOrbs (collectedRef g)) (atOrbs g) = Normal (atOrbs g) ->
      (enemyLoop (playerRef (atOrbs g)) (enemiesRef (atOrbs g))).2 = true ->
      pickGraveQuestion c = Some q ->
      FrameOutcome cl c g (graveOpened c q (atGoal g))
  | frame_victory :
      ticking cl ->
      fellOut (playerRef (integrate g)) = false ->
      orbLoop (frameOrbs (collectedRef g)) (atOrbs g) = Normal (atOrbs g) ->
      (enemyLoop (playerRef (atOrbs g)) (enemiesRef (atOrbs g))).2 = false ->
      nearGoal (playerRef (atGoal g)) = true ->
      hasTools (collectedRef (atGoal g)) = true ->
      FrameOutcome cl c g (victorious cl (atGoal g))
  | frame_on :
      ticking cl ->
      fellOut (playerRef (integrate g)) = false ->
      orbLoop (frameOrbs (collectedRef g)) (atOrbs g) = Normal (atOrbs g) ->
      (enemyLoop (playerRef (atOrbs g)) (enemiesRef (atOrbs g))).2 = false ->
      nearGoal (playerRef (atGoal g)) && hasTools (collectedRef (atGoal g))
      = false ->
      FrameOutcome cl c g (cameraPhase cl (warned cl (atGoal g))).

(** ** Invariants *)

(** The ids of the orbs of the level. *)
Definition levelOrbIds : gset Z := list_to_set (List.map od_id ORB_DATA).

(** The part of the component that records the state machine and the
    progress of the run. *)
Definition progress (g : Game) :=
  (gameState g, modalState g, (activeOrb g, activeQuestion g),
   graveQuestion g, (score g, scoreRef g), (collectedIds g, collectedRef g)).

(** The state machine and the progress store agree with each other: the
    refs mirror their cells; only orbs of the level are collected; the
    pending orb is an orb of the level; a modal state is set only with
    what its modal renders; the grave has its question, one of the death
    pool. *)
Record coherent (g : Game) : Prop := {
  coh_mirror : mirrored g;
  coh_collected : collectedIds g ⊆ levelOrbIds;
  coh_orb : forall orb, activeOrb g = Some orb ->
            exists o s, o ∈ ORB_DATA /\ orb = toOrb s o;
  coh_lore : modalState g = LORE -> isSome (activeOrb g) = true;
  coh_quiz : modalState g = QUIZ ->
             isSome (activeOrb g) = true
             /\ exists q, q ∈ REVIEW_QUESTIONS /\ activeQuestion g = Some q;
  coh_grave : gameState g = GRAVE ->
              exists q, q ∈ QUESTIONS /\ graveQuestion g = Some q
}.

(** [Math.random] keeps to its contract in every frame of the
    sequence. *)
Definition fairChance (ev : Event) : Prop :=
  match ev with
  | Frame _ c => 0 <= ch_random c < 1
  | _ => True
  end.

(** The review question an orb leads to: [orb.questionId] when it is
    truthy and names a question of [REVIEW_QUESTIONS]. *)
Definition quizOf (orb : Orb) : option Question :=
  if truthyId (orb_questionId orb)
  then findReview (default 0%Z (orb_questionId orb))
  else None.

(** The first statements of the orb trigger: the orb becomes the pending
    orb, the player stops, the held keys are dropped. *)
Definition halted (orb : Orb) (g : Game) : Game :=
  set_keysRef ∅
    (set_playerRef (set_p_vy 0 (set_p_vx 0 (playerRef g)))
       (set_activeOrb (Some orb) g)).

(** The lore of the pending orb is marked as seen. *)
Definition loreSeen (orb : Orb) (g : Game) : Game :=
  set_seenLoreRef (seenLoreRef g ∪ {[ orb_spriteKey orb ]}) g.

(** The quiz modal opens on a question. *)
Definition quizOpened (q : Question) (g : Game) : Game :=
  set_modalState QUIZ (set_activeQuestion (Some q) g).

(** What a run accumulates. *)
Definition gains (g : Game) := (score g, collectedIds g, seenLoreRef g).

(** From [g] to [g'] nothing earned is lost: the collected set and the
    seen lore only grow, and the score either stays, with the collected
    set, or grows by the points of one orb of the level, whose id joins
    the collected set. *)
Definition advances (g g' : Game) : Prop :=
  seenLoreRef g ⊆ seenLoreRef g'
  /\ ((score g' = score g /\ collectedIds g' = collectedIds g)
      \/ exists o, o ∈ ORB_DATA
                   /\ score g' = score g + default 100 (od_points o)
                   /\ collectedIds g' = collectedIds g ∪ {[ od_id o ]}).

(** A first visit: the page mounts, the player begins the vigil, holds
    the right arrow for a frame, pauses and resumes. *)
Definition sampleMount : Game :=
  mount None (Some (units "Hiram")) (mkDimensions 800 600).

Definition sampleVisit : list Event :=
  [ClickBegin; KeyDown "ArrowRight"; Frame sampleClosure sampleChance;
   KeyDown "Escape"; KeyDown "Escape"].

(** What the page has sent out and what it was given. *)
Definition records (g : Game) :=
  (submitted g, platformsRef g, boundsRef g, userId g, userName g).

(** The grave panel after the correct answer to its question. *)
Definition sampleAbsolved : Game :=
  default sampleGrave
    (step (GraveAnswer "The straight and undeviating line of conduct.")
       sampleGrave).

(** The lore modal is open on the Sprig of Acacia, the orb without a
    question. *)
Definition sampleAcaciaLore : Game :=
  set_modalState LORE
    (set_activeOrb
       (Some (toOrb ∅
                (mkOrbDefinition 4 4150 (-150) 18 None "Sprig of Acacia"
                   "acacia"
                   "The acacia marks the place of fidelity and hope beyond the grave."
                   (Some 250))))
       sampleStart).

(** The run is won. *)
Definition sampleWon : Game :=
  default sampleStart (step (Frame sampleClosure sampleChance) sampleAtGoal).

(** The player, holding the Compasses, walks into the third ruffian. *)
Definition sampleByEnemy : Game :=
  let tools : gset Z := {[ 3%Z ]} in
  set_collectedRef tools
    (set_collectedIds tools
      (set_scoreRef 150
        (set_score 150
          (set_playerRef (mkPlayer 3090 276 30 44 0 0 true 1 0 6)
             sampleStart)))).

(** The counters of the player keep to their ranges and its size is the
    one it was created with. *)
Definition steadyPlayer (p : Player) : Prop :=
  (0 <= p_coyoteTimer p <= 6)%Z
  /\ (p_jumpCount p = 0 \/ p_jumpCount p = 1)%Z
  /\ (p_facing p = 1 \/ p_facing p = -1)%Z
  /\ p_width p = 30 /\ p_height p = 44.

Definition steady (g : Game) : Prop :=
  steadyPlayer (playerRef g) /\ (0 <= jumpBufferRef g <= 6)%Z.

(** An enemy heads left or right. *)
Definition heading (e : EnemyState) : Prop :=
  (en_dir e = 1 \/ en_dir e = -1)%Z.

(** Every enemy has a patrol interval, is inside it and has a heading. *)
Definition garrisoned (enemies : list EnemyState) : Prop :=
  Forall patrolSpan enemies /\ Forall withinPatrol enemies
  /\ Forall heading enemies.

(** The counters and the size of a player, and what [steady] and
    [garrisoned] read of the component. *)
Definition marks (p : Player) :=
  (p_coyoteTimer p, p_jumpCount p, p_facing p, p_width p, p_height p).

Definition body (g : Game) :=
  (marks (playerRef g), jumpBufferRef g, enemiesRef g).

Definition orderly (g : Game) : Prop :=
  steady g /\ garrisoned (enemiesRef g).

(** The player comes down on the first floor with a jump still
    buffered. *)
Definition sampleLanding : Game :=
  set_jumpBufferRef 4
    (set_playerRef (mkPlayer 300 278 30 44 0 3 false 1 1 0) sampleStart).

(** The player stands on the first floor. *)
Definition sampleStanding : Game :=
  set_playerRef (mkPlayer 300 276 30 44 0 0 true 1 0 6) sampleStart.

(** The Sprig of Acacia as a frame sees it before it is collected, and
    the component when the player has just touched it. *)
Definition sampleAcacia : Orb :=
  toOrb ∅
    (mkOrbDefinition 4 4150 (-150) 18 None "Sprig of Acacia" "acacia"
       "The acacia marks the place of fidelity and hope beyond the grave."
       (Some 250)).

Definition sampleAcaciaTouched : Game := touchOrb sampleAcacia sampleStart.

(** ** The score *)

(** The points of an orb ([orb.points ?? 100]) and the points of the orbs
    of a table that are in a collected set. *)
Definition orbPoints (o : OrbDefinition) : Q := default 100 (od_points o).

Definition tallyOver (orbs : list OrbDefinition) (collected : gset Z) : Q :=
  fold_right
    (fun o acc =>
       if bool_decide (od_id o ∈ collected) then orbPoints o + acc else acc)
    0 orbs.

Definition tally (collected : gset Z) : Q := tallyOver ORB_DATA collected.

(** The pending orb is not collected yet. *)
Definition pending (g : Game) : Prop :=
  forall orb, activeOrb g = Some orb -> orb_id orb ∉ collectedIds g.

Definition purse (g : Game) := (score g, collectedIds g, activeOrb g).

(** What an event can do to the score, the collected set and the pending
    orb. *)
Inductive transacts (g g' : Game) : Prop :=
  | transacts_same :
      purse g' = purse g -> transacts g g'
  | transacts_cleared :
      purse g' = (score g, collectedIds g, None) -> transacts g g'
  | transacts_reset :
      purse g' = (0, ∅, None) -> transacts g g'
  | transacts_held (orb : Orb) :
      orb_id orb ∉ collectedIds g ->
      purse g' = (score g, collectedIds g, Some orb) -> transacts g g'
  | transacts_collected (o : OrbDefinition) :
      o ∈ ORB_DATA -> od_id o ∉ collectedIds g ->
      purse g'
      = (score g + default 100 (od_points o),
         collectedIds g ∪ {[ od_id o ]}, None) ->
      transacts g g'.

(** The score is the points of the collected orbs. *)
Definition audited (g : Game) : Prop :=
  pending g /\ score g == tally (collectedIds g).

(** A score on the leaderboard: a completed run with the three working
    tools, with or without the Sprig of Acacia. *)
Definition creditable (s : Submission) : Prop :=
  sub_completed s = true /\ (sub_score s == 950 \/ sub_score s == 1200).

Definition booked (g : Game) : Prop :=
  coherent g /\ audited g /\ Forall creditable (submitted g).

(** ** The page *)

(** Every requested callback was created by a render that passed the test
    of the effect. *)
Definition queued (p : Page) : Prop :=
  Forall (fun r => subscribes (cl_gameState r.2) (cl_modalState r.2) = true)
         (pg_requests p).



(** The page of [sampleByPorch]: the callback subscribed when the run
    began is about to run for the fourth time. *)
Definition samplePorch : Page :=
  mkPage sampleByPorch (Some 1%Z) [(4%Z, sampleClosure)] 5.

(** The player walks right, pauses with Escape, and the browser goes on
    running what is requested. *)
Definition samplePause : list PageEvent :=
  [ Deliver (KeyDown "ArrowRight"); Callback 4 sampleChance;
    Deliver (KeyDown "Escape"); Callback 5 sampleChance;
    Callback 6 sampleChance ].

(** The ids in use are below the id the next request gets. *)
Definition issued (p : Page) : Prop :=
  Forall (fun r => (r.1 < pg_nextHandle p)%Z) (pg_requests p)
  /\ match pg_animationRef p with
     | Some h => (h < pg_nextHandle p)%Z
     | None => True
     end.


(** The player, holding the three working tools, stands one step before
    the chair; the callback of the run has run three times. *)
Definition sampleNearChair : Page :=
  mkPage
    (set_playerRef (mkPlayer 4759.8 236 30 44 0 0 true 1 0 6) sampleAtGoal)
    (Some 1%Z) [(4%Z, sampleClosure)] 5.

(** The player pauses and resumes, lets two frames pass and steps
    forward. *)
Definition sampleResume : list PageEvent :=
  [ Deliver (KeyDown "Escape"); Deliver (KeyDown "Escape");
    Callback 4 sampleChance; Callback 5 sampleChance;
    Deliver (KeyDown "ArrowRight");
    Callback 6 sampleChance; Callback 7 sampleChance ].

(** * Properties *)

Local Open Scope list_scope.

(** ** Numbers *)

Lemma Qltb_spec (a b : Q) : reflect (a < b) (Qltb a b).
Proof.
  unfold Qltb, Qlt, Z.ltb.
  destruct (Qnum a * QDen b ?= Qnum b * QDen a)%Z eqn:E; constructor;
    unfold Z.lt; congruence.
Qed.

Lemma Qltb_lt (a b : Q) : Qltb a b = true <-> a < b.
Proof. destruct (Qltb_spec a b); split; intros; congruence || lra. Qed.

Lemma Qltb_ge (a b : Q) : Qltb a b = false <-> b <= a.
Proof. destruct (Qltb_spec a b); split; intros; congruence || lra. Qed.

Ltac qcase :=
  match goal with
  | |- context [Qltb ?a ?b] => destruct (Qltb_spec a b)
  end.

(** Reading a field through assignments. *)
Ltac fields := cbn [userId userName dimensions gameState modalState activeOrb activeQuestion graveQuestion graveAnswers graveResult score collectedIds warningMessage scoreRef collectedRef seenLoreRef keysRef jumpBufferRef lastCheckpointRef cameraRef platformsRef enemiesRef boundsRef playerRef submitted set_dimensions set_gameState set_modalState set_activeOrb set_activeQuestion set_graveQuestion set_graveAnswers set_graveResult set_score set_collectedIds set_warningMessage set_scoreRef set_collectedRef set_seenLoreRef set_keysRef set_jumpBufferRef set_lastCheckpointRef set_cameraRef set_platformsRef set_enemiesRef set_boundsRef set_playerRef set_submitted p_x p_y p_width p_height p_vx p_vy p_isGrounded p_facing p_jumpCount p_coyoteTimer set_p_x set_p_y set_p_vx set_p_vy set_p_isGrounded set_p_facing set_p_jumpCount set_p_coyoteTimer isSome fst snd].
Ltac fields_in H := cbn [userId userName dimensions gameState modalState activeOrb activeQuestion graveQuestion graveAnswers graveResult score collectedIds warningMessage scoreRef collectedRef seenLoreRef keysRef jumpBufferRef lastCheckpointRef cameraRef platformsRef enemiesRef boundsRef playerRef submitted set_dimensions set_gameState set_modalState set_activeOrb set_activeQuestion set_graveQuestion set_graveAnswers set_graveResult set_score set_collectedIds set_warningMessage set_scoreRef set_collectedRef set_seenLoreRef set_keysRef set_jumpBufferRef set_lastCheckpointRef set_cameraRef set_platformsRef set_enemiesRef set_boundsRef set_playerRef set_submitted p_x p_y p_width p_height p_vx p_vy p_isGrounded p_facing p_jumpCount p_coyoteTimer set_p_x set_p_y set_p_vx set_p_vy set_p_isGrounded set_p_facing set_p_jumpCount set_p_coyoteTimer isSome fst snd] in H.
Ltac fields_all := cbn [userId userName dimensions gameState modalState activeOrb activeQuestion graveQuestion graveAnswers graveResult score collectedIds warningMessage scoreRef collectedRef seenLoreRef keysRef jumpBufferRef lastCheckpointRef cameraRef platformsRef enemiesRef boundsRef playerRef submitted set_dimensions set_gameState set_modalState set_activeOrb set_activeQuestion set_graveQuestion set_graveAnswers set_graveResult set_score set_collectedIds set_warningMessage set_scoreRef set_collectedRef set_seenLoreRef set_keysRef set_jumpBufferRef set_lastCheckpointRef set_cameraRef set_platformsRef set_enemiesRef set_boundsRef set_playerRef set_submitted p_x p_y p_width p_height p_vx p_vy p_isGrounded p_facing p_jumpCount p_coyoteTimer set_p_x set_p_y set_p_vx set_p_vy set_p_isGrounded set_p_facing set_p_jumpCount set_p_coyoteTimer isSome fst snd] in *.

(** ** Horizontal kinematics *)

Lemma clampSpeed_vx (p : Player) :
  (- MOVE_SPEED <= p_vx (clampSpeed p) <= MOVE_SPEED) /\
  (- MOVE_SPEED <= p_vx p <= MOVE_SPEED -> p_vx (clampSpeed p) = p_vx p).
Proof.
  unfold clampSpeed, Qgtb, MOVE_SPEED.
  destruct (Qltb_spec 4.6 (p_vx p)); cbn [p_vx set_p_vx];
    qcase; cbn [p_vx set_p_vx];
    (split; [ lra | intros; first [ reflexivity | lra ] ]).
Qed.

Lemma applyFriction_vx (p : Player) :
  let rubbed := p_vx p * FRICTION in
  p_vx (applyFriction p) = (if Qltb (Qabs rubbed) 0.1 then 0 else rubbed).
Proof.
  unfold applyFriction; cbn [p_vx set_p_vx].
  destruct (Qltb _ _); reflexivity.
Qed.

Lemma integrate_vx (g : Game) :
  p_vx (playerRef (integrate g))
  = p_vx (applyFriction (clampSpeed (steer (keysRef g) (playerRef g)))).
Proof. reflexivity. Qed.

(** C5.  In every frame the horizontal velocity, once multiplied by the
    friction factor, is at most [MOVE_SPEED] in magnitude, and so is the
    velocity the horizontal update ends with; that velocity is exactly
    zero whenever the magnitude of [vx] before the clamp to
    [±MOVE_SPEED] was below [0.1]. *)
Theorem horizontal_speed_bounded (g : Game) :
  let before := p_vx (steer (keysRef g) (playerRef g)) in
  let rubbed :=
    p_vx (clampSpeed (steer (keysRef g) (playerRef g))) * FRICTION in
  let after := p_vx (playerRef (integrate g)) in
  Qabs rubbed <= MOVE_SPEED /\
  Qabs after <= MOVE_SPEED /\
  (Qabs before < 0.1 -> after = 0).
Proof.
  cbv zeta. rewrite integrate_vx, applyFriction_vx.
  set (p := steer (keysRef g) (playerRef g)).
  destruct (clampSpeed_vx p) as [Hc Hid].
  revert Hc Hid. unfold MOVE_SPEED, FRICTION. intros Hc Hid.
  assert (Hr : Qabs (p_vx (clampSpeed p) * 0.84) <= 4.6)
    by (apply Qabs_Qle_condition; lra).
  split; [exact Hr|]. split.
  - cbv zeta. qcase; [ apply Qabs_Qle_condition; lra | exact Hr ].
  - intros Hs. apply Qabs_Qlt_condition in Hs.
    rewrite Hid by lra.
    cbv zeta. qcase; [reflexivity|].
    exfalso. apply n. apply Qabs_Qlt_condition. lra.
Qed.

Lemma horizontal_speed_bounded_witness :
  Qabs (p_vx (steer (keysRef sampleStart) (playerRef sampleStart))) < 0.1
  /\ p_vx (playerRef (integrate sampleStart)) = 0.
Proof.
  assert (H : Qabs (p_vx (steer (keysRef sampleStart) (playerRef sampleStart)))
              < 0.1) by (vm_compute; reflexivity).
  split; [exact H|].
  exact (proj2 (proj2 (horizontal_speed_bounded sampleStart)) H).
Defined.

(** ** Patrolling enemies *)

Lemma patrol_patrolled (e : EnemyState) :
  patrolSpan e -> patrolled e (patrol e).
Proof.
  unfold patrolSpan. intros Hs.
  unfold patrol, Qgtb. fold (advanced e).
  cbn [en_x set_en_x en_minX en_maxX].
  destruct (Qltb_spec (advanced e) (en_minX e)) as [Hlo|Hlo];
    cbn [en_x set_en_x set_en_dir en_minX en_maxX];
    qcase; cbn [en_x set_en_x set_en_dir en_minX en_maxX en_dir].
  all: split; unfold withinPatrol;
    cbn [en_x set_en_x set_en_dir en_minX en_maxX en_dir];
    try (intros; repeat split; first [ reflexivity | lra ]).
  all: intros [Hw1 Hw2] Hsp [Hd|Hd] Hout; rewrite Hd; try reflexivity;
    exfalso; unfold advanced in *; rewrite Hd in *;
    change (inject_Z 1) with 1 in *;
    change (inject_Z (-1)) with (-1) in *; lra.
Qed.

(** The enemy loop moves a first part of the list, enemy by enemy, and
    leaves the rest alone: it goes to the end when no moved enemy touches
    the player, and stops on the first one that does. *)
Lemma enemyLoop_prefix (p : Player) (enemies : list EnemyState) :
  exists moved rest,
    enemies = moved ++ rest
    /\ (enemyLoop p enemies).1 = List.map patrol moved ++ rest
    /\ if (enemyLoop p enemies).2
       then exists clear e,
              moved = clear ++ [e]
              /\ Forall (fun e => hitsEnemy p (patrol e) = false) clear
              /\ hitsEnemy p (patrol e) = true
       else rest = []
            /\ Forall (fun e => hitsEnemy p (patrol e) = false) moved.
Proof.
  induction enemies as [|e rest IH]; cbn [enemyLoop].
  - exists [], []. cbn. repeat split; constructor.
  - destruct (hitsEnemy p (patrol e)) eqn:Hhit; cbn [fst snd].
    + exists [e], rest. repeat split. exists [], e. repeat split; auto.
    + destruct IH as (moved & rest' & Heq & Hafter & Hstop).
      destruct (enemyLoop p rest) as [rest1 hit]. cbn [fst snd] in *.
      exists (e :: moved), rest'. subst rest rest1. repeat split.
      destruct hit.
      * destruct Hstop as (clear & e' & -> & Hclear & He').
        exists (e :: clear), e'. repeat split; auto.
      * destruct Hstop as [-> Hclear]. split; auto.
Qed.

(** C10, as the code has it.  The enemy update of a frame moves the
    enemies in the order of the list and stops on the first one that,
    once moved, touches the player; the enemies after that one are not
    moved in that frame.  Every enemy the update moves ends inside its
    patrol interval [[minX, maxX]], whatever its speed and wherever it
    was: a move past a bound ends on that bound with the direction set
    inwards (a reversal, for an enemy that was inside and advances along
    its heading), and a move within the interval is kept.  So after an
    update that ran to its end every enemy is inside, and after any
    update every enemy is inside when every enemy was inside before
    it. *)
Theorem enemies_stay_on_patrol (p : Player) (enemies : list EnemyState) :
  Forall patrolSpan enemies ->
  let after := (enemyLoop p enemies).1 in
  let stopped := (enemyLoop p enemies).2 in
  exists moved rest,
    enemies = moved ++ rest
    /\ after = List.map patrol moved ++ rest
    /\ Forall (fun e => patrolled e (patrol e)) moved
    /\ (if stopped
        then exists clear e,
               moved = clear ++ [e]
               /\ Forall (fun e => hitsEnemy p (patrol e) = false) clear
               /\ hitsEnemy p (patrol e) = true
        else rest = []
             /\ Forall (fun e => hitsEnemy p (patrol e) = false) moved)
    /\ (stopped = false -> Forall withinPatrol after)
    /\ (Forall withinPatrol enemies -> Forall withinPatrol after).
Proof.
  intros Hs after stopped.
  destruct (enemyLoop_prefix p enemies)
    as (moved & rest & Heq & Hafter & Hstop).
  fold after in Hafter. fold stopped in Hstop.
  clearbody after stopped. subst enemies after.
  apply Forall_app in Hs. destruct Hs as [Hmoved Hrest].
  assert (Hpat : Forall (fun e => patrolled e (patrol e)) moved).
  { eapply Forall_impl; [exact Hmoved|]. intros e He.
    now apply patrol_patrolled. }
  assert (Hin : Forall withinPatrol (List.map patrol moved)).
  { apply Forall_map. eapply Forall_impl; [exact Hpat|].
    intros e He. exact (pat_within _ _ He). }
  exists moved, rest. repeat split; auto.
  - intros ->. destruct Hstop as [-> _]. rewrite app_nil_r. exact Hin.
  - intros Hall. apply Forall_app in Hall. apply Forall_app.
    split; [exact Hin|apply Hall].
Qed.

Lemma enemies_stay_on_patrol_witness :
  Forall patrolSpan initialEnemies
  /\ Forall withinPatrol initialEnemies
  /\ (enemyLoop sampleByRuffian initialEnemies).2 = true
  /\ List.map en_x initialEnemies = [1200; 1850; 3100]
  /\ List.map en_x (enemyLoop sampleByRuffian initialEnemies).1
     = [1201.1; 1850; 3100]
  /\ Forall withinPatrol (enemyLoop sampleByRuffian initialEnemies).1.
Proof.
  assert (Hs : Forall patrolSpan initialEnemies)
    by (repeat constructor; unfold patrolSpan; cbn; lra).
  assert (Hin : Forall withinPatrol initialEnemies)
    by (repeat constructor; unfold withinPatrol; cbn; lra).
  split; [exact Hs|]. split; [exact Hin|].
  split; [vm_compute; reflexivity|].
  split; [vm_compute; reflexivity|].
  split; [vm_compute; reflexivity|].
  destruct (enemies_stay_on_patrol sampleByRuffian initialEnemies Hs)
    as (moved & rest & _ & _ & _ & _ & _ & H).
  exact (H Hin).
Defined.

(** The wording of C10 fails for an enemy the update does not reach: the
    player touches the first ruffian once it has moved, the update stops
    there, and the second ruffian, which stood 100 to the left of its
    interval, still stands there after the update. *)
Lemma patrol_update_counterexample :
  Forall patrolSpan sampleStrayed
  /\ ~ updateKeepsPatrols sampleByRuffian sampleStrayed.
Proof.
  split.
  - repeat constructor; unfold patrolSpan; cbn; lra.
  - unfold updateKeepsPatrols. intros H.
    apply Forall_cons in H. destruct H as [_ H].
    apply Forall_cons in H. destruct H as [[H _] _].
    revert H. vm_compute. intros H. apply H. reflexivity.
Qed.

(** ** Reset *)

(** C9.  The full reset is idempotent: for either value of its argument,
    a second call in succession leaves the whole component (player,
    camera, last checkpoint, collected and seen-lore sets, score, warning
    message, modal state, game state and enemies) as the first call left
    it. *)
Theorem resetGame_idempotent (toMenu : bool) (g : Game) :
  resetGame toMenu (resetGame toMenu g) = resetGame toMenu g.
Proof.
  destruct g as [? ? ? ? ? ? ? ? ? ? ? ? ? ? ? ? ? ? ? ? ? ? ? p ?].
  destruct p, toMenu; vm_compute; reflexivity.
Qed.

(** ** Orb quiz *)

(** C8.  A wrong answer to an orb quiz drops the pending orb and
    question, closes the modal and shows a warning, which its timer then
    clears; the collected set, the score, the last checkpoint and the
    seen lore are as they were. *)
Theorem quiz_incorrect_keeps_progress (g : Game) :
  let g' := handleQuizIncorrect g in
  step QuizIncorrect g
    = Some (if offered QuizIncorrect g then g' else g)
  /\ activeOrb g' = None
  /\ activeQuestion g' = None
  /\ modalState g' = NONE
  /\ warningMessage g'
     = Some "Fidelity falters. The tool remains in shadow."
  /\ collectedIds g' = collectedIds g
  /\ collectedRef g' = collectedRef g
  /\ score g' = score g
  /\ scoreRef g' = scoreRef g
  /\ lastCheckpointRef g' = lastCheckpointRef g
  /\ seenLoreRef g' = seenLoreRef g
  /\ gameState g' = gameState g
  /\ playerRef g' = playerRef g
  /\ step WarningTimeout g' = Some (set_warningMessage None g').
Proof.
  cbv zeta. unfold step.
  destruct (offered QuizIncorrect g); repeat split; reflexivity.
Qed.

(** ** The body of a frame *)

Lemma integrate_ledger g : ledger (integrate g) = ledger g.
Proof. reflexivity. Qed.

Lemma executeJump_ledger g : ledger (executeJump g) = ledger g.
Proof. unfold executeJump. destruct (_ || _); reflexivity. Qed.

Lemma bufferedJump_ledger g : ledger (bufferedJump g) = ledger g.
Proof.
  unfold bufferedJump.
  destruct (p_isGrounded (playerRef g) && (0 <? jumpBufferRef g)%Z).
  - destruct (0 <? jumpBufferRef (executeJump g))%Z;
      [change (ledger (executeJump g) = ledger g)|]; apply executeJump_ledger.
  - destruct (0 <? jumpBufferRef g)%Z; reflexivity.
Qed.

Lemma settle_ledger g : ledger (settle g) = ledger g.
Proof. unfold settle. rewrite bufferedJump_ledger. reflexivity. Qed.

Lemma fallPhase_Normal cl c g g' :
  fallPhase cl c g = Normal g' -> g' = g /\ fellOut (playerRef g) = false.
Proof.
  unfold fallPhase. destruct (fellOut (playerRef g)).
  - unfold handleDeath. destruct (cl_gameState cl); try discriminate.
    destruct (pickGraveQuestion c); discriminate.
  - intros [= <-]. auto.
Qed.

Lemma orbLoop_Normal orbs g g' :
  orbLoop orbs g = Normal g' ->
  g' = g /\
  Forall (fun o => orb_active o = false \/ touchesOrb (playerRef g) o = false)
    orbs.
Proof.
  induction orbs as [|o rest IH]; cbn [orbLoop].
  - intros [= <-]. auto.
  - destruct (orb_active o) eqn:Ha; cbn [negb].
    + destruct (touchesOrb (playerRef g) o) eqn:Ht; [discriminate|].
      intros H. destruct (IH H). auto.
    + intros H. destruct (IH H). auto.
Qed.

Lemma enemyPhase_Normal cl c g g' :
  enemyPhase cl c g = Normal g' ->
  g' = set_enemiesRef (enemyLoop (playerRef g) (enemiesRef g)).1 g
  /\ (enemyLoop (playerRef g) (enemiesRef g)).2 = false.
Proof.
  unfold enemyPhase.
  destruct (enemyLoop (playerRef g) (enemiesRef g)) as [es hit].
  destruct hit; cbn [fst snd].
  - unfold handleDeath.
    destruct (cl_gameState cl); try discriminate.
    destruct (pickGraveQuestion c); discriminate.
  - intros [= <-]. auto.
Qed.

Lemma untilOrbs_Normal cl c g g1 :
  untilOrbs cl c g = Normal g1 ->
  g1 = settle (integrate g) /\ fellOut (playerRef (integrate g)) = false.
Proof.
  unfold untilOrbs, stmt. cbn [andThen].
  destruct (fallPhase cl c (integrate g)) as [g2| |] eqn:Hf; cbn [andThen];
    try discriminate.
  apply fallPhase_Normal in Hf as [-> Hf]. intros [= <-]. auto.
Qed.

Lemma untilGoal_Normal cl c g g1 :
  untilGoal cl c g = Normal g1 ->
  let g2 := settle (integrate g) in
  g1 = set_enemiesRef (enemyLoop (playerRef g2) (enemiesRef g2)).1 g2
  /\ untilOrbs cl c g = Normal g2
  /\ orbLoop (frameOrbs (collectedRef g)) g2 = Normal g2.
Proof.
  unfold untilGoal. cbv zeta.
  destruct (untilOrbs cl c g) as [g2| |] eqn:Hu; cbn [andThen]; try discriminate.
  apply untilOrbs_Normal in Hu as [-> Hfell].
  destruct (orbLoop _ _) as [g3| |] eqn:Ho; cbn [andThen]; try discriminate.
  pose proof Ho as Ho'. apply orbLoop_Normal in Ho' as [-> _].
  intros He. apply enemyPhase_Normal in He as [-> _]. auto.
Qed.

Lemma set_enemiesRef_ledger es g : ledger (set_enemiesRef es g) = ledger g.
Proof. destruct g; reflexivity. Qed.

Lemma untilGoal_ledger cl c g g1 :
  untilGoal cl c g = Normal g1 -> ledger g1 = ledger g.
Proof.
  intros H. apply untilGoal_Normal in H as [-> _].
  rewrite set_enemiesRef_ledger, settle_ledger. apply integrate_ledger.
Qed.

(** ** Death *)

Lemma pickGraveQuestion_in_pool (c : Chance) :
  0 <= ch_random c < 1 ->
  exists q, pickGraveQuestion c = Some q /\ q ∈ QUESTIONS.
Proof.
  intros [H0 H1]. unfold pickGraveQuestion.
  change (inject_Z (Z.of_nat (length QUESTIONS))) with 6.
  set (i := Qfloor (ch_random c * 6)).
  assert (Hlo : (0 <= i)%Z).
  { change 0%Z with (Qfloor 0). apply Qfloor_resp_le. lra. }
  assert (Hhi : (i < 6)%Z).
  { rewrite Zlt_Qlt. apply Qle_lt_trans with (ch_random c * 6).
    - apply Qfloor_le.
    - change (inject_Z 6) with 6. lra. }
  destruct (Z.ltb_spec i 0) as [|_]; [lia|].
  assert (Hn : (Z.to_nat i < 6)%nat) by lia.
  destruct (Z.to_nat i) as [|[|[|[|[|[|n]]]]]]; try lia;
    eexists; (split; [reflexivity|]); set_solver.
Qed.

Lemma QUESTIONS_ids :
  Forall (fun q => (101 <= q_id q)%Z /\ findReview (q_id q) = None
                   /\ q ∉ REVIEW_QUESTIONS) QUESTIONS.
Proof.
  repeat constructor; cbn; try lia.
  all: intros H; repeat (apply elem_of_cons in H; destruct H as [H|H]; [discriminate H|]); inversion H.
Qed.

(** C7.  A frame of a run in progress that finds [player.y] above
    [groundRefY + 520] raises no exception: the game state becomes GRAVE,
    the velocity of the player is zero and no key is held any more, and
    the penalty question comes from the death pool [QUESTIONS], all of
    whose ids are at least 101 and none of which is a review question of
    an orb.  The frame is a run of any frame callback, whichever render
    subscribed it. *)
Theorem fatal_fall_opens_grave (cl : Closure) (c : Chance) (g : Game) :
  gameState g = PLAYING -> modalState g = NONE -> ticking cl ->
  0 <= ch_random c < 1 ->
  groundRefY + 520 < p_y (playerRef (integrate g)) ->
  exists g' q,
    step (Frame cl c) g = Some g'
    /\ gameState g' = GRAVE
    /\ p_vx (playerRef g') = 0 /\ p_vy (playerRef g') = 0
    /\ keysRef g' = ∅
    /\ graveQuestion g' = Some q /\ graveResult g' = None
    /\ q ∈ QUESTIONS /\ (101 <= q_id q)%Z
    /\ (q ∉ REVIEW_QUESTIONS) /\ findReview (q_id q) = None.
Proof.
  intros _ _ (Hs & Hm & Hd) Hr Hy.
  destruct (pickGraveQuestion_in_pool c Hr) as (q & Hq & Hin).
  pose proof QUESTIONS_ids as Hids.
  rewrite Forall_forall in Hids. destruct (Hids q Hin) as (Hid & Hfind & Hrev).
  unfold step. cbn [offered]. rewrite Hs, Hm.
  cbn [subscribes handler]. unfold frame.
  unfold loop. unfold sized in Hd. rewrite Hd.
  unfold untilGoal, untilOrbs, stmt. cbn [andThen].
  unfold fallPhase, fellOut, Qgtb.
  apply Qltb_lt in Hy. rewrite Hy.
  unfold handleDeath.
  rewrite Hs, Hq. cbn [andThen completed].
  eexists _, q. split; [reflexivity|].
  repeat split; assumption || reflexivity.
Qed.

Lemma fatal_fall_opens_grave_witness :
  exists g' q,
    step (Frame sampleClosure sampleChance) sampleFallen = Some g'
    /\ gameState g' = GRAVE /\ graveQuestion g' = Some q
    /\ (101 <= q_id q)%Z.
Proof.
  destruct (fatal_fall_opens_grave sampleClosure sampleChance sampleFallen)
    as (g' & q & Hstep & Hstate & _ & _ & _ & Hq & _ & _ & Hid & _).
  - reflexivity.
  - reflexivity.
  - repeat split; vm_compute; reflexivity.
  - cbn. lra.
  - vm_compute. reflexivity.
  - exists g', q. auto.
Defined.

(** ** The goal *)

Lemma hasTools_spec (collected : gset Z) :
  hasTools collected = true
  <-> Forall (fun id => id ∈ collected) REQUIRED_TOOL_IDS.
Proof.
  unfold hasTools. rewrite forallb_forall, Forall_forall.
  split; intros H id Hin.
  - apply list_elem_of_In in Hin. specialize (H id Hin).
    now apply bool_decide_eq_true in H.
  - apply bool_decide_eq_true. apply H. now apply list_elem_of_In.
Qed.

Lemma untilGoal_keeps cl c g g1 :
  untilGoal cl c g = Normal g1 ->
  userId g1 = userId g /\ userName g1 = userName g
  /\ gameState g1 = gameState g
  /\ score g1 = score g /\ scoreRef g1 = scoreRef g
  /\ collectedRef g1 = collectedRef g /\ collectedIds g1 = collectedIds g
  /\ warningMessage g1 = warningMessage g /\ submitted g1 = submitted g.
Proof.
  intros H. apply untilGoal_ledger in H. unfold ledger in H.
  injection H. intros. repeat split; assumption.
Qed.

(** X25: the test of the goal, for any callback.  A run of a frame
    callback that reaches the test with the player near the goal leaves
    the score as it is.  With every required tool collected it ends in
    VICTORY and sends one score, the running score plus 500, under the
    name and the user id the callback captured.  With a tool missing it
    leaves the game state and the leaderboard as they are, and sets the
    warning of the sealed East exactly when the [warningMessage] the
    callback captured is empty; the warning that is showing when the
    callback runs is not looked at. *)
Theorem callback_goal_test (cl : Closure) (c : Chance) (g g1 : Game) :
  ticking cl -> mirrored g ->
  untilGoal cl c g = Normal g1 ->
  nearGoal (playerRef g1) = true ->
  exists g',
    step (Frame cl c) g = Some g'
    /\ score g' = score g
    /\ (Forall (fun id => id ∈ collectedIds g) REQUIRED_TOOL_IDS ->
        gameState g' = VICTORY
        /\ submitted g'
           = (submitted g
              ++ [mkSubmission (displayName (cl_userName cl))
                    (score g + 500) true (cl_userId cl)])%list)
    /\ (Exists (fun id => id ∉ collectedIds g) REQUIRED_TOOL_IDS ->
        gameState g' = gameState g
        /\ submitted g' = submitted g
        /\ warningMessage g'
           = if truthyString (cl_warningMessage cl) then warningMessage g
             else
               Some "The East is sealed. Recover the working tools first.").
Proof.
  intros (Hs & Hm & Hd) [Hscore Hcoll] Hu Hnear.
  destruct (untilGoal_keeps cl c g g1 Hu)
    as (Kid & Kname & Kstate & Kscore & Kref & Kcref & Kcids & Kwarn & Ksub).
  unfold step. cbn [offered]. rewrite Hs, Hm.
  cbn [subscribes handler]. unfold frame.
  unfold loop. unfold sized in Hd. rewrite Hd, Hu. cbn [andThen].
  unfold goalPhase. rewrite Hnear, Kcref, Kref, Ksub.
  rewrite Hcoll, Hscore.
  destruct (hasTools (collectedIds g)) eqn:Ht.
  - cbn [andThen completed]. eexists. split; [reflexivity|].
    split; [destruct g1; exact Kscore|]. split.
    + intros _. split; destruct g1; reflexivity.
    + intros Hex. exfalso. apply hasTools_spec in Ht.
      rewrite Forall_forall in Ht. apply Exists_exists in Hex.
      destruct Hex as (id & Hin & Hnot). apply Hnot. now apply Ht.
  - assert (Hmiss : Forall (fun id => id ∈ collectedIds g) REQUIRED_TOOL_IDS
                    -> False).
    { intros Hall. apply not_true_iff_false in Ht. apply Ht.
      now apply hasTools_spec. }
    destruct (truthyString (cl_warningMessage cl));
      cbn [negb andThen stmt completed];
      (eexists; split; [reflexivity|]);
      (split; [destruct g1; exact Kscore|]);
      (split; [intros Hall; destruct (Hmiss Hall)|]);
      intros _; destruct g1; cbn in Kstate, Ksub, Kwarn |- *;
      repeat split; congruence.
Qed.

Lemma callback_goal_test_witness :
  exists g',
    step (Frame sampleClosure sampleChance) sampleAtGoal = Some g'
    /\ gameState g' = VICTORY
    /\ submitted g'
       = [mkSubmission (units "Hiram") (450 + 500) true None].
Proof.
  edestruct (callback_goal_test sampleClosure sampleChance sampleAtGoal)
    as (g' & Hstep & _ & Hwin & _).
  - repeat split; vm_compute; reflexivity.
  - split; reflexivity.
  - vm_compute. reflexivity.
  - vm_compute. reflexivity.
  - exists g'. split; [exact Hstep|].
    apply Hwin. repeat constructor; vm_compute; reflexivity.
Defined.

(** C1.  The goal test of a frame callback reads the [warningMessage]
    of the render that created the callback, and a callback that has run
    once is not cancelled when the page subscribes the next one.  After
    the play of [sampleCorrection] two callbacks are requested: the one
    subscribed when the question was answered, which holds the warning of
    the wrong answer, and the one subscribed when that warning went out.
    With the player then by the chair, in state PLAYING with no modal, no
    warning showing and the Pencil and the Compasses missing, the run of
    the first callback finds the player near the goal, leaves the state
    PLAYING and sets no warning, although none is showing; the run of the
    second one, next in the queue, sets it. *)
Theorem stale_callback_skips_goal_warning :
  exists p1 held fresh,
    page_run sampleCorrection samplePlaying = Some p1
    /\ pg_requests p1 = [(10%Z, held); (11%Z, fresh)]
    /\ cl_warningMessage held
       = Some "Fidelity falters. The tool remains in shadow."
    /\ cl_warningMessage fresh = None
    /\ collectedIds (pg_game p1) = {[ 1%Z ]}
    /\ let atChair :=
         set_pg_game (set_playerRef sampleByChair (pg_game p1)) p1 in
       gameState (pg_game atChair) = PLAYING
       /\ modalState (pg_game atChair) = NONE
       /\ warningMessage (pg_game atChair) = None
       /\ hasTools (collectedRef (pg_game atChair)) = false
       /\ exists p2 p3,
            page_step (Callback 10 sampleChance) atChair = Some p2
            /\ nearGoal (playerRef (pg_game p2)) = true
            /\ gameState (pg_game p2) = PLAYING
            /\ modalState (pg_game p2) = NONE
            /\ warningMessage (pg_game p2) = None
            /\ page_step (Callback 11 sampleChance) p2 = Some p3
            /\ warningMessage (pg_game p3)
               = Some "The East is sealed. Recover the working tools first.".
Proof.
  destruct (page_run sampleCorrection samplePlaying) as [p1|] eqn:Hrun;
    [|vm_compute in Hrun; discriminate].
  assert (Hreq : exists held fresh,
             pg_requests p1 = [(10%Z, held); (11%Z, fresh)]
             /\ cl_warningMessage held
                = Some "Fidelity falters. The tool remains in shadow."
             /\ cl_warningMessage fresh = None).
  { vm_compute in Hrun. apply (inj Some) in Hrun. subst p1.
    eexists _, _. repeat split. }
  destruct Hreq as (held & fresh & Hreq & Hheld & Hfresh).
  exists p1, held, fresh. split; [reflexivity|].
  split; [exact Hreq|]. split; [exact Hheld|]. split; [exact Hfresh|].
  clear held fresh Hreq Hheld Hfresh.
  vm_compute in Hrun. apply (inj Some) in Hrun. subst p1.
  split; [vm_compute; reflexivity|].
  cbv zeta. repeat (split; [vm_compute; reflexivity|]).
  eexists _, _. split; [vm_compute; reflexivity|].
  repeat (split; [vm_compute; reflexivity|]).
  vm_compute. reflexivity.
Qed.

(** ** Orbs *)

Lemma untilOrbs_ledger cl c g g1 :
  untilOrbs cl c g = Normal g1 -> ledger g1 = ledger g.
Proof.
  intros H. apply untilOrbs_Normal in H as [-> _].
  rewrite settle_ledger. apply integrate_ledger.
Qed.

Lemma untilOrbs_keeps cl c g g1 :
  untilOrbs cl c g = Normal g1 ->
  score g1 = score g /\ scoreRef g1 = scoreRef g
  /\ collectedRef g1 = collectedRef g /\ collectedIds g1 = collectedIds g
  /\ seenLoreRef g1 = seenLoreRef g.
Proof.
  intros H. apply untilOrbs_ledger in H. unfold ledger in H.
  injection H. intros. repeat split; assumption.
Qed.

Lemma touchOrb_unseen (orb : Orb) (g : Game) :
  orb_spriteKey orb ∉ seenLoreRef g ->
  touchOrb orb g
  = set_modalState LORE
      (set_keysRef ∅
         (set_playerRef (set_p_vy 0 (set_p_vx 0 (playerRef g)))
            (set_activeOrb (Some orb) g))).
Proof.
  intros H. unfold touchOrb. destruct g.
  cbn [seenLoreRef set_keysRef set_playerRef set_activeOrb playerRef] in *.
  rewrite bool_decide_eq_false_2 by exact H. reflexivity.
Qed.

Lemma handleLoreContinue_quiz (g : Game) (orb : Orb) (q : Question) :
  activeOrb g = Some orb ->
  truthyId (orb_questionId orb) = true ->
  findReview (default 0%Z (orb_questionId orb)) = Some q ->
  handleLoreContinue g
  = set_modalState QUIZ
      (set_activeQuestion (Some q)
         (set_seenLoreRef (seenLoreRef g ∪ {[ orb_spriteKey orb ]}) g)).
Proof.
  intros Ha Ht Hf. unfold handleLoreContinue. rewrite Ha, Ht, Hf.
  reflexivity.
Qed.

Lemma collectOrb_fields (orb : Orb) (g : Game) :
  let g' := collectOrb orb g in
  collectedIds g' = collectedRef g ∪ {[ orb_id orb ]}
  /\ collectedRef g' = collectedRef g ∪ {[ orb_id orb ]}
  /\ score g' = score g + default 100 (orb_points orb)
  /\ scoreRef g' = score g + default 100 (orb_points orb)
  /\ modalState g' = NONE
  /\ activeOrb g' = None /\ activeQuestion g' = None
  /\ gameState g' = gameState g
  /\ seenLoreRef g' = seenLoreRef g
  /\ lastCheckpointRef g' = lastCheckpointRef g
  /\ playerRef g' = playerRef g.
Proof. destruct g. cbv zeta. repeat split; reflexivity. Qed.

(** C4.  A frame in which the player touches the Skirret (orb 1, 150
    points), not yet collected in the run and with its lore unseen, opens
    the LORE modal on that orb; acknowledging the lore opens the QUIZ
    modal on the review question of id 1; up to there the collected set
    and the score have not moved; the correct answer then adds 1 to the
    collected set and exactly 150 to the score, and closes the modal.
    The frame is a run of any frame callback, whichever render
    subscribed it. *)
Theorem skirret_lore_quiz_collect (cl : Closure) (c : Chance) (g g1 : Game) :
  gameState g = PLAYING -> modalState g = NONE -> ticking cl ->
  mirrored g ->
  untilOrbs cl c g = Normal g1 ->
  1%Z ∉ collectedIds g ->
  "skirret" ∉ seenLoreRef g ->
  touchesOrb (playerRef g1) (skirret (collectedRef g)) = true ->
  exists gL gQ gC q,
    step (Frame cl c) g = Some gL
    /\ modalState gL = LORE
    /\ activeOrb gL = Some (skirret (collectedRef g))
    /\ collectedIds gL = collectedIds g /\ score gL = score g
    /\ step LoreNext gL = Some gQ
    /\ modalState gQ = QUIZ
    /\ activeQuestion gQ = Some q
    /\ q_id q = 1%Z /\ q ∈ REVIEW_QUESTIONS
    /\ collectedIds gQ = collectedIds g /\ score gQ = score g
    /\ step QuizCorrect gQ = Some gC
    /\ modalState gC = NONE
    /\ collectedIds gC = collectedIds g ∪ {[ 1%Z ]}
    /\ collectedRef gC = collectedIds g ∪ {[ 1%Z ]}
    /\ score gC = score g + 150
    /\ scoreRef gC = score g + 150.
Proof.
  intros Hs Hm (Hcs & Hcm & Hd) [Hscore Hcoll] Hu Hnew Hlore Htouch.
  destruct (untilOrbs_keeps cl c g g1 Hu)
    as (Kscore & Kref & Kcref & Kcids & Kseen).
  assert (Kstate : gameState g1 = PLAYING /\ modalState g1 = NONE).
  { apply untilOrbs_ledger in Hu. unfold ledger in Hu. injection Hu.
    intros. split; congruence. }
  destruct Kstate as [Kst Kmo].
  set (orb := skirret (collectedRef g)) in *.
  assert (Hframe : step (Frame cl c) g = Some (touchOrb orb g1)).
  { unfold step. cbn [offered]. rewrite Hcs, Hcm.
    cbn [subscribes handler]. unfold frame.
    unfold loop. unfold sized in Hd. rewrite Hd.
    unfold untilGoal. cbv zeta. rewrite Hu. cbn [andThen].
    unfold frameOrbs, ORB_DATA. cbn [List.map orbLoop].
    fold (skirret (collectedRef g)). fold orb.
    replace (orb_active orb) with true.
    - cbn [negb]. rewrite Htouch. reflexivity.
    - unfold orb, skirret, toOrb. cbn [orb_active od_id].
      rewrite bool_decide_eq_false_2; [reflexivity|]. now rewrite Hcoll. }
  rewrite touchOrb_unseen in Hframe by (rewrite Kseen; exact Hlore).
  set (gL := set_modalState LORE _) in Hframe.
  assert (HL : modalState gL = LORE /\ activeOrb gL = Some orb
               /\ collectedIds gL = collectedIds g1
               /\ collectedRef gL = collectedRef g1
               /\ score gL = score g1)
    by (unfold gL; destruct g1; repeat split; reflexivity).
  destruct HL as (HL1 & HL2 & HL3 & HL4 & HL5).
  pose (q := mkQuestion 1
    "What are the working tools of a Master Mason?"
    [ "The Skirret, the Pencil, and the Compasses.";
      "The Square, the Level, and the Plumb Rule.";
      "The 24 inch gauge and the common gavel." ]
    "The Skirret, the Pencil, and the Compasses."
    None (Some review)).
  assert (HLore : handleLoreContinue gL
                  = set_modalState QUIZ
                      (set_activeQuestion (Some q)
                         (set_seenLoreRef
                            (seenLoreRef gL ∪ {[ orb_spriteKey orb ]}) gL)))
    by (apply (handleLoreContinue_quiz gL orb q HL2); reflexivity).
  set (gQ := set_modalState QUIZ _) in HLore.
  assert (HQ : modalState gQ = QUIZ /\ activeQuestion gQ = Some q
               /\ activeOrb gQ = activeOrb gL
               /\ collectedIds gQ = collectedIds gL
               /\ collectedRef gQ = collectedRef gL
               /\ score gQ = score gL)
    by (unfold gQ; destruct gL; repeat split; reflexivity).
  destruct HQ as (HQ1 & HQ2 & HQ3 & HQ4 & HQ5 & HQ6).
  destruct (collectOrb_fields orb gQ)
    as (HC1 & HC2 & HC3 & HC4 & HC5 & _).
  exists gL, gQ, (collectOrb orb gQ), q.
  split; [exact Hframe|]. split; [exact HL1|]. split; [exact HL2|].
  split; [congruence|]. split; [congruence|].
  split.
  { unfold step. cbn [offered]. unfold inModal. rewrite HL1, HL2.
    cbn [isSome andb handler completed]. now rewrite HLore. }
  split; [exact HQ1|]. split; [exact HQ2|]. split; [reflexivity|].
  split; [unfold q, REVIEW_QUESTIONS; constructor|].
  split; [congruence|]. split; [congruence|].
  split.
  { unfold step. cbn [offered]. unfold inModal. rewrite HQ1, HQ2.
    cbn [isSome andb handler completed]. unfold handleQuizCorrect.
    now rewrite HQ3, HL2. }
  split; [exact HC5|].
  rewrite HC1, HC2, HC3, HC4, HQ5, HQ6, HL4, HL5, Kcref, Kscore, Hcoll.
  repeat split; reflexivity.
Qed.

Lemma skirret_lore_quiz_collect_witness :
  exists gC,
    run [Frame sampleClosure sampleChance; LoreNext; QuizCorrect]
      sampleBySkirret
    = Some gC
    /\ collectedIds gC = ∅ ∪ {[ 1%Z ]} /\ score gC = 0 + 150.
Proof.
  edestruct (skirret_lore_quiz_collect sampleClosure sampleChance
               sampleBySkirret)
    as (gL & gQ & gC & q & HL & _ & _ & _ & _ & HQ & _ & _ & _ & _ & _ & _
        & HC & _ & Hids & _ & Hscore & _).
  - reflexivity.
  - reflexivity.
  - repeat split; vm_compute; reflexivity.
  - split; reflexivity.
  - vm_compute. reflexivity.
  - vm_compute. intros H. inversion H.
  - vm_compute. intros H. inversion H.
  - vm_compute. reflexivity.
  - exists gC. cbn [run]. rewrite HL, HQ, HC. auto.
Defined.

(** ** The grave *)

Lemma resetGame_fields (toMenu : bool) (g : Game) :
  let g' := resetGame toMenu g in
  gameState g' = (if toMenu then START else PLAYING)
  /\ modalState g' = NONE
  /\ collectedIds g' = ∅ /\ collectedRef g' = ∅
  /\ score g' = 0 /\ scoreRef g' = 0
  /\ seenLoreRef g' = ∅
  /\ cameraRef g' = mkPoint 0 0
  /\ lastCheckpointRef g' = mkPoint 60 220
  /\ enemiesRef g' = initialEnemies
  /\ playerRef g' = resetPlayer 60 220 (playerRef g)
  /\ activeOrb g' = None /\ activeQuestion g' = None
  /\ graveQuestion g' = None /\ graveResult g' = None
  /\ warningMessage g' = None.
Proof. destruct g. cbv zeta. repeat split; reflexivity. Qed.

Lemma resetGame_forgets_result (toMenu : bool) (r : option GraveResult)
    (g : Game) :
  resetGame toMenu (set_graveResult r g) = resetGame toMenu g.
Proof. destruct g. reflexivity. Qed.

(** C2, as the code has it.  A wrong answer to the penalty question of
    the grave leaves one control on the panel, the restart; the restart
    is the full reset that beginning a run from the menu performs.  After
    it the game state is PLAYING with no modal, the collected set and the
    seen lore are empty, the score is 0, the camera, the last checkpoint
    and the enemies have their initial values, and the player has its
    initial position, velocity, grounded flag, jump count and coyote
    timer; the direction the player faces, and its size, are those it had
    at the time of death. *)
Theorem grave_incorrect_restarts (g : Game) (q : Question) (a : string) :
  gameState g = GRAVE -> graveQuestion g = Some q -> graveResult g = None ->
  a ∈ graveAnswers g -> a <> q_correctAnswer q ->
  exists g1 g',
    step (GraveAnswer a) g = Some g1
    /\ graveResult g1 = Some incorrect
    /\ offered ClickReturnToWork g1 = false
    /\ (forall a', offered (GraveAnswer a') g1 = false)
    /\ offered ClickBeginAgain g1 = true
    /\ step ClickBeginAgain g1 = Some g'
    /\ g' = resetGame false g
    /\ handler ClickBegin g = Normal (resetGame false g)
    /\ gameState g' = PLAYING /\ modalState g' = NONE
    /\ collectedIds g' = ∅ /\ collectedRef g' = ∅
    /\ score g' = 0 /\ scoreRef g' = 0
    /\ seenLoreRef g' = ∅
    /\ (let g0 := mount (userId g) (userName g) (dimensions g) in
        cameraRef g' = cameraRef g0
        /\ lastCheckpointRef g' = lastCheckpointRef g0
        /\ enemiesRef g' = enemiesRef g0
        /\ p_x (playerRef g') = p_x (playerRef g0)
        /\ p_y (playerRef g') = p_y (playerRef g0)
        /\ p_vx (playerRef g') = p_vx (playerRef g0)
        /\ p_vy (playerRef g') = p_vy (playerRef g0)
        /\ p_isGrounded (playerRef g') = p_isGrounded (playerRef g0)
        /\ p_jumpCount (playerRef g') = p_jumpCount (playerRef g0)
        /\ p_coyoteTimer (playerRef g') = p_coyoteTimer (playerRef g0))
    /\ p_facing (playerRef g') = p_facing (playerRef g)
    /\ p_width (playerRef g') = p_width (playerRef g)
    /\ p_height (playerRef g') = p_height (playerRef g).
Proof.
  intros Hs Hq Hr Hin Hne.
  assert (Hans : handleGraveAnswer a g = set_graveResult (Some incorrect) g).
  { unfold handleGraveAnswer. rewrite Hq.
    apply String.eqb_neq in Hne. now rewrite Hne. }
  set (g1 := set_graveResult (Some incorrect) g) in *.
  assert (H1 : gameState g1 = GRAVE /\ graveQuestion g1 = Some q
               /\ graveResult g1 = Some incorrect)
    by (unfold g1; destruct g; cbn in *; auto).
  destruct H1 as (H1s & H1q & H1r).
  destruct (resetGame_fields false g)
    as (R1 & R2 & R3 & R4 & R5 & R6 & R7 & R8 & R9 & R10 & R11 & _).
  exists g1, (resetGame false g).
  split.
  { unfold step. cbn [offered]. unfold graveShows, inState.
    rewrite Hs, Hq, Hr. cbn [isSome andb].
    rewrite bool_decide_eq_true_2 by exact Hin.
    cbn [handler completed]. now rewrite Hans. }
  split; [exact H1r|].
  split; [cbn [offered]; unfold graveShows; now rewrite H1r, andb_false_r|].
  split.
  { intros a'. cbn [offered]. unfold graveShows.
    now rewrite H1r, andb_false_r. }
  assert (Hoff : offered ClickBeginAgain g1 = true).
  { cbn [offered]. unfold graveShows, inState. now rewrite H1s, H1q, H1r. }
  split; [exact Hoff|].
  split.
  { unfold step. rewrite Hoff. cbn [handler completed].
    unfold g1. now rewrite resetGame_forgets_result. }
  split; [reflexivity|]. split; [reflexivity|].
  rewrite R1, R2, R3, R4, R5, R6, R7, R8, R9, R10, R11.
  repeat split; reflexivity.
Qed.

Lemma grave_incorrect_restarts_witness :
  exists g',
    run [GraveAnswer "The level of equality among mankind.";
         ClickBeginAgain] sampleGrave = Some g'
    /\ score g' = 0 /\ collectedIds g' = ∅
    /\ p_facing (playerRef g') = (-1)%Z.
Proof.
  edestruct grave_incorrect_restarts
    with (g := sampleGrave) (a := "The level of equality among mankind.")
    as (g1 & g' & H1 & _ & _ & _ & _ & H2 & _ & _ & _ & _ & Hc & _ & Hsc
        & _ & _ & _ & Hf & _).
  - vm_compute. reflexivity.
  - vm_compute. reflexivity.
  - vm_compute. reflexivity.
  - replace (graveAnswers sampleGrave)
      with [ "The straight and undeviating line of conduct.";
             "The level of equality among mankind.";
             "The uprightness of life and actions." ]
      by (vm_compute; reflexivity).
    apply list_elem_of_further, list_elem_of_here.
  - vm_compute. discriminate.
  - exists g'. cbn [run]. rewrite H1, H2.
    repeat split; assumption.
Defined.

(** The wording of C2 fails where the player died facing left: the
    restart leaves it facing left, while the initial player faces
    right. *)
Lemma grave_reset_keeps_facing_counterexample :
  ~ graveIncorrectFullyResets sampleGrave
      "The level of equality among mankind.".
Proof.
  intros H.
  destruct (H (resetGame false sampleGrave)) as (_ & _ & Hp & _).
  - vm_compute. reflexivity.
  - apply (f_equal p_facing) in Hp. vm_compute in Hp. discriminate Hp.
Qed.

(** ** Collision pass *)

Lemma overlapsOn_along (ax : Axis) (p p' : Player) (plat : Platform) :
  along ax p = along ax p' ->
  overlapsOn ax p plat = overlapsOn ax p' plat.
Proof.
  destruct ax; cbn [along overlapsOn]; unfold overlapsOnX, overlapsOnY;
    intros [= -> ->]; reflexivity.
Qed.

(** Right after its correction the player is clear of the platform on
    the corrected axis. *)
Lemma pushOut_clears (p : Player) (plat : Platform) :
  overlapsOn (resolvedAxis p plat) (pushOut p plat) plat = false.
Proof.
  unfold pushOut. destruct (resolvedAxis p plat); cbn [overlapsOn];
    unfold overlapsOnX, overlapsOnY, Qgtb;
    match goal with |- context [if Qltb ?a ?b then _ else _] =>
      destruct (Qltb a b) end;
    destruct p; cbn [p_x p_y p_width p_height set_p_x set_p_y set_p_vx
                     set_p_vy set_p_isGrounded set_p_jumpCount].
  all: first [ apply andb_false_intro2; apply Qltb_ge; lra
             | apply andb_false_intro1; apply Qltb_ge; lra ].
Qed.

(** A correction moves the player along its own axis only. *)
Lemma pushOut_along (ax : Axis) (p : Player) (plat : Platform) :
  resolvedAxis p plat <> ax -> along ax (pushOut p plat) = along ax p.
Proof.
  unfold pushOut. intros Hax.
  destruct (resolvedAxis p plat), ax; try congruence;
    match goal with |- context [if Qltb ?a ?b then _ else _] =>
      destruct (Qltb a b) end;
    destruct p; reflexivity.
Qed.

Lemma collide_along (ax : Axis) (platforms : list Platform) (p : Player) :
  Forall (fun r => res_axis r <> ax) (resolutions platforms p) ->
  along ax (fold_left resolve platforms p) = along ax p.
Proof.
  revert p. induction platforms as [|plat rest IH]; intros p H;
    cbn [fold_left resolutions] in *; [reflexivity|].
  destruct (overlapsPlatform p plat) eqn:Ho.
  - assert (Hres : resolve p plat = pushOut p plat)
      by (unfold resolve; now rewrite Ho).
    rewrite Hres. inversion H as [|? ? Hhead Htail]; subst.
    rewrite (IH _ Htail). now apply pushOut_along.
  - assert (Hres : resolve p plat = p)
      by (unfold resolve; now rewrite Ho).
    rewrite Hres. now apply IH.
Qed.

Lemma resolutions_clear (platforms : list Platform) (p : Player)
    (before after : list Resolution) (r : Resolution) :
  resolutions platforms p = before ++ r :: after ->
  overlapsOn (res_axis r) (res_player r) (res_platform r) = false
  /\ (Forall (fun r' => res_axis r' <> res_axis r) after ->
      overlapsOn (res_axis r) (fold_left resolve platforms p)
        (res_platform r) = false).
Proof.
  revert p before. induction platforms as [|plat rest IH]; intros p before H;
    cbn [fold_left resolutions] in *.
  - now destruct before.
  - destruct (overlapsPlatform p plat) eqn:Ho.
    + assert (Hres : resolve p plat = pushOut p plat)
        by (unfold resolve; now rewrite Ho).
      rewrite Hres.
      destruct before as [|b before]; cbn [app] in H.
      * injection H as <- Hrest. cbn [res_axis res_player res_platform].
        split; [apply pushOut_clears|]. intros Hafter.
        rewrite (overlapsOn_along _ _ (pushOut p plat)).
        -- apply pushOut_clears.
        -- apply collide_along. now rewrite Hrest.
      * injection H as _ Hrest. exact (IH _ _ Hrest).
    + assert (Hres : resolve p plat = p)
        by (unfold resolve; now rewrite Ho).
      rewrite Hres. exact (IH _ _ H).
Qed.

(** C3, as the code has it.  Each correction of the collision pass
    leaves the player's rectangle clear, on the corrected axis, of the
    platform it was made against; and the rectangle the pass ends with is
    still clear of that platform on that axis whenever no later
    correction of the same pass was made along the same axis. *)
Theorem resolved_platform_stays_clear (platforms : list Platform)
    (p : Player) (before after : list Resolution) (r : Resolution) :
  resolutions platforms (set_p_isGrounded false p) = before ++ r :: after ->
  overlapsOn (res_axis r) (res_player r) (res_platform r) = false
  /\ (Forall (fun r' => res_axis r' <> res_axis r) after ->
      overlapsOn (res_axis r) (collide platforms p) (res_platform r)
      = false).
Proof.
  intros H. unfold collide.
  exact (resolutions_clear platforms _ before after r H).
Qed.

Lemma resolved_platform_stays_clear_witness :
  exists r before,
    resolutions initialPlatforms (set_p_isGrounded false sampleUnderStair)
    = before ++ [r]
    /\ overlapsOn (res_axis r) (collide initialPlatforms sampleUnderStair)
         (res_platform r) = false.
Proof.
  eexists (mkResolution _ _ _), [mkResolution _ _ _].
  assert (H : resolutions initialPlatforms
                (set_p_isGrounded false sampleUnderStair)
              = [mkResolution _ _ _] ++ [mkResolution _ _ _])
    by (vm_compute; reflexivity).
  split; [exact H|].
  apply (proj2 (resolved_platform_stays_clear _ _ _ _ _ H)).
  constructor.
Defined.

(** The wording of C3 fails on the level's own platforms: the second
    floor lifts the player onto it, the first stair, met next, pushes the
    player down again, and the pass ends with the player overlapping the
    floor on the vertical axis. *)
Lemma collision_pass_counterexample :
  ~ passLeavesClear initialPlatforms sampleUnderStair.
Proof.
  unfold passLeavesClear. intros H.
  assert (Hr : resolutions initialPlatforms
                 (set_p_isGrounded false sampleUnderStair)
               = [mkResolution _ _ _] ++ [mkResolution _ _ _])
    by (vm_compute; reflexivity).
  rewrite Hr in H. inversion H as [|r rest Hhead _]; subst.
  vm_compute in Hhead. discriminate Hhead.
Qed.

(** ** Phases and what they keep *)

Lemma andThen_completed (c : Completion) (k : Game -> Completion)
    (g' : Game) :
  completed (c >>> k) = Some g' ->
  c = Return g' \/ exists g1, c = Normal g1 /\ completed (k g1) = Some g'.
Proof.
  destruct c as [g1|g1|e]; cbn [andThen completed]; intros H.
  - right. eauto.
  - left. congruence.
  - discriminate.
Qed.

Lemma Keeps_andThen {A : Type} (part : Game -> A)
    (phase next : Game -> Completion) :
  Keeps part phase -> Keeps part next ->
  Keeps part (fun g => phase g >>> next).
Proof.
  intros Hp Hn g g' H. apply andThen_completed in H as [H|(g1 & H & Hk)].
  - apply Hp. now rewrite H.
  - rewrite (Hn g1 g' Hk). apply Hp. now rewrite H.
Qed.

Lemma Keeps_stmt {A : Type} (part : Game -> A) (f : Game -> Game) :
  (forall g, part (f g) = part g) -> Keeps part (stmt f).
Proof. intros H g g' [= <-]. apply H. Qed.

Lemma orbLoop_cases (orbs : list Orb) (g : Game) :
  orbLoop orbs g = Normal g
  \/ exists orb, orb ∈ orbs /\ orb_active orb = true
                 /\ touchesOrb (playerRef g) orb = true
                 /\ orbLoop orbs g = Return (touchOrb orb g).
Proof.
  induction orbs as [|o rest IH]; cbn [orbLoop]; [now left|].
  destruct (orb_active o) eqn:Ha; cbn [negb].
  - destruct (touchesOrb (playerRef g) o) eqn:Ht.
    + right. exists o. repeat split; auto. apply list_elem_of_here.
    + destruct IH as [IH|(orb & Hin & IH)]; [now left|right].
      exists orb. split; [now apply list_elem_of_further|exact IH].
  - destruct IH as [IH|(orb & Hin & IH)]; [now left|right].
    exists orb. split; [now apply list_elem_of_further|exact IH].
Qed.

Lemma handleDeath_cases (gs : GameState) (c : Chance) (g : Game) :
  (gs <> PLAYING /\ handleDeath gs c g = Return g)
  \/ (gs = PLAYING /\ pickGraveQuestion c = None
      /\ handleDeath gs c g = Throw "TypeError")
  \/ (exists q, gs = PLAYING /\ pickGraveQuestion c = Some q
      /\ handleDeath gs c g
         = Normal
             (set_gameState GRAVE
                (set_playerRef (set_p_vy 0 (set_p_vx 0 (playerRef g)))
                   (set_keysRef ∅
                      (set_graveResult None
                         (set_graveAnswers (ch_shuffle c (q_answers q))
                            (set_graveQuestion (Some q) g))))))).
Proof.
  unfold handleDeath. destruct gs eqn:Hs;
    try (left; split; [discriminate|reflexivity]).
  right. destruct (pickGraveQuestion c) as [q|]; [right|left; auto].
  exists q. repeat split.
Qed.

(** ** Checkpoints *)

Lemma executeJump_checkpoint g :
  lastCheckpointRef (executeJump g) = lastCheckpointRef g.
Proof. unfold executeJump. destruct (_ || _); destruct g; reflexivity. Qed.

Lemma bufferedJump_checkpoint g :
  lastCheckpointRef (bufferedJump g) = lastCheckpointRef g.
Proof.
  unfold bufferedJump.
  destruct (p_isGrounded (playerRef g) && (0 <? jumpBufferRef g)%Z).
  - destruct (0 <? jumpBufferRef (executeJump g))%Z;
      [rewrite <- (executeJump_checkpoint g); destruct (executeJump g)
      |apply executeJump_checkpoint]; reflexivity.
  - destruct (0 <? jumpBufferRef g)%Z; destruct g; reflexivity.
Qed.

Lemma settle_checkpoint g :
  lastCheckpointRef (settle g)
  = updateCheckpoint (playerRef g) (lastCheckpointRef g).
Proof.
  unfold settle. rewrite bufferedJump_checkpoint. destruct g; reflexivity.
Qed.

Lemma collectOrb_checkpoint orb g :
  lastCheckpointRef (collectOrb orb g) = lastCheckpointRef g.
Proof. destruct g; reflexivity. Qed.

Lemma touchOrb_checkpoint orb g :
  lastCheckpointRef (touchOrb orb g) = lastCheckpointRef g.
Proof.
  unfold touchOrb. destruct (bool_decide _).
  - destruct (if truthyId _ then _ else _);
      [|rewrite collectOrb_checkpoint]; destruct g; reflexivity.
  - destruct g; reflexivity.
Qed.

Lemma handleDeath_checkpoint gs c :
  Keeps lastCheckpointRef (handleDeath gs c).
Proof.
  intros g g' H.
  destruct (handleDeath_cases gs c g)
    as [[_ E]|[(_ & _ & E)|(q & _ & _ & E)]];
    rewrite E in H; cbn [completed] in H; try discriminate;
    injection H as <-; destruct g; reflexivity.
Qed.

Lemma dying_checkpoint gs c :
  Keeps lastCheckpointRef
    (fun g => match handleDeath gs c g with
              | Normal g' => Return g'
              | other => other
              end).
Proof.
  intros g g' H. apply (handleDeath_checkpoint gs c g g').
  destruct (handleDeath gs c g); exact H.
Qed.

Lemma fallPhase_checkpoint cl c : Keeps lastCheckpointRef (fallPhase cl c).
Proof.
  intros g g'. unfold fallPhase. destruct (fellOut (playerRef g)).
  - apply dying_checkpoint.
  - now intros [= <-].
Qed.

Lemma orbLoop_checkpoint orbs : Keeps lastCheckpointRef (orbLoop orbs).
Proof.
  intros g g' H.
  destruct (orbLoop_cases orbs g) as [E|(orb & _ & _ & _ & E)];
    rewrite E in H; injection H as <-;
    [reflexivity|apply touchOrb_checkpoint].
Qed.

Lemma enemyPhase_checkpoint cl c : Keeps lastCheckpointRef (enemyPhase cl c).
Proof.
  intros g g'. unfold enemyPhase.
  destruct (enemyLoop (playerRef g) (enemiesRef g)) as [es hit].
  destruct hit.
  - intros H. apply dying_checkpoint in H. rewrite H. destruct g; reflexivity.
  - intros [= <-]. destruct g; reflexivity.
Qed.

Lemma goalPhase_checkpoint cl : Keeps lastCheckpointRef (goalPhase cl).
Proof.
  intros g g'. unfold goalPhase.
  destruct (nearGoal _); [destruct (hasTools _)|];
    [| destruct (negb _)|]; intros [= <-]; destruct g; reflexivity.
Qed.

Lemma cameraPhase_checkpoint cl g :
  lastCheckpointRef (cameraPhase cl g) = lastCheckpointRef g.
Proof. destruct g; reflexivity. Qed.

(** What a frame does to the last checkpoint. *)
Lemma frame_checkpoint (cl : Closure) (c : Chance) (g g' : Game) :
  step (Frame cl c) g = Some g' ->
  (checkpointReading (Frame cl c) g = None
   /\ lastCheckpointRef g' = lastCheckpointRef g)
  \/ (checkpointReading (Frame cl c) g = Some (p_x (playerRef (integrate g)))
      /\ lastCheckpointRef g'
         = updateCheckpoint (playerRef (integrate g)) (lastCheckpointRef g)).
Proof.
  unfold step, checkpointReading.
  destruct (offered (Frame cl c) g) eqn:Hoff; cbn [andb];
    [|intros [= <-]; now left].
  cbn [handler]. unfold frame. clear Hoff.
  unfold loop.
  destruct (Qzerob _ || Qzerob _); cbn [negb andb];
    [intros [= <-]; now left|].
  unfold untilGoal, untilOrbs. cbv zeta.
  set (rest := fun g2 =>
         orbLoop (frameOrbs (collectedRef g)) g2 >>> enemyPhase cl c
           >>> goalPhase cl >>> stmt (cameraPhase cl)).
  assert (Hrest : Keeps lastCheckpointRef rest).
  { unfold rest.
    apply (Keeps_andThen _ (fun g2 => orbLoop _ g2 >>> enemyPhase cl c
                                        >>> goalPhase cl)).
    - apply (Keeps_andThen _ (fun g2 => orbLoop _ g2 >>> enemyPhase cl c)).
      + apply Keeps_andThen;
          [apply orbLoop_checkpoint|apply enemyPhase_checkpoint].
      + apply goalPhase_checkpoint.
    - apply Keeps_stmt, cameraPhase_checkpoint. }
  unfold stmt at 1 2. cbn [andThen].
  unfold fallPhase at 1.
  destruct (fellOut (playerRef (integrate g))) eqn:Hfell; cbn [negb].
  - intros H. left. split; [reflexivity|].
    assert (Hd : completed
                   (match handleDeath (cl_gameState cl) c (integrate g) with
                    | Normal g0 => Return g0
                    | other => other
                    end) = Some g').
    { destruct (handleDeath (cl_gameState cl) c (integrate g)) as [g0| |];
        cbn [andThen] in H; exact H. }
    apply dying_checkpoint in Hd. rewrite Hd. destruct g; reflexivity.
  - cbn [andThen]. intros H. right. split; [reflexivity|].
    change (completed (rest (settle (integrate g))) = Some g') in H.
    rewrite (Hrest _ _ H), settle_checkpoint. destruct g; reflexivity.
Qed.

Lemma checkpoint_fold (p : Player) (cps : list Checkpoint) (last : Point) :
  let last' := fold_left (checkpointStep p) cps last in
  pt_x last <= pt_x last'
  /\ (last' = last
      \/ exists cp, cp ∈ cps /\ pt_x last' = cp_x cp /\ cp_x cp < p_x p).
Proof.
  cbv zeta. revert last.
  induction cps as [|cp rest IH]; intros last; cbn [fold_left].
  - split; [lra|now left].
  - destruct (IH (checkpointStep p last cp)) as [Hle Hor].
    unfold checkpointStep in *. unfold Qgtb in *.
    destruct (Qltb_spec (cp_x cp) (p_x p)) as [Hp|Hp]; cbn [andb] in *.
    + destruct (Qltb_spec (pt_x last) (cp_x cp)) as [Hl|Hl].
      * cbn [pt_x] in Hle. split; [lra|]. right.
        destruct Hor as [->|(cp' & Hin & Hx & Hlt)].
        -- exists cp. repeat split; [apply list_elem_of_here|exact Hp].
        -- exists cp'. repeat split; auto. now apply list_elem_of_further.
      * split; [exact Hle|].
        destruct Hor as [->|(cp' & Hin & Hx & Hlt)]; [now left|right].
        exists cp'. repeat split; auto. now apply list_elem_of_further.
    + split; [exact Hle|].
      destruct Hor as [->|(cp' & Hin & Hx & Hlt)]; [now left|right].
      exists cp'. repeat split; auto. now apply list_elem_of_further.
Qed.

Lemma updateCheckpoint_spec (p : Player) (last : Point) :
  let last' := updateCheckpoint p last in
  pt_x last <= pt_x last'
  /\ (last' = last
      \/ exists cp, cp ∈ CHECKPOINTS /\ pt_x last' = cp_x cp
                     /\ cp_x cp < p_x p).
Proof. exact (checkpoint_fold p CHECKPOINTS last). Qed.

Lemma furthest_fold (test : Checkpoint -> bool) (cps : list Checkpoint)
    (best : Q) :
  let top := fold_left (fun best cp =>
                          if test cp then Qmax best (cp_x cp) else best)
                       cps best in
  best <= top
  /\ forall cp, cp ∈ cps -> test cp = true -> cp_x cp <= top.
Proof.
  cbv zeta. revert best.
  induction cps as [|cp rest IH]; intros best; cbn [fold_left].
  - split; [lra|]. intros cp H. inversion H.
  - destruct (IH (if test cp then Qmax best (cp_x cp) else best))
      as [Hle Hall].
    split.
    + destruct (test cp); [|exact Hle].
      eapply Qle_trans; [apply (Q.le_max_l best (cp_x cp))|exact Hle].
    + intros cp' Hin Ht. apply elem_of_cons in Hin as [->|Hin].
      * rewrite Ht in Hle |- *.
        eapply Qle_trans; [apply (Q.le_max_r best (cp_x cp))|exact Hle].
      * now apply Hall.
Qed.

Lemma furthest_bounds (xs : list Q) :
  60 <= furthest xs
  /\ forall cp x, cp ∈ CHECKPOINTS -> x ∈ xs -> cp_x cp < x ->
                  cp_x cp <= furthest xs.
Proof.
  unfold furthest.
  destruct (furthest_fold (fun cp => existsb (fun x => Qgtb x (cp_x cp)) xs)
              CHECKPOINTS 60) as [H60 Hall].
  split; [exact H60|]. intros cp x Hcp Hx Hlt. apply Hall; [exact Hcp|].
  apply existsb_exists. exists x. split; [now apply list_elem_of_In|].
  now apply Qltb_lt.
Qed.

Lemma cutJump_free (g : Game) :
  lastCheckpointRef (set_playerRef (cutJump (playerRef g)) g)
  = lastCheckpointRef g.
Proof. destruct g; reflexivity. Qed.

Lemma handleKeyDown_checkpoint (code : string) (g : Game) :
  restarts (KeyDown code) g = false ->
  lastCheckpointRef (handleKeyDown code g) = lastCheckpointRef g.
Proof.
  unfold handleKeyDown. cbn [restarts]. unfold inState.
  destruct (String.eqb code "Escape"); cbn [negb andb].
  - intros _. destruct (gameState g), (modalState g), g; reflexivity.
  - destruct (gameState g) eqn:Hs.
    + destruct (String.eqb code "Enter"); [discriminate|reflexivity].
    + intros _. destruct (modalState g); try reflexivity.
      destruct (isJumpKey code).
      * rewrite <- (executeJump_checkpoint g).
        destruct (executeJump g); reflexivity.
      * destruct g; reflexivity.
    + reflexivity.
    + reflexivity.
    + reflexivity.
Qed.

Lemma handleKeyUp_checkpoint (code : string) (g : Game) :
  lastCheckpointRef (handleKeyUp code g) = lastCheckpointRef g.
Proof.
  unfold handleKeyUp. destruct (isJumpKey code); destruct g; reflexivity.
Qed.

Lemma handleInputStart_checkpoint (key : string) (g : Game) :
  lastCheckpointRef (handleInputStart key g) = lastCheckpointRef g.
Proof.
  unfold handleInputStart.
  destruct (gameState g), (modalState g); try reflexivity.
  destruct (String.eqb key "Space").
  - rewrite <- (executeJump_checkpoint g).
    destruct (executeJump g); reflexivity.
  - destruct g; reflexivity.
Qed.

Lemma handleInputEnd_checkpoint (key : string) (g : Game) :
  lastCheckpointRef (handleInputEnd key g) = lastCheckpointRef g.
Proof.
  unfold handleInputEnd. destruct (String.eqb key "Space");
    destruct g; reflexivity.
Qed.

Lemma handleLoreContinue_checkpoint (g : Game) :
  lastCheckpointRef (handleLoreContinue g) = lastCheckpointRef g.
Proof.
  unfold handleLoreContinue. destruct (activeOrb g) as [orb|];
    [|destruct g; reflexivity].
  destruct (if truthyId _ then _ else _);
    [|rewrite collectOrb_checkpoint]; destruct g; reflexivity.
Qed.

(** Outside of frames and restarts no event touches the last
    checkpoint. *)
Lemma step_checkpoint (ev : Event) (g g' : Game) :
  restarts ev g = false -> step ev g = Some g' ->
  (forall cl c, ev <> Frame cl c) ->
  lastCheckpointRef g' = lastCheckpointRef g.
Proof.
  intros Hr Hstep Hnf. unfold step in Hstep.
  destruct (offered ev g) eqn:Hoff; [|now injection Hstep as <-].
  destruct ev; cbn [handler completed restarts] in *;
    try rewrite Hoff in Hr; try discriminate;
    try (injection Hstep as <-).
  - now destruct (Hnf cl c).
  - now apply handleKeyDown_checkpoint.
  - apply handleKeyUp_checkpoint.
  - apply handleInputStart_checkpoint.
  - apply handleInputEnd_checkpoint.
  - unfold handleResize. destruct (_ && _); destruct g; reflexivity.
  - destruct g; reflexivity.
  - apply handleLoreContinue_checkpoint.
  - unfold handleQuizCorrect. destruct (activeOrb g); [|reflexivity].
    apply collectOrb_checkpoint.
  - destruct g; reflexivity.
  - unfold handleGraveAnswer. destruct (graveQuestion g); [|reflexivity].
    destruct (String.eqb _ _); destruct g; reflexivity.
  - destruct g; reflexivity.
  - destruct g; reflexivity.
Qed.

Lemma checkpointEarned_more (last : Point) (xs more : list Q) :
  checkpointEarned last xs -> checkpointEarned last (more ++ xs).
Proof.
  intros [H|(cp & x & Hcp & Hx & H)]; [now left|right].
  exists cp, x. repeat split; try tauto. apply elem_of_app. now right.
Qed.

Lemma run_checkpoint (evs : list Event) (g g' : Game) :
  oneRun evs g -> run evs g = Some g' ->
  pt_x (lastCheckpointRef g) <= pt_x (lastCheckpointRef g')
  /\ (forall seen, checkpointEarned (lastCheckpointRef g) seen ->
        checkpointEarned (lastCheckpointRef g')
          (rev (readings evs g) ++ seen)).
Proof.
  revert g. induction evs as [|ev rest IH]; intros g Hone Hrun;
    cbn [run oneRun readings] in *.
  - injection Hrun as <-. split; [lra|]. intros seen H. exact H.
  - destruct Hone as [Hr Hone].
    destruct (step ev g) as [g1|] eqn:Hstep; [|discriminate].
    destruct (IH g1 Hone Hrun) as [Hle Hearn].
    assert (Hev : pt_x (lastCheckpointRef g) <= pt_x (lastCheckpointRef g1)
                  /\ forall seen, checkpointEarned (lastCheckpointRef g) seen ->
                       checkpointEarned (lastCheckpointRef g1)
                         (option_list (checkpointReading ev g) ++ seen)).
    { assert (Hsame : lastCheckpointRef g1 = lastCheckpointRef g ->
                pt_x (lastCheckpointRef g) <= pt_x (lastCheckpointRef g1)
                /\ forall seen, checkpointEarned (lastCheckpointRef g) seen ->
                     checkpointEarned (lastCheckpointRef g1)
                       (option_list (checkpointReading ev g) ++ seen)).
      { intros ->. split; [lra|]. intros seen.
        apply checkpointEarned_more. }
      destruct ev as [cl c| | | | | | | | | | | | | | | | |];
        try (apply Hsame; apply (step_checkpoint _ _ _ Hr Hstep);
             discriminate).
      destruct (frame_checkpoint cl c g g1 Hstep) as [[_ E]|[Hread E]];
        [now apply Hsame|].
      rewrite Hread, E. cbn [option_list app].
      destruct (updateCheckpoint_spec (playerRef (integrate g))
                  (lastCheckpointRef g)) as [Hmono Hor].
      split; [exact Hmono|]. intros seen Hseen.
      destruct Hor as [->|(cp & Hcp & Hx & Hlt)].
      - now apply (checkpointEarned_more _ _ [_]).
      - right. exists cp, (p_x (playerRef (integrate g))).
        repeat split; auto. apply list_elem_of_here. }
    destruct Hev as [Hle1 Hearn1]. split; [lra|].
    intros seen Hseen. rewrite rev_app_distr, <- app_assoc.
    apply Hearn. specialize (Hearn1 seen Hseen).
    destruct (checkpointReading ev g); cbn [option_list rev app] in *;
      exact Hearn1.
Qed.

(** C6.  Within one run the [x] of the last checkpoint never decreases
    from one moment to a later one.  In a run that began with the last
    checkpoint at the start of the level, [x = 60], it is at all times at
    least 60 and at most the largest checkpoint [x] that the player's
    [x], as the checkpoint loop read it, has exceeded so far (60 while
    there is none).  The events are any events that do not restart the
    game; the frames among them are the runs of any frame callbacks, in
    whatever state the component is when they run: the callbacks that go
    on running while the game is paused, at the grave or behind a modal
    are counted, and their readings with them. *)
Theorem checkpoint_monotone (evs : list Event) (g g' : Game) :
  oneRun evs g -> run evs g = Some g' ->
  pt_x (lastCheckpointRef g) <= pt_x (lastCheckpointRef g')
  /\ (pt_x (lastCheckpointRef g) = 60 ->
      60 <= pt_x (lastCheckpointRef g')
      /\ pt_x (lastCheckpointRef g') <= furthest (readings evs g)).
Proof.
  intros Hone Hrun.
  destruct (run_checkpoint evs g g' Hone Hrun) as [Hle Hearn].
  split; [exact Hle|]. intros Hstart. split; [rewrite <- Hstart; exact Hle|].
  destruct (furthest_bounds (readings evs g)) as [H60 Hall].
  destruct (Hearn [] (or_introl Hstart)) as [H|(cp & x & Hcp & Hx & H & Hlt)].
  - rewrite H. exact H60.
  - rewrite H. apply (Hall cp x Hcp); [|exact Hlt].
    rewrite app_nil_r in Hx. apply list_elem_of_In.
    apply list_elem_of_In in Hx. now apply in_rev.
Qed.

Lemma checkpoint_monotone_witness :
  exists g',
    run [KeyDown "ArrowRight"; Frame sampleClosure sampleChance;
         KeyDown "Escape"; Frame sampleClosure sampleChance]
      sampleByPorch = Some g'
    /\ gameState g' = PAUSED
    /\ 60 <= pt_x (lastCheckpointRef g')
    /\ pt_x (lastCheckpointRef g') = 140.
Proof.
  edestruct (checkpoint_monotone
               [KeyDown "ArrowRight"; Frame sampleClosure sampleChance;
                KeyDown "Escape"; Frame sampleClosure sampleChance]
               sampleByPorch) as [_ H].
  - vm_compute. repeat split.
  - vm_compute. reflexivity.
  - eexists. split; [vm_compute; reflexivity|].
    split; [vm_compute; reflexivity|]. split.
    + apply H. vm_compute. reflexivity.
    + vm_compute. reflexivity.
Defined.

(** ** The outcomes of a frame *)

Lemma integrate_state (g : Game) :
  gameState (integrate g) = gameState g
  /\ modalState (integrate g) = modalState g.
Proof. destruct g; split; reflexivity. Qed.

Lemma ledger_fields (a b : Game) :
  ledger a = ledger b ->
  userId a = userId b /\ userName a = userName b
  /\ dimensions a = dimensions b
  /\ gameState a = gameState b /\ modalState a = modalState b
  /\ activeOrb a = activeOrb b /\ activeQuestion a = activeQuestion b
  /\ graveQuestion a = graveQuestion b /\ graveAnswers a = graveAnswers b
  /\ graveResult a = graveResult b
  /\ score a = score b /\ scoreRef a = scoreRef b
  /\ collectedIds a = collectedIds b /\ collectedRef a = collectedRef b
  /\ seenLoreRef a = seenLoreRef b
  /\ warningMessage a = warningMessage b
  /\ submitted a = submitted b
  /\ platformsRef a = platformsRef b /\ boundsRef a = boundsRef b
  /\ cameraRef a = cameraRef b.
Proof.
  unfold ledger. intros H. injection H. intros. repeat split; assumption.
Qed.

Lemma atOrbs_ledger (g : Game) : ledger (atOrbs g) = ledger g.
Proof. unfold atOrbs. rewrite settle_ledger. apply integrate_ledger. Qed.

Lemma atGoal_ledger (g : Game) : ledger (atGoal g) = ledger g.
Proof.
  unfold atGoal. cbv zeta. rewrite set_enemiesRef_ledger.
  apply atOrbs_ledger.
Qed.

Lemma atGoal_state (g : Game) :
  gameState (atGoal g) = gameState g.
Proof. apply (ledger_fields _ _ (atGoal_ledger g)). Qed.

Lemma handleDeath_playing (c : Chance) (g : Game) :
  handleDeath PLAYING c g
  = match pickGraveQuestion c with
    | Some q => Normal (graveOpened c q g)
    | None => Throw "TypeError"
    end.
Proof.
  unfold handleDeath. destruct (pickGraveQuestion c); reflexivity.
Qed.

Lemma goalPhase_cases (cl : Closure) (g : Game) :
  goalPhase cl g
  = if nearGoal (playerRef g) && hasTools (collectedRef g)
    then Return (victorious cl g) else Normal (warned cl g).
Proof.
  unfold goalPhase, warned, victorious.
  destruct (nearGoal (playerRef g)), (hasTools (collectedRef g)),
    (negb (truthyString (cl_warningMessage cl))); reflexivity.
Qed.




Lemma andThen_Normal (g : Game) (k : Game -> Completion) :
  Normal g >>> k = k g.
Proof. reflexivity. Qed.

Lemma andThen_Return (g : Game) (k : Game -> Completion) :
  Return g >>> k = Return g.
Proof. reflexivity. Qed.

Lemma andThen_Throw (e : string) (k : Game -> Completion) :
  Throw e >>> k = Throw e.
Proof. reflexivity. Qed.

(** [untilGoal], one phase after the other. *)
Lemma untilGoal_stages (cl : Closure) (c : Chance) (g : Game) :
  untilGoal cl c g
  = match fallPhase cl c (integrate g) with
    | Normal g1 =>
        orbLoop (frameOrbs (collectedRef g)) (settle g1) >>> enemyPhase cl c
    | other => other
    end.
Proof.
  unfold untilGoal, untilOrbs, stmt. cbv zeta. rewrite andThen_Normal.
  destruct (fallPhase cl c (integrate g)); reflexivity.
Qed.

Lemma fallPhase_cases (cl : Closure) (c : Chance) (g : Game) :
  cl_gameState cl = PLAYING ->
  fallPhase cl c g
  = if fellOut (playerRef g)
    then match pickGraveQuestion c with
         | Some q => Return (graveOpened c q g)
         | None => Throw "TypeError"
         end
    else Normal g.
Proof.
  intros Hs. unfold fallPhase. destruct (fellOut (playerRef g)); [|reflexivity].
  rewrite Hs, (handleDeath_playing c g).
  destruct (pickGraveQuestion c); reflexivity.
Qed.

Lemma enemyPhase_cases (cl : Closure) (c : Chance) (g : Game) :
  cl_gameState cl = PLAYING ->
  let moved := set_enemiesRef (enemyLoop (playerRef g) (enemiesRef g)).1 g in
  enemyPhase cl c g
  = if (enemyLoop (playerRef g) (enemiesRef g)).2
    then match pickGraveQuestion c with
         | Some q => Return (graveOpened c q moved)
         | None => Throw "TypeError"
         end
    else Normal moved.
Proof.
  intros Hs moved. unfold enemyPhase. subst moved.
  destruct (enemyLoop (playerRef g) (enemiesRef g)) as [es hit].
  cbn [fst snd]. destruct hit; [|reflexivity].
  rewrite Hs, (handleDeath_playing c (set_enemiesRef es g)).
  destruct (pickGraveQuestion c); reflexivity.
Qed.

Lemma untilGoal_cases (cl : Closure) (c : Chance) (g : Game) :
  cl_gameState cl = PLAYING ->
  untilGoal cl c g
  = if fellOut (playerRef (integrate g))
    then match pickGraveQuestion c with
         | Some q => Return (graveOpened c q (integrate g))
         | None => Throw "TypeError"
         end
    else orbLoop (frameOrbs (collectedRef g)) (atOrbs g) >>> enemyPhase cl c.
Proof.
  intros Hs. rewrite untilGoal_stages.
  rewrite fallPhase_cases by exact Hs.
  unfold atOrbs.
  destruct (fellOut (playerRef (integrate g)));
    [destruct (pickGraveQuestion c)|]; reflexivity.
Qed.

(** A frame ends in one of the six ways of [FrameOutcome], unless its
    death handler throws. *)
Lemma frame_outcome (cl : Closure) (c : Chance) (g g' : Game) :
  step (Frame cl c) g = Some g' -> FrameOutcome cl c g g'.
Proof.
  unfold step. cbn [offered handler]. unfold frame.
  destruct (cl_gameState cl) eqn:Hs; cbn [subscribes];
    try (intros [= <-]; apply frame_idle; intros (H & _); congruence).
  destruct (cl_modalState cl) eqn:Hm; cbn [subscribes];
    try (intros [= <-]; apply frame_idle; intros (_ & H & _); congruence).
  unfold loop.
  destruct (Qzerob _ || Qzerob _) eqn:Hd.
  { intros [= <-]. apply frame_idle. intros (_ & _ & H).
    unfold sized in H. congruence. }
  assert (Hrun : ticking cl) by (repeat split; assumption).
  rewrite (untilGoal_cases cl c g Hs).
  destruct (fellOut (playerRef (integrate g))) eqn:Hfell.
  { destruct (pickGraveQuestion c) as [q|] eqn:Hq;
      [rewrite !andThen_Return|rewrite !andThen_Throw]; cbn [completed];
      [|discriminate].
    intros Hg; apply (inj Some) in Hg; subst g'. now apply frame_fall. }
  destruct (orbLoop_cases (frameOrbs (collectedRef g)) (atOrbs g))
    as [Eorb|(orb & Hin & Hact & Htouch & Eorb)]; rewrite Eorb.
  2: { rewrite !andThen_Return. cbn [completed]. intros Hg; apply (inj Some) in Hg; subst g'.
       now apply frame_orb. }
  rewrite andThen_Normal.
  pose proof (enemyPhase_cases cl c (atOrbs g) Hs) as Hen. cbv zeta in Hen.
  fold (atGoal g) in Hen. rewrite Hen; clear Hen.
  destruct (enemyLoop (playerRef (atOrbs g)) (enemiesRef (atOrbs g))).2
    eqn:Hhit.
  { destruct (pickGraveQuestion c) as [q|] eqn:Hq;
      [rewrite !andThen_Return|rewrite !andThen_Throw]; cbn [completed];
      [|discriminate].
    intros Hg; apply (inj Some) in Hg; subst g'. now apply frame_enemy. }
  rewrite andThen_Normal, goalPhase_cases.
  destruct (nearGoal (playerRef (atGoal g))
            && hasTools (collectedRef (atGoal g))) eqn:Hgoal.
  - rewrite andThen_Return. cbn [completed]. intros Hg; apply (inj Some) in Hg; subst g'.
    apply andb_prop in Hgoal as [Hnear Htools].
    now apply frame_victory.
  - rewrite andThen_Normal. unfold stmt. cbn [completed]. intros Hg; apply (inj Some) in Hg; subst g'.
    now apply frame_on.
Qed.

(** ** Coherence of the state machine and the progress store *)

Lemma ledger_progress (a b : Game) :
  ledger a = ledger b -> progress a = progress b.
Proof.
  intros H. apply ledger_fields in H. unfold progress.
  destruct H as (_ & _ & _ & -> & -> & -> & -> & -> & _ & _ & -> & -> & ->
                 & -> & _).
  reflexivity.
Qed.

Lemma progress_fields (a b : Game) :
  progress a = progress b ->
  gameState a = gameState b /\ modalState a = modalState b
  /\ activeOrb a = activeOrb b /\ activeQuestion a = activeQuestion b
  /\ graveQuestion a = graveQuestion b
  /\ score a = score b /\ scoreRef a = scoreRef b
  /\ collectedIds a = collectedIds b /\ collectedRef a = collectedRef b.
Proof.
  unfold progress. intros H. injection H. intros. repeat split; assumption.
Qed.

Lemma coherent_progress (a b : Game) :
  progress a = progress b -> coherent b -> coherent a.
Proof.
  intros H [[Hm1 Hm2] Hc Ho Hl Hq Hg]. apply progress_fields in H.
  destruct H as (E1 & E2 & E3 & E4 & E5 & E6 & E7 & E8 & E9).
  split; unfold mirrored; rewrite ?E1, ?E2, ?E3, ?E4, ?E5, ?E6, ?E7, ?E8, ?E9;
    auto.
Qed.

Lemma pickGraveQuestion_pool (c : Chance) (q : Question) :
  pickGraveQuestion c = Some q -> q ∈ QUESTIONS.
Proof.
  unfold pickGraveQuestion. destruct (_ <? 0)%Z; [discriminate|].
  apply list_elem_of_lookup_2.
Qed.

Lemma graveOpened_fields (c : Chance) (q : Question) (g : Game) :
  let g' := graveOpened c q g in
  gameState g' = GRAVE /\ modalState g' = modalState g
  /\ activeOrb g' = activeOrb g /\ activeQuestion g' = activeQuestion g
  /\ graveQuestion g' = Some q /\ graveResult g' = None
  /\ graveAnswers g' = ch_shuffle c (q_answers q)
  /\ score g' = score g /\ scoreRef g' = scoreRef g
  /\ collectedIds g' = collectedIds g /\ collectedRef g' = collectedRef g
  /\ seenLoreRef g' = seenLoreRef g
  /\ lastCheckpointRef g' = lastCheckpointRef g
  /\ enemiesRef g' = enemiesRef g /\ cameraRef g' = cameraRef g
  /\ submitted g' = submitted g /\ warningMessage g' = warningMessage g
  /\ keysRef g' = ∅
  /\ playerRef g' = set_p_vy 0 (set_p_vx 0 (playerRef g))
  /\ jumpBufferRef g' = jumpBufferRef g
  /\ dimensions g' = dimensions g.
Proof. destruct g. cbv zeta. repeat split; reflexivity. Qed.

Lemma graveOpened_coherent (c : Chance) (q : Question) (g : Game) :
  q ∈ QUESTIONS -> coherent g ->
  coherent (graveOpened c q g).
Proof.
  intros Hq [[Hm1 Hm2] Hc Ho Hl Hz Hg].
  destruct (graveOpened_fields c q g)
    as (E1 & E2 & E3 & E4 & E5 & _ & _ & E6 & E7 & E8 & E9 & _).
  split; unfold mirrored; rewrite ?E1, ?E2, ?E3, ?E4, ?E5, ?E6, ?E7, ?E8, ?E9;
    auto.
  intros _. eauto.
Qed.

Lemma levelOrbIds_spec (o : OrbDefinition) :
  o ∈ ORB_DATA -> od_id o ∈ levelOrbIds.
Proof.
  intros H. unfold levelOrbIds. apply elem_of_list_to_set.
  apply list_elem_of_In. apply in_map. now apply list_elem_of_In.
Qed.

Lemma frameOrbs_spec (collected : gset Z) (orb : Orb) :
  orb ∈ frameOrbs collected ->
  exists o, o ∈ ORB_DATA /\ orb = toOrb collected o.
Proof.
  unfold frameOrbs. intros H. apply list_elem_of_In, in_map_iff in H.
  destruct H as (o & <- & Hin). exists o. split; [|reflexivity].
  now apply list_elem_of_In.
Qed.

Lemma findReview_pool (qid : Z) (q : Question) :
  findReview qid = Some q -> q ∈ REVIEW_QUESTIONS /\ q_id q = qid.
Proof.
  unfold findReview. intros H. apply find_some in H as [Hin Hid].
  split; [now apply list_elem_of_In|]. now apply Z.eqb_eq.
Qed.

Lemma quizOf_pool (orb : Orb) (q : Question) :
  quizOf orb = Some q ->
  q ∈ REVIEW_QUESTIONS /\ orb_questionId orb = Some (q_id q).
Proof.
  unfold quizOf. destruct (orb_questionId orb) as [qid|]; cbn [truthyId];
    [|discriminate].
  destruct (negb (qid =? 0)%Z); [|discriminate].
  change (default 0%Z (Some qid)) with qid.
  intros H. apply findReview_pool in H as [Hin <-]. auto.
Qed.

Lemma touchOrb_cases (orb : Orb) (g : Game) :
  touchOrb orb g
  = if bool_decide (orb_spriteKey orb ∈ seenLoreRef g)
    then match quizOf orb with
         | Some q => quizOpened q (halted orb g)
         | None => collectOrb orb (halted orb g)
         end
    else set_modalState LORE (halted orb g).
Proof. destruct g. reflexivity. Qed.

Lemma handleLoreContinue_cases (g : Game) :
  handleLoreContinue g
  = match activeOrb g with
    | None => set_modalState NONE g
    | Some orb =>
        match quizOf orb with
        | Some q => quizOpened q (loreSeen orb g)
        | None => collectOrb orb (loreSeen orb g)
        end
    end.
Proof. destruct g. reflexivity. Qed.

Lemma coherent_intro (g : Game) :
  mirrored g -> collectedIds g ⊆ levelOrbIds ->
  (forall orb, activeOrb g = Some orb ->
     exists o s, o ∈ ORB_DATA /\ orb = toOrb s o) ->
  (modalState g = LORE -> isSome (activeOrb g) = true) ->
  (modalState g = QUIZ ->
     isSome (activeOrb g) = true
     /\ exists q, q ∈ REVIEW_QUESTIONS /\ activeQuestion g = Some q) ->
  (gameState g = GRAVE ->
     exists q, q ∈ QUESTIONS /\ graveQuestion g = Some q) ->
  coherent g.
Proof. intros. now split. Qed.

Lemma collectOrb_coherent (orb : Orb) (g : Game) :
  (exists o s, o ∈ ORB_DATA /\ orb = toOrb s o) ->
  collectedRef g ⊆ levelOrbIds ->
  (gameState g = GRAVE ->
     exists q, q ∈ QUESTIONS /\ graveQuestion g = Some q) ->
  coherent (collectOrb orb g).
Proof.
  intros (o & s & Ho & ->) Hc Hg.
  destruct (collectOrb_fields (toOrb s o) g)
    as (E1 & E2 & E3 & E4 & E5 & E6 & E7 & E8 & _).
  apply coherent_intro; unfold mirrored; rewrite ?E1, ?E2, ?E3, ?E4, ?E5, ?E6, ?E7, ?E8;
    try congruence; auto.
  - apply union_subseteq. split; [exact Hc|].
    apply singleton_subseteq_l. now apply levelOrbIds_spec.
Qed.

Ltac open_coherent H :=
  let Hm1 := fresh "Hm1" in let Hm2 := fresh "Hm2" in
  let Hc := fresh "Hc" in let Ho := fresh "Ho" in
  let Hl := fresh "Hl" in let Hz := fresh "Hz" in let Hg := fresh "Hg" in
  destruct H as [[Hm1 Hm2] Hc Ho Hl Hz Hg].

Ltac close_coherent :=
  apply coherent_intro; unfold mirrored; fields;
  try assumption; try congruence; try discriminate; eauto.

Lemma halted_coherent (orb : Orb) (g : Game) :
  coherent g ->
  (exists o s, o ∈ ORB_DATA /\ orb = toOrb s o) ->
  coherent (halted orb g).
Proof.
  intros H Horb. open_coherent H. unfold halted.
  destruct g; fields_all. close_coherent.
  - intros orb' [= <-]. exact Horb.
  - intros Hq. destruct (Hz Hq) as [_ Hex]. split; [reflexivity|exact Hex].
Qed.

Lemma halted_fields (orb : Orb) (g : Game) :
  let g' := halted orb g in
  gameState g' = gameState g /\ modalState g' = modalState g
  /\ activeOrb g' = Some orb
  /\ collectedRef g' = collectedRef g /\ collectedIds g' = collectedIds g
  /\ score g' = score g /\ scoreRef g' = scoreRef g
  /\ seenLoreRef g' = seenLoreRef g
  /\ graveQuestion g' = graveQuestion g
  /\ enemiesRef g' = enemiesRef g /\ cameraRef g' = cameraRef g
  /\ lastCheckpointRef g' = lastCheckpointRef g
  /\ submitted g' = submitted g
  /\ keysRef g' = ∅
  /\ playerRef g' = set_p_vy 0 (set_p_vx 0 (playerRef g)).
Proof. destruct g. cbv zeta. repeat split; reflexivity. Qed.

Lemma loreSeen_coherent (orb : Orb) (g : Game) :
  coherent g -> coherent (loreSeen orb g).
Proof.
  apply coherent_progress. destruct g; reflexivity.
Qed.

Lemma quizOpened_coherent (q : Question) (g : Game) :
  coherent g -> isSome (activeOrb g) = true ->
  q ∈ REVIEW_QUESTIONS ->
  coherent (quizOpened q g).
Proof.
  intros H Ha Hq. open_coherent H. unfold quizOpened.
  destruct g; fields_all. close_coherent.
Qed.

Lemma loreOpened_coherent (g : Game) :
  coherent g -> isSome (activeOrb g) = true ->
  coherent (set_modalState LORE g).
Proof.
  intros H Ha. open_coherent H.
  destruct g; fields_all. close_coherent.
Qed.

Lemma touchOrb_coherent (orb : Orb) (g : Game) :
  coherent g ->
  (exists o s, o ∈ ORB_DATA /\ orb = toOrb s o) ->
  coherent (touchOrb orb g).
Proof.
  intros H Horb. rewrite touchOrb_cases.
  pose proof (halted_coherent orb g H Horb) as Hh.
  destruct (halted_fields orb g) as (E1 & E2 & E3 & E4 & _ & _ & _ & _ & E5 & _).
  destruct (bool_decide _).
  - destruct (quizOf orb) as [q|] eqn:Hq.
    + apply (quizOpened_coherent q _ Hh).
      * now rewrite E3.
      * now apply quizOf_pool in Hq.
    + apply (collectOrb_coherent orb _ Horb).
      * rewrite E4. open_coherent H. now rewrite Hm2.
      * rewrite E1, E5. open_coherent H. exact Hg.
  - apply (loreOpened_coherent _ Hh). now rewrite E3.
Qed.

Lemma handleLoreContinue_coherent (g : Game) :
  coherent g -> modalState g = LORE -> coherent (handleLoreContinue g).
Proof.
  intros H Hm. rewrite handleLoreContinue_cases.
  pose proof H as H'. open_coherent H'.
  pose proof (Hl Hm) as Ha.
  destruct (activeOrb g) as [orb|] eqn:Horb; [|discriminate].
  pose proof (loreSeen_coherent orb g H) as Hseen.
  assert (E : gameState (loreSeen orb g) = gameState g
              /\ activeOrb (loreSeen orb g) = activeOrb g
              /\ collectedRef (loreSeen orb g) = collectedRef g
              /\ graveQuestion (loreSeen orb g) = graveQuestion g)
    by (destruct g; repeat split; reflexivity).
  destruct E as (E1 & E2 & E3 & E4).
  destruct (quizOf orb) as [q|] eqn:Hq.
  - apply (quizOpened_coherent q _ Hseen).
    + now rewrite E2, Horb.
    + now apply quizOf_pool in Hq.
  - apply collectOrb_coherent.
    + now apply Ho.
    + rewrite E3, Hm2. exact Hc.
    + rewrite E1, E4. exact Hg.
Qed.

Lemma handleQuizCorrect_coherent (g : Game) :
  coherent g -> coherent (handleQuizCorrect g).
Proof.
  intros H. pose proof H as H'. open_coherent H'.
  unfold handleQuizCorrect.
  destruct (activeOrb g) as [orb|] eqn:Horb; [|exact H].
  apply collectOrb_coherent.
  - now apply Ho.
  - now rewrite Hm2.
  - exact Hg.
Qed.

Lemma handleQuizIncorrect_coherent (g : Game) :
  coherent g -> coherent (handleQuizIncorrect g).
Proof.
  intros H. open_coherent H. unfold handleQuizIncorrect.
  destruct g; fields_all. close_coherent.
Qed.

Lemma resetGame_coherent (toMenu : bool) (g : Game) :
  coherent (resetGame toMenu g).
Proof.
  destruct (resetGame_fields toMenu g)
    as (E1 & E2 & E3 & E4 & E5 & E6 & _ & _ & _ & _ & _ & E7 & E8 & _).
  apply coherent_intro; unfold mirrored; rewrite ?E1, ?E2, ?E3, ?E4, ?E5, ?E6, ?E7;
    try congruence; auto.
  - apply empty_subseteq.
  - destruct toMenu; discriminate.
Qed.

Lemma respawnAtCheckpoint_coherent (g : Game) :
  coherent g -> coherent (respawnAtCheckpoint g).
Proof.
  intros H. open_coherent H. unfold respawnAtCheckpoint.
  destruct g; fields_all. close_coherent.
Qed.

Lemma set_gameState_coherent (s : GameState) (g : Game) :
  coherent g -> s <> GRAVE -> coherent (set_gameState s g).
Proof.
  intros H Hs. open_coherent H.
  destruct g; fields_all. close_coherent.
Qed.

Lemma executeJump_progress (g : Game) : progress (executeJump g) = progress g.
Proof. apply ledger_progress, executeJump_ledger. Qed.

Lemma set_keysRef_progress keys (g : Game) :
  progress (set_keysRef keys g) = progress g.
Proof. destruct g; reflexivity. Qed.

Lemma set_playerRef_progress p (g : Game) :
  progress (set_playerRef p g) = progress g.
Proof. destruct g; reflexivity. Qed.

Lemma handleKeyUp_progress (code : string) (g : Game) :
  progress (handleKeyUp code g) = progress g.
Proof.
  unfold handleKeyUp. destruct (isJumpKey code);
    rewrite ?set_playerRef_progress; apply set_keysRef_progress.
Qed.

Lemma handleInputEnd_progress (key : string) (g : Game) :
  progress (handleInputEnd key g) = progress g.
Proof.
  unfold handleInputEnd. destruct (String.eqb key "Space");
    rewrite ?set_playerRef_progress; apply set_keysRef_progress.
Qed.

Lemma handleInputStart_progress (key : string) (g : Game) :
  progress (handleInputStart key g) = progress g.
Proof.
  unfold handleInputStart.
  destruct (gameState g), (modalState g); try reflexivity.
  rewrite set_keysRef_progress.
  destruct (String.eqb key "Space"); [apply executeJump_progress|reflexivity].
Qed.

Lemma handleKeyDown_coherent (code : string) (g : Game) :
  coherent g -> coherent (handleKeyDown code g).
Proof.
  intros H. unfold handleKeyDown.
  destruct (String.eqb code "Escape").
  - destruct (gameState g) eqn:Hs; try exact H.
    + destruct (modalState g) eqn:Hm; try exact H.
      apply set_gameState_coherent; [exact H|discriminate].
    + apply set_gameState_coherent; [exact H|discriminate].
  - destruct (gameState g) eqn:Hs; try exact H.
    + destruct (String.eqb code "Enter"); [apply resetGame_coherent|exact H].
    + destruct (modalState g) eqn:Hm; try exact H.
      apply (coherent_progress _ g); [|exact H].
      rewrite set_keysRef_progress.
      destruct (isJumpKey code); [apply executeJump_progress|reflexivity].
Qed.

Lemma victorious_coherent (cl : Closure) (g : Game) :
  coherent g -> coherent (victorious cl g).
Proof.
  intros H. open_coherent H. unfold victorious.
  destruct g; fields_all. close_coherent.
Qed.

Lemma carried_progress (cl : Closure) (g : Game) :
  progress (cameraPhase cl (warned cl g)) = progress g.
Proof.
  unfold warned. destruct (_ && _); destruct g; reflexivity.
Qed.

Lemma integrate_progress (g : Game) : progress (integrate g) = progress g.
Proof. apply ledger_progress, integrate_ledger. Qed.

Lemma atOrbs_progress (g : Game) : progress (atOrbs g) = progress g.
Proof. apply ledger_progress, atOrbs_ledger. Qed.

Lemma atGoal_progress (g : Game) : progress (atGoal g) = progress g.
Proof. apply ledger_progress, atGoal_ledger. Qed.

Lemma frame_coherent (cl : Closure) (c : Chance) (g g' : Game) :
  coherent g -> FrameOutcome cl c g g' -> coherent g'.
Proof.
  intros H Hout.
  destruct Hout as [_|q _ _ Hq|orb _ _ Hin _ _|q _ _ _ _ Hq|_ _ _ _ _ _
                   |_ _ _ _ _].
  - exact H.
  - apply graveOpened_coherent.
    + now apply pickGraveQuestion_pool in Hq.
    + apply (coherent_progress _ g); [apply integrate_progress|exact H].
  - apply touchOrb_coherent.
    + apply (coherent_progress _ g); [apply atOrbs_progress|exact H].
    + apply frameOrbs_spec in Hin as (o & Ho & ->). eauto.
  - apply graveOpened_coherent.
    + now apply pickGraveQuestion_pool in Hq.
    + apply (coherent_progress _ g); [apply atGoal_progress|exact H].
  - apply victorious_coherent.
    apply (coherent_progress _ g); [apply atGoal_progress|exact H].
  - apply (coherent_progress _ (atGoal g)); [apply carried_progress|].
    apply (coherent_progress _ g); [apply atGoal_progress|exact H].
Qed.

(** Every event keeps the state machine and the progress store
    coherent. *)
Lemma step_coherent (ev : Event) (g g' : Game) :
  coherent g -> step ev g = Some g' -> coherent g'.
Proof.
  intros H Hstep.
  destruct ev as [cl c| | | | | | | | | | | | | | | | |];
    [exact (frame_coherent cl c g g' H (frame_outcome cl c g g' Hstep))|..];
    unfold step in Hstep;
    (destruct (offered _ g) eqn:Hoff;
     [|apply (inj Some) in Hstep; now subst g']);
    cbn [handler completed] in Hstep; apply (inj Some) in Hstep; subst g';
    cbn [offered] in Hoff.
  - now apply handleKeyDown_coherent.
  - apply (coherent_progress _ g); [apply handleKeyUp_progress|exact H].
  - apply (coherent_progress _ g); [apply handleInputStart_progress|exact H].
  - apply (coherent_progress _ g); [apply handleInputEnd_progress|exact H].
  - apply (coherent_progress _ g); [|exact H].
    unfold handleResize. destruct (_ && _); destruct g; reflexivity.
  - apply (coherent_progress _ g); [|exact H]. destruct g; reflexivity.
  - apply resetGame_coherent.
  - apply handleLoreContinue_coherent; [exact H|].
    unfold inModal in Hoff. destruct (modalState g); try discriminate.
    reflexivity.
  - now apply handleQuizCorrect_coherent.
  - now apply handleQuizIncorrect_coherent.
  - apply (coherent_progress _ g); [|exact H].
    unfold handleGraveAnswer. destruct (graveQuestion g); [|reflexivity].
    destruct (String.eqb _ _); destruct g; reflexivity.
  - now apply respawnAtCheckpoint_coherent.
  - apply resetGame_coherent.
  - apply set_gameState_coherent; [exact H|discriminate].
  - apply resetGame_coherent.
  - apply resetGame_coherent.
  - apply resetGame_coherent.
Qed.

Lemma mount_coherent (uid : option string) (uname : option JsString)
    (dims : Dimensions) :
  coherent (mount uid uname dims).
Proof.
  apply coherent_intro; unfold mount, mirrored; fields;
    try discriminate; auto.
Qed.

Lemma run_coherent (evs : list Event) (g g' : Game) :
  coherent g -> run evs g = Some g' -> coherent g'.
Proof.
  revert g. induction evs as [|ev rest IH]; intros g H Hrun; cbn [run] in Hrun.
  - apply (inj Some) in Hrun. now subst g'.
  - destruct (step ev g) as [g1|] eqn:Hstep; [|discriminate].
    exact (IH g1 (step_coherent ev g g1 H Hstep) Hrun).
Qed.

(** ** What a run accumulates *)

Lemma gains_fields (a b : Game) :
  gains a = gains b ->
  score a = score b /\ collectedIds a = collectedIds b
  /\ seenLoreRef a = seenLoreRef b.
Proof. unfold gains. intros H. injection H. auto. Qed.

Lemma advances_gains (g a b : Game) :
  gains a = gains b -> advances g b -> advances g a.
Proof.
  intros H. apply gains_fields in H as (E1 & E2 & E3).
  unfold advances. now rewrite E1, E2, E3.
Qed.

Lemma advances_refl (g : Game) : advances g g.
Proof. split; [reflexivity|left; auto]. Qed.

Lemma advances_same (g g' : Game) : gains g' = gains g -> advances g g'.
Proof. intros H. apply (advances_gains g g' g H), advances_refl. Qed.

Lemma ledger_gains (a b : Game) : ledger a = ledger b -> gains a = gains b.
Proof.
  intros H. apply ledger_fields in H. unfold gains.
  destruct H as (_ & _ & _ & _ & _ & _ & _ & _ & _ & _ & -> & _ & -> & _
                 & -> & _).
  reflexivity.
Qed.

Lemma quizOpened_gains (q : Question) (g : Game) :
  gains (quizOpened q g) = gains g.
Proof. destruct g; reflexivity. Qed.

Lemma collectOrb_advances (g0 g : Game) (o : OrbDefinition) (s : gset Z) :
  o ∈ ORB_DATA -> collectedRef g = collectedIds g0 ->
  score g = score g0 -> seenLoreRef g0 ⊆ seenLoreRef g ->
  advances g0 (collectOrb (toOrb s o) g).
Proof.
  intros Ho Hc Hs Hl.
  destruct (collectOrb_fields (toOrb s o) g)
    as (E1 & _ & E3 & _ & _ & _ & _ & _ & E9 & _).
  split; [now rewrite E9|]. right. exists o.
  rewrite E1, E3, Hc, Hs. auto.
Qed.

Lemma touchOrb_advances (orb : Orb) (g0 g : Game) :
  (exists o s, o ∈ ORB_DATA /\ orb = toOrb s o) ->
  mirrored g0 -> ledger g = ledger g0 ->
  advances g0 (touchOrb orb g).
Proof.
  intros (o & s & Ho & ->) [_ Hm] Hl. apply ledger_fields in Hl.
  destruct Hl as (_ & _ & _ & _ & _ & _ & _ & _ & _ & _ & L1 & _ & L2 & L3
                  & L4 & _).
  destruct (halted_fields (toOrb s o) g)
    as (_ & _ & _ & E4 & E5 & E6 & _ & E8 & _).
  rewrite touchOrb_cases.
  destruct (bool_decide _); [destruct (quizOf _)|].
  - apply advances_same. rewrite quizOpened_gains. unfold gains.
    now rewrite E5, E6, E8, L1, L2, L4.
  - apply collectOrb_advances; auto; try congruence.
  - apply advances_same. unfold gains.
    rewrite <- L1, <- L2, <- L4, <- E5, <- E6, <- E8.
    destruct (halted (toOrb s o) g); reflexivity.
Qed.

Lemma graveOpened_gains (c : Chance) (q : Question) (g : Game) :
  gains (graveOpened c q g) = gains g.
Proof. destruct g; reflexivity. Qed.

Lemma frame_advances (cl : Closure) (c : Chance) (g g' : Game) :
  coherent g -> FrameOutcome cl c g g' -> advances g g'.
Proof.
  intros H Hout. pose proof (coh_mirror g H) as Hmir.
  destruct Hout as [_|q _ _ _|orb _ _ Hin _ _|q _ _ _ _ _|_ _ _ _ _ _
                   |_ _ _ _ _].
  - apply advances_refl.
  - apply advances_same. rewrite graveOpened_gains.
    apply ledger_gains, integrate_ledger.
  - apply touchOrb_advances; auto using atOrbs_ledger.
    apply frameOrbs_spec in Hin as (o & Ho & ->). eauto.
  - apply advances_same. rewrite graveOpened_gains.
    apply ledger_gains, atGoal_ledger.
  - apply advances_same.
    transitivity (gains (atGoal g)); [|apply ledger_gains, atGoal_ledger].
    unfold victorious. destruct (atGoal g); reflexivity.
  - apply advances_same.
    transitivity (gains (atGoal g)); [|apply ledger_gains, atGoal_ledger].
    unfold warned. destruct (_ && _); destruct (atGoal g); reflexivity.
Qed.

Lemma handleKeyDown_gains (code : string) (g : Game) :
  restarts (KeyDown code) g = false ->
  gains (handleKeyDown code g) = gains g.
Proof.
  unfold handleKeyDown. cbn [restarts]. unfold inState.
  destruct (String.eqb code "Escape"); cbn [negb andb].
  - intros _. destruct (gameState g), (modalState g), g; reflexivity.
  - destruct (gameState g) eqn:Hs; try reflexivity.
    + destruct (String.eqb code "Enter"); [discriminate|reflexivity].
    + intros _. destruct (modalState g); try reflexivity.
      destruct (isJumpKey code).
      * transitivity (gains (executeJump g));
          [destruct (executeJump g); reflexivity
          |apply ledger_gains, executeJump_ledger].
      * destruct g; reflexivity.
Qed.

Lemma handleInputStart_gains (key : string) (g : Game) :
  gains (handleInputStart key g) = gains g.
Proof.
  unfold handleInputStart.
  destruct (gameState g), (modalState g); try reflexivity.
  destruct (String.eqb key "Space").
  - transitivity (gains (executeJump g));
      [destruct (executeJump g); reflexivity
      |apply ledger_gains, executeJump_ledger].
  - destruct g; reflexivity.
Qed.

Lemma handleLoreContinue_advances (g : Game) :
  coherent g -> advances g (handleLoreContinue g).
Proof.
  intros H. rewrite handleLoreContinue_cases.
  destruct (activeOrb g) as [orb|] eqn:Horb.
  - destruct (coh_orb g H orb Horb) as (o & s & Ho & ->).
    destruct (coh_mirror g H) as [_ Hm].
    assert (E : score (loreSeen (toOrb s o) g) = score g
                /\ collectedIds (loreSeen (toOrb s o) g) = collectedIds g
                /\ collectedRef (loreSeen (toOrb s o) g) = collectedRef g
                /\ seenLoreRef (loreSeen (toOrb s o) g)
                   = seenLoreRef g ∪ {[ orb_spriteKey (toOrb s o) ]})
      by (destruct g; repeat split; reflexivity).
    destruct E as (E1 & E2 & E3 & E4).
    destruct (quizOf _) as [q|].
    + destruct (gains_fields _ _
                  (quizOpened_gains q (loreSeen (toOrb s o) g)))
        as (Q1 & Q2 & Q3).
      split; [rewrite Q3, E4; apply union_subseteq_l|].
      left. rewrite Q1, Q2. auto.
    + apply collectOrb_advances; auto; try congruence.
      rewrite E4. apply union_subseteq_l.
  - apply advances_same. destruct g; reflexivity.
Qed.

(** An event that is not a restart loses nothing earned. *)
Lemma step_advances (ev : Event) (g g' : Game) :
  coherent g -> restarts ev g = false -> step ev g = Some g' ->
  advances g g'.
Proof.
  intros H Hr Hstep.
  destruct ev as [cl c| | | | | | | | | | | | | | | | |];
    [exact (frame_advances cl c g g' H (frame_outcome cl c g g' Hstep))|..];
    unfold step in Hstep;
    (destruct (offered _ g) eqn:Hoff;
     [|apply (inj Some) in Hstep; subst g'; apply advances_refl]);
    cbn [handler completed] in Hstep; apply (inj Some) in Hstep; subst g';
    cbn [restarts] in Hr; try rewrite Hoff in Hr; try discriminate.
  - apply advances_same. now apply handleKeyDown_gains.
  - apply advances_same. unfold handleKeyUp.
    destruct (isJumpKey code); destruct g; reflexivity.
  - apply advances_same. apply handleInputStart_gains.
  - apply advances_same. unfold handleInputEnd.
    destruct (String.eqb key "Space"); destruct g; reflexivity.
  - apply advances_same. unfold handleResize.
    destruct (_ && _); destruct g; reflexivity.
  - apply advances_same. destruct g; reflexivity.
  - now apply handleLoreContinue_advances.
  - unfold handleQuizCorrect.
    destruct (activeOrb g) as [orb|] eqn:Horb; [|apply advances_refl].
    destruct (coh_orb g H orb Horb) as (o & s & Ho & ->).
    destruct (coh_mirror g H) as [_ Hm].
    apply collectOrb_advances; auto.
  - apply advances_same. destruct g; reflexivity.
  - apply advances_same. unfold handleGraveAnswer.
    destruct (graveQuestion g); [|reflexivity].
    destruct (String.eqb _ _); destruct g; reflexivity.
  - apply advances_same. destruct g; reflexivity.
  - apply advances_same. destruct g; reflexivity.
Qed.

Lemma ORB_DATA_points :
  forall o, o ∈ ORB_DATA -> 0 <= default 100 (od_points o).
Proof.
  intros o H. unfold ORB_DATA in H.
  repeat (apply elem_of_cons in H as [->|H]; [cbn; lra|]).
  inversion H.
Qed.

Lemma advances_score (g g' : Game) : advances g g' -> score g <= score g'.
Proof.
  intros [_ [[-> _]|(o & Ho & -> & _)]]; [lra|].
  pose proof (ORB_DATA_points o Ho). lra.
Qed.

Lemma advances_collected (g g' : Game) :
  advances g g' -> collectedIds g ⊆ collectedIds g'.
Proof.
  intros [_ [[_ ->]|(o & _ & _ & ->)]]; [reflexivity|].
  apply union_subseteq_l.
Qed.

Lemma run_earnings (evs : list Event) (g g' : Game) :
  coherent g -> oneRun evs g -> run evs g = Some g' ->
  collectedIds g ⊆ collectedIds g'
  /\ seenLoreRef g ⊆ seenLoreRef g'
  /\ score g <= score g'.
Proof.
  revert g. induction evs as [|ev rest IH]; intros g H Hone Hrun;
    cbn [run oneRun] in *.
  - apply (inj Some) in Hrun. subst g'. repeat split; (reflexivity || lra).
  - destruct Hone as [Hr Hone].
    destruct (step ev g) as [g1|] eqn:Hstep; [|discriminate].
    pose proof (step_advances ev g g1 H Hr Hstep) as Ha.
    destruct (IH g1 (step_coherent ev g g1 H Hstep) Hone Hrun)
      as (I1 & I2 & I3).
    pose proof (advances_score _ _ Ha). pose proof (advances_collected _ _ Ha).
    destruct Ha as [Hseen _].
    repeat split; [etransitivity; eauto|etransitivity; eauto|lra].
Qed.

(** X1: nothing earned is lost within a run.  From a coherent component,
    along events none of which restarts the game, the collected set and
    the seen lore only grow and the score never decreases. *)
Theorem run_keeps_earnings (evs : list Event) (g g' : Game) :
  coherent g -> oneRun evs g -> run evs g = Some g' ->
  collectedIds g ⊆ collectedIds g'
  /\ seenLoreRef g ⊆ seenLoreRef g'
  /\ score g <= score g'.
Proof. exact (run_earnings evs g g'). Qed.

Lemma run_keeps_earnings_witness :
  exists g',
    run [KeyDown "ArrowRight"; Frame sampleClosure sampleChance;
         KeyDown "Escape"]
      sampleStart = Some g'
    /\ score sampleStart <= score g'.
Proof.
  edestruct (run_keeps_earnings
               [KeyDown "ArrowRight"; Frame sampleClosure sampleChance;
                KeyDown "Escape"]
               sampleStart) as (_ & _ & H).
  - apply resetGame_coherent.
  - vm_compute. repeat split.
  - vm_compute. reflexivity.
  - eexists. split; [vm_compute; reflexivity|exact H].
Defined.



(** X3: in every component the page can reach, each ref mirrors its cell
    and only orbs of the level are collected. *)
Theorem reachable_store_consistent (uid : option string)
    (uname : option JsString) (dims : Dimensions) (evs : list Event)
    (g : Game) :
  run evs (mount uid uname dims) = Some g ->
  scoreRef g = score g /\ collectedRef g = collectedIds g
  /\ (forall id, id ∈ collectedIds g ->
        exists o, o ∈ ORB_DATA /\ od_id o = id).
Proof.
  intros Hrun.
  pose proof (run_coherent evs _ g (mount_coherent uid uname dims) Hrun)
    as [[H1 H2] Hc _ _ _ _].
  repeat split; auto. intros id Hid. apply Hc in Hid.
  unfold levelOrbIds in Hid. apply elem_of_list_to_set in Hid.
  apply list_elem_of_In, in_map_iff in Hid as (o & Ho & Hin).
  exists o. split; [now apply list_elem_of_In|exact Ho].
Qed.

Lemma reachable_store_consistent_witness :
  exists g,
    run sampleVisit sampleMount = Some g
    /\ scoreRef g = score g /\ collectedRef g = collectedIds g.
Proof.
  edestruct (reachable_store_consistent None (Some (units "Hiram"))
               (mkDimensions 800 600) sampleVisit) as (H1 & H2 & _).
  - vm_compute. reflexivity.
  - eexists. split; [vm_compute; reflexivity|]. split; [exact H1|exact H2].
Defined.

(** X4: in every component the page can reach, whichever frame
    callbacks have run and in whatever state they ran, an open modal has
    what it renders (the lore modal its orb, the quiz modal its orb and a
    review question), so that its buttons are on screen, and the GRAVE
    state has its penalty question, one of the death pool. *)
Theorem reachable_modal_consistent (uid : option string)
    (uname : option JsString) (dims : Dimensions) (evs : list Event)
    (g : Game) :
  run evs (mount uid uname dims) = Some g ->
  (modalState g = LORE -> offered LoreNext g = true)
  /\ (modalState g = QUIZ ->
      offered QuizCorrect g = true /\ offered QuizIncorrect g = true
      /\ isSome (activeOrb g) = true
      /\ exists q, q ∈ REVIEW_QUESTIONS /\ activeQuestion g = Some q)
  /\ (gameState g = GRAVE ->
      exists q, q ∈ QUESTIONS /\ graveQuestion g = Some q).
Proof.
  intros Hrun.
  pose proof (run_coherent evs _ g (mount_coherent uid uname dims) Hrun)
    as [_ _ _ Hl Hq Hg].
  split; [|split].
  - intros Hm. pose proof (Hl Hm) as Ha. cbn [offered]. unfold inModal.
    now rewrite Hm, Ha.
  - intros Hm. destruct (Hq Hm) as (Ha & q & Hin & Hq').
    cbn [offered]. unfold inModal. rewrite Hm, Hq'.
    repeat split; eauto.
  - exact Hg.
Qed.

Lemma reachable_modal_consistent_witness :
  exists g,
    run sampleVisit sampleMount = Some g
    /\ (modalState g = LORE -> offered LoreNext g = true).
Proof.
  edestruct (reachable_modal_consistent None (Some (units "Hiram"))
               (mkDimensions 800 600) sampleVisit) as (H1 & _).
  - vm_compute. reflexivity.
  - eexists. split; [vm_compute; reflexivity|exact H1].
Defined.

(** ** Exceptions *)

Lemma completed_Return (g : Game) (k : Game -> Completion) :
  completed (Return g >>> k) = Some g.
Proof. reflexivity. Qed.

Lemma frame_total (cl : Closure) (c : Chance) (g : Game) :
  0 <= ch_random c < 1 -> exists g', step (Frame cl c) g = Some g'.
Proof.
  intros Hr. destruct (pickGraveQuestion_in_pool c Hr) as (q & Hq & _).
  unfold step. destruct (offered (Frame cl c) g) eqn:Hoff; [|eauto].
  cbn [offered] in Hoff.
  cbn [handler]. unfold frame.
  destruct (cl_gameState cl) eqn:Hs; try discriminate.
  clear Hoff.
  unfold loop. destruct (Qzerob _ || Qzerob _); [cbn [completed]; eauto|].
  rewrite (untilGoal_cases cl c g Hs), Hq.
  destruct (fellOut _); [rewrite !andThen_Return; cbn [completed]; eauto|].
  destruct (orbLoop_cases (frameOrbs (collectedRef g)) (atOrbs g))
    as [E|(orb & _ & _ & _ & E)]; rewrite E;
    [|rewrite !andThen_Return; cbn [completed]; eauto].
  rewrite andThen_Normal.
  pose proof (enemyPhase_cases cl c (atOrbs g) Hs) as Hen. cbv zeta in Hen.
  fold (atGoal g) in Hen. rewrite Hen, Hq; clear Hen.
  destruct (enemyLoop _ _).2;
    [rewrite !andThen_Return; cbn [completed]; eauto|].
  rewrite andThen_Normal, goalPhase_cases.
  destruct (nearGoal (playerRef (atGoal g))
            && hasTools (collectedRef (atGoal g)));
    [rewrite andThen_Return|rewrite andThen_Normal; unfold stmt];
    cbn [completed]; eauto.
Qed.

(** X5: while [Math.random] keeps to its contract, no handler throws:
    every sequence of events runs to its end. *)
Theorem run_never_throws (evs : list Event) (g : Game) :
  Forall fairChance evs -> exists g', run evs g = Some g'.
Proof.
  revert g. induction evs as [|ev rest IH]; intros g Hfair; cbn [run];
    [eauto|].
  inversion Hfair as [|? ? Hev Hrest]; subst.
  assert (Hstep : exists g1, step ev g = Some g1).
  { destruct ev as [cl c| | | | | | | | | | | | | | | | |];
      [now apply frame_total|..];
      unfold step; destruct (offered _ g); cbn [handler completed]; eauto. }
  destruct Hstep as [g1 ->]. now apply IH.
Qed.

Lemma run_never_throws_witness :
  Forall fairChance sampleVisit
  /\ exists g', run sampleVisit sampleMount = Some g'.
Proof.
  assert (H : Forall fairChance sampleVisit)
    by (repeat constructor; cbn; lra).
  split; [exact H|]. exact (run_never_throws sampleVisit sampleMount H).
Defined.

Lemma pickGraveQuestion_outside (c : Chance) :
  ~ (0 <= ch_random c < 1) -> pickGraveQuestion c = None.
Proof.
  intros Hout. unfold pickGraveQuestion.
  change (inject_Z (Z.of_nat (length QUESTIONS))) with 6.
  set (i := Qfloor (ch_random c * 6)).
  destruct (Z.ltb_spec i 0) as [|Hlo]; [reflexivity|].
  assert (H0 : 0 <= ch_random c).
  { assert (H : inject_Z 0 <= ch_random c * 6).
    { apply Qle_trans with (inject_Z i); [now rewrite <- Zle_Qle|].
      apply Qfloor_le. }
    change (inject_Z 0) with 0 in H. lra. }
  assert (H1 : 1 <= ch_random c) by (destruct (Qlt_le_dec (ch_random c) 1);
                                     [exfalso; apply Hout; split; assumption
                                     |assumption]).
  assert (Hhi : (6 <= i)%Z).
  { change 6%Z with (Qfloor 6). apply Qfloor_resp_le. lra. }
  apply lookup_ge_None_2. cbn [length QUESTIONS]. lia.
Qed.

(** X6: the death handler of a render in state PLAYING, the only one a
    frame callback can hold, draws the penalty question exactly when the
    random number is in [[0, 1)]; outside of it the handler reads a
    property of [undefined] and throws.  The state of the component at
    the time of the call does not matter: the handler tests the state
    its render had. *)
Theorem handleDeath_throws_iff (c : Chance) (g : Game) :
  (0 <= ch_random c < 1 <->
   exists q, q ∈ QUESTIONS
             /\ handleDeath PLAYING c g = Normal (graveOpened c q g))
  /\ (~ (0 <= ch_random c < 1)
      <-> handleDeath PLAYING c g = Throw "TypeError").
Proof.
  rewrite (handleDeath_playing c g).
  destruct (Qlt_le_dec (ch_random c) 0) as [Hneg|Hpos];
    [|destruct (Qlt_le_dec (ch_random c) 1) as [Hlt|Hge]].
  - assert (Hout : ~ (0 <= ch_random c < 1)) by (intros [? ?]; lra).
    rewrite (pickGraveQuestion_outside c Hout).
    split; split; try tauto.
    + intros (q & _ & H). discriminate.
  - destruct (pickGraveQuestion_in_pool c (conj Hpos Hlt)) as (q & -> & Hq).
    split; split; try tauto.
    + intros _. eauto.
    + discriminate.
  - assert (Hout : ~ (0 <= ch_random c < 1)) by (intros [? ?]; lra).
    rewrite (pickGraveQuestion_outside c Hout).
    split; split; try tauto.
    + intros (q & _ & H). discriminate.
Qed.

Lemma handleDeath_throws_iff_witness :
  handleDeath PLAYING (mkChance 1 (fun l => l)) sampleWon
  = Throw "TypeError".
Proof.
  apply (handleDeath_throws_iff (mkChance 1 (fun l => l)) sampleWon).
  cbn. lra.
Defined.

(** ** Pause *)

(** X7: Escape pauses a run in progress and a second Escape resumes it
    with the whole component as it was. *)
Theorem pause_round_trip (g : Game) :
  gameState g = PLAYING -> modalState g = NONE ->
  let paused := handleKeyDown "Escape" g in
  gameState paused = PAUSED
  /\ modalState paused = NONE
  /\ handleKeyDown "Escape" paused = g.
Proof.
  intros Hs Hm. cbv zeta. destruct g. fields_all. subst.
  repeat split.
Qed.

Lemma pause_round_trip_witness :
  handleKeyDown "Escape" (handleKeyDown "Escape" sampleStart) = sampleStart.
Proof.
  apply (pause_round_trip sampleStart); reflexivity.
Defined.

(** ** The grave *)

(** X8: the correct answer to the penalty question leaves one control,
    the return to the work; it puts the player at the last checkpoint, at
    rest and in the air, in state PLAYING, and keeps the collected set,
    the score, the seen lore, the last checkpoint and the enemies where
    they were. *)
Theorem correct_answer_respawns (g : Game) (q : Question) :
  gameState g = GRAVE -> graveQuestion g = Some q -> graveResult g = None ->
  q_correctAnswer q ∈ graveAnswers g ->
  exists g1 g',
    step (GraveAnswer (q_correctAnswer q)) g = Some g1
    /\ graveResult g1 = Some correct
    /\ offered ClickBeginAgain g1 = false
    /\ step ClickReturnToWork g1 = Some g'
    /\ gameState g' = PLAYING /\ graveQuestion g' = None
    /\ p_x (playerRef g') = pt_x (lastCheckpointRef g)
    /\ p_y (playerRef g') = pt_y (lastCheckpointRef g)
    /\ p_vx (playerRef g') = 0 /\ p_vy (playerRef g') = 0
    /\ p_isGrounded (playerRef g') = false
    /\ collectedIds g' = collectedIds g /\ score g' = score g
    /\ seenLoreRef g' = seenLoreRef g
    /\ lastCheckpointRef g' = lastCheckpointRef g
    /\ enemiesRef g' = enemiesRef g.
Proof.
  intros Hs Hq Hr Hin.
  exists (set_graveResult (Some correct) g),
         (respawnAtCheckpoint (set_graveResult (Some correct) g)).
  split.
  { unfold step. cbn [offered]. unfold graveShows, inState.
    rewrite Hs, Hq, Hr. cbn [isSome andb].
    rewrite bool_decide_eq_true_2 by exact Hin.
    cbn [handler completed]. unfold handleGraveAnswer.
    now rewrite Hq, String.eqb_refl. }
  destruct g. fields_all. subst.
  repeat split.
Qed.

Lemma correct_answer_respawns_witness :
  exists g',
    run [GraveAnswer "The straight and undeviating line of conduct.";
         ClickReturnToWork] sampleGrave = Some g'
    /\ gameState g' = PLAYING /\ p_x (playerRef g') = 60.
Proof.
  edestruct correct_answer_respawns with (g := sampleGrave)
    as (g1 & g' & H1 & _ & _ & H2 & Hs & _ & Hx & _).
  - vm_compute. reflexivity.
  - vm_compute. reflexivity.
  - vm_compute. reflexivity.
  - replace (graveAnswers sampleGrave)
      with [ "The straight and undeviating line of conduct.";
             "The level of equality among mankind.";
             "The uprightness of life and actions." ]
      by (vm_compute; reflexivity).
    apply list_elem_of_here.
  - exists g'. cbn [run]. cbn [q_correctAnswer] in H1. rewrite H1, H2.
    repeat split; assumption.
Defined.

(** X9: no key, button or timer takes the game out of the grave except
    the two buttons of the panel, each shown only after an answer of its
    kind; and the result is "correct" only after the answer that equals
    the correct answer of the question.  (A frame callback that is still
    running is not a control; what it does is a matter of the frame.) *)
Theorem grave_cannot_be_skipped (ev : Event) (g g' : Game) :
  gameState g = GRAVE -> (forall cl c, ev <> Frame cl c) ->
  step ev g = Some g' ->
  (gameState g' = GRAVE
   /\ (graveResult g' = graveResult g
       \/ exists q a, ev = GraveAnswer a /\ graveQuestion g = Some q
                      /\ graveResult g = None
                      /\ graveResult g'
                         = Some (if String.eqb a (q_correctAnswer q)
                                 then correct else incorrect)))
  \/ (ev = ClickReturnToWork /\ graveResult g = Some correct
      /\ g' = respawnAtCheckpoint g)
  \/ (ev = ClickBeginAgain /\ graveResult g = Some incorrect
      /\ g' = resetGame false g).
Proof.
  intros Hs Hnf Hstep. unfold step in Hstep.
  destruct (offered ev g) eqn:Hoff;
    [|apply (inj Some) in Hstep; subst g'; left; auto].
  destruct ev; cbn [offered handler completed] in *;
    unfold graveShows, inState in Hoff; rewrite ?Hs in Hoff;
    cbn [andb] in Hoff; try discriminate.
  - now destruct (Hnf cl c).
  - apply (inj Some) in Hstep; subst g'. left.
    unfold handleKeyDown. rewrite Hs.
    destruct (String.eqb code "Escape"); auto.
  - apply (inj Some) in Hstep; subst g'. left. unfold handleKeyUp.
    destruct (isJumpKey code); destruct g; auto.
  - apply (inj Some) in Hstep; subst g'. left. unfold handleResize.
    destruct (_ && _); destruct g; auto.
  - apply (inj Some) in Hstep; subst g'. left. destruct g; auto.
  - apply (inj Some) in Hstep; subst g'. left.
    rewrite handleLoreContinue_cases.
    destruct (activeOrb g); [destruct (quizOf _)|]; destruct g; auto.
  - apply (inj Some) in Hstep; subst g'. left. unfold handleQuizCorrect.
    destruct (activeOrb g); destruct g; auto.
  - apply (inj Some) in Hstep; subst g'. left. destruct g; auto.
  - apply (inj Some) in Hstep; subst g'. left. unfold handleGraveAnswer.
    destruct (graveQuestion g) as [q|] eqn:Hq;
      [|cbn [isSome andb] in Hoff; discriminate].
    destruct (graveResult g) as [[|]|] eqn:Hr;
      try (cbn [isSome andb] in Hoff; discriminate).
    split; [destruct (String.eqb _ _); destruct g; exact Hs|].
    right. exists q, answer. repeat split.
    destruct (String.eqb _ _); destruct g; reflexivity.
  - apply (inj Some) in Hstep; subst g'. right. left.
    destruct (graveQuestion g); [|cbn [isSome andb] in Hoff; discriminate].
    destruct (graveResult g) as [[|]|];
      try (cbn [isSome andb] in Hoff; discriminate). auto.
  - apply (inj Some) in Hstep; subst g'. right. right.
    destruct (graveQuestion g); [|cbn [isSome andb] in Hoff; discriminate].
    destruct (graveResult g) as [[|]|];
      try (cbn [isSome andb] in Hoff; discriminate). auto.
Qed.

Lemma grave_cannot_be_skipped_witness :
  gameState (handleKeyDown "Escape" sampleGrave) = GRAVE.
Proof.
  destruct (grave_cannot_be_skipped (KeyDown "Escape") sampleGrave
              (handleKeyDown "Escape" sampleGrave))
    as [[H _]|[(H & _)|(H & _)]].
  - vm_compute. reflexivity.
  - discriminate.
  - reflexivity.
  - exact H.
  - discriminate H.
  - discriminate H.
Defined.

(** ** Lore *)

Lemma loreSeen_fields (orb : Orb) (g : Game) :
  let g' := loreSeen orb g in
  seenLoreRef g' = seenLoreRef g ∪ {[ orb_spriteKey orb ]}
  /\ score g' = score g /\ collectedRef g' = collectedRef g
  /\ collectedIds g' = collectedIds g /\ activeOrb g' = activeOrb g
  /\ gameState g' = gameState g.
Proof. destruct g. cbv zeta. repeat split; reflexivity. Qed.

(** X10: acknowledging the lore of an orb that leads to no review question
    (no question id, the id 0, or an id that names no review question)
    collects the orb at once: its id joins the collected set, the score
    grows by its points, or by 100 when it states none, its lore is
    marked as seen and the modal closes. *)
Theorem lore_without_quiz_collects (g : Game) (orb : Orb) :
  activeOrb g = Some orb -> quizOf orb = None ->
  let g' := handleLoreContinue g in
  modalState g' = NONE /\ activeOrb g' = None
  /\ collectedRef g' = collectedRef g ∪ {[ orb_id orb ]}
  /\ collectedIds g' = collectedRef g ∪ {[ orb_id orb ]}
  /\ score g' = score g + default 100 (orb_points orb)
  /\ scoreRef g' = score g + default 100 (orb_points orb)
  /\ orb_spriteKey orb ∈ seenLoreRef g'.
Proof.
  intros Ha Hq. cbv zeta. rewrite handleLoreContinue_cases, Ha, Hq.
  destruct (collectOrb_fields orb (loreSeen orb g))
    as (E1 & E2 & E3 & E4 & E5 & E6 & _ & _ & E9 & _).
  destruct (loreSeen_fields orb g) as (L1 & L2 & L3 & _).
  rewrite E1, E2, E3, E4, E5, E6, E9, L1, L2, L3.
  repeat split. apply elem_of_union_r, elem_of_singleton. reflexivity.
Qed.

Lemma lore_without_quiz_collects_witness :
  collectedIds (handleLoreContinue sampleAcaciaLore) = ∅ ∪ {[ 4%Z ]}
  /\ score (handleLoreContinue sampleAcaciaLore) = 0 + 250.
Proof.
  edestruct (lore_without_quiz_collects sampleAcaciaLore)
    as (_ & _ & _ & H1 & H2 & _).
  - reflexivity.
  - reflexivity.
  - split; [exact H1|exact H2].
Defined.

(** ** The leaderboard *)

Lemma records_fields (a b : Game) :
  records a = records b ->
  submitted a = submitted b /\ platformsRef a = platformsRef b
  /\ boundsRef a = boundsRef b /\ userId a = userId b
  /\ userName a = userName b.
Proof. unfold records. intros H. injection H. auto. Qed.

Lemma ledger_records (a b : Game) : ledger a = ledger b -> records a = records b.
Proof.
  intros H. apply ledger_fields in H. unfold records.
  destruct H as (-> & -> & _ & _ & _ & _ & _ & _ & _ & _ & _ & _ & _ & _ & _
                 & _ & -> & -> & -> & _).
  reflexivity.
Qed.

Lemma collectOrb_records (orb : Orb) (g : Game) :
  records (collectOrb orb g) = records g.
Proof. destruct g; reflexivity. Qed.

Lemma touchOrb_records (orb : Orb) (g : Game) :
  records (touchOrb orb g) = records g.
Proof.
  rewrite touchOrb_cases.
  destruct (bool_decide _); [destruct (quizOf orb)|];
    rewrite ?collectOrb_records; destruct g; reflexivity.
Qed.

Lemma handleLoreContinue_records (g : Game) :
  records (handleLoreContinue g) = records g.
Proof.
  rewrite handleLoreContinue_cases.
  destruct (activeOrb g) as [orb|]; [destruct (quizOf orb)|];
    rewrite ?collectOrb_records; destruct g; reflexivity.
Qed.

Lemma executeJump_records (g : Game) : records (executeJump g) = records g.
Proof. apply ledger_records, executeJump_ledger. Qed.

Lemma set_keysRef_records keys (g : Game) :
  records (set_keysRef keys g) = records g.
Proof. destruct g; reflexivity. Qed.

Lemma resetGame_records (toMenu : bool) (g : Game) :
  records (resetGame toMenu g) = records g.
Proof. destruct g; reflexivity. Qed.

Lemma handleKeyDown_records (code : string) (g : Game) :
  records (handleKeyDown code g) = records g.
Proof.
  unfold handleKeyDown. destruct (String.eqb code "Escape").
  - destruct (gameState g), (modalState g), g; reflexivity.
  - destruct (gameState g); try reflexivity.
    + destruct (String.eqb code "Enter");
        [apply resetGame_records|reflexivity].
    + destruct (modalState g); try reflexivity.
      rewrite set_keysRef_records.
      destruct (isJumpKey code); [apply executeJump_records|reflexivity].
Qed.

(** Outside of frames no event sends a score or changes what the page
    was given. *)
Lemma step_records (ev : Event) (g g' : Game) :
  step ev g = Some g' -> (forall cl c, ev <> Frame cl c) ->
  records g' = records g.
Proof.
  intros Hstep Hnf. unfold step in Hstep.
  destruct (offered ev g) eqn:Hoff;
    [|apply (inj Some) in Hstep; now subst g'].
  destruct ev; cbn [handler completed] in Hstep;
    try (now destruct (Hnf cl c));
    apply (inj Some) in Hstep; subst g';
    try apply resetGame_records.
  - apply handleKeyDown_records.
  - unfold handleKeyUp. destruct (isJumpKey code); destruct g; reflexivity.
  - unfold handleInputStart.
    destruct (gameState g), (modalState g); try reflexivity.
    rewrite set_keysRef_records.
    destruct (String.eqb key "Space"); [apply executeJump_records|reflexivity].
  - unfold handleInputEnd.
    destruct (String.eqb key "Space"); destruct g; reflexivity.
  - unfold handleResize. destruct (_ && _); destruct g; reflexivity.
  - destruct g; reflexivity.
  - apply handleLoreContinue_records.
  - unfold handleQuizCorrect. destruct (activeOrb g); [|reflexivity].
    apply collectOrb_records.
  - destruct g; reflexivity.
  - unfold handleGraveAnswer. destruct (graveQuestion g); [|reflexivity].
    destruct (String.eqb _ _); destruct g; reflexivity.
  - destruct g; reflexivity.
  - destruct g; reflexivity.
Qed.

Lemma graveOpened_records (c : Chance) (q : Question) (g : Game) :
  records (graveOpened c q g) = records g.
Proof. destruct g; reflexivity. Qed.

Lemma step_submits (ev : Event) (g g' : Game) :
  step ev g = Some g' ->
  submitted g' = submitted g
  \/ exists cl c,
       ev = Frame cl c /\ ticking cl
       /\ gameState g' = VICTORY
       /\ hasTools (collectedRef g) = true
       /\ submitted g'
          = submitted g
            ++ [mkSubmission (displayName (cl_userName cl))
                  (scoreRef g + 500) true (cl_userId cl)].
Proof.
  intros Hstep.
  destruct ev as [cl c| | | | | | | | | | | | | | | | |];
    try (left; apply (records_fields _ _ (step_records _ g g' Hstep
                                            ltac:(discriminate)))).
  apply frame_outcome in Hstep.
  destruct Hstep as [_|q _ _ _|orb _ _ _ _ _|q _ _ _ _ _
                    |Htick _ _ _ _ Htools|_ _ _ _ _].
  - now left.
  - left. rewrite (proj1 (records_fields _ _ (graveOpened_records c q _))).
    apply (ledger_fields _ _ (integrate_ledger g)).
  - left. rewrite (proj1 (records_fields _ _ (touchOrb_records orb _))).
    apply (ledger_fields _ _ (atOrbs_ledger g)).
  - left. rewrite (proj1 (records_fields _ _ (graveOpened_records c q _))).
    apply (ledger_fields _ _ (atGoal_ledger g)).
  - right. exists cl, c. split; [reflexivity|]. split; [exact Htick|].
    destruct (ledger_fields _ _ (atGoal_ledger g))
      as (_ & _ & _ & _ & _ & _ & _ & _ & _ & _ & _ & L3 & _ & L4 & _ & _
          & L5 & _).
    rewrite <- L3, <- L4, <- L5.
    repeat split; auto; unfold victorious; destruct (atGoal g); reflexivity.
  - left.
    transitivity (submitted (atGoal g));
      [|apply (ledger_fields _ _ (atGoal_ledger g))].
    unfold warned. destruct (_ && _); destruct (atGoal g); reflexivity.
Qed.

(** X11: a score is sent to the leaderboard only by a run of a frame
    callback that ends in VICTORY, with the required tools all collected;
    it sends one score, the running score plus 500, marked as completed,
    under the name and the user id the callback captured.  No other
    event sends anything, or withdraws what was sent. *)
Theorem leaderboard_only_on_victory (ev : Event) (g g' : Game) :
  step ev g = Some g' ->
  submitted g' = submitted g
  \/ exists cl c,
       ev = Frame cl c /\ ticking cl
       /\ gameState g' = VICTORY
       /\ hasTools (collectedRef g) = true
       /\ submitted g'
          = submitted g
            ++ [mkSubmission (displayName (cl_userName cl))
                  (scoreRef g + 500) true (cl_userId cl)].
Proof. exact (step_submits ev g g'). Qed.

Lemma leaderboard_only_on_victory_witness :
  exists g',
    step (Frame sampleClosure sampleChance) sampleBySkirret = Some g'
    /\ submitted g' = submitted sampleBySkirret.
Proof.
  eexists. split; [vm_compute; reflexivity|].
  edestruct (leaderboard_only_on_victory (Frame sampleClosure sampleChance)
               sampleBySkirret) as [H|(cl & c & _ & _ & H & _)].
  - vm_compute. reflexivity.
  - exact H.
  - discriminate H.
Defined.

(** ** Victory *)

(** X12: VICTORY has one way out.  Once the run is won no key, button
    or timer changes the game state, the score, the collected set or
    what was sent to the leaderboard, except the return to the menu,
    which is the full reset to START. *)
Theorem victory_is_terminal (ev : Event) (g g' : Game) :
  gameState g = VICTORY -> modalState g = NONE ->
  (forall cl c, ev <> Frame cl c) -> step ev g = Some g' ->
  (ev = ClickReturnToMenu /\ g' = resetGame true g /\ gameState g' = START)
  \/ (gameState g' = VICTORY /\ modalState g' = NONE
      /\ score g' = score g /\ collectedIds g' = collectedIds g
      /\ submitted g' = submitted g).
Proof.
  intros Hs Hm Hnf Hstep. unfold step in Hstep.
  destruct (offered ev g) eqn:Hoff;
    [|apply (inj Some) in Hstep; subst g'; right; auto].
  destruct ev; cbn [offered handler completed] in *;
    unfold graveShows, inState, inModal in Hoff; rewrite ?Hs, ?Hm in Hoff;
    cbn [andb] in Hoff; try discriminate;
    try (now destruct (Hnf cl c));
    apply (inj Some) in Hstep; subst g'.
  - right. unfold handleKeyDown. rewrite Hs.
    destruct (String.eqb code "Escape"); auto.
  - right. unfold handleKeyUp.
    destruct (isJumpKey code); destruct g; auto.
  - right. unfold handleResize. destruct (_ && _); destruct g; auto.
  - right. destruct g; auto.
  - left. repeat split.
Qed.

Lemma victory_is_terminal_witness :
  gameState (handleKeyDown "Enter" sampleWon) = VICTORY.
Proof.
  destruct (victory_is_terminal (KeyDown "Enter") sampleWon
              (handleKeyDown "Enter" sampleWon)) as [(H & _)|(H & _)].
  - vm_compute. reflexivity.
  - vm_compute. reflexivity.
  - discriminate.
  - reflexivity.
  - discriminate H.
  - exact H.
Defined.

(** ** Triggers *)

Lemma touchOrb_fields (orb : Orb) (g : Game) :
  let g' := touchOrb orb g in
  gameState g' = gameState g
  /\ p_vx (playerRef g') = 0 /\ p_vy (playerRef g') = 0
  /\ p_x (playerRef g') = p_x (playerRef g)
  /\ p_y (playerRef g') = p_y (playerRef g)
  /\ keysRef g' = ∅
  /\ enemiesRef g' = enemiesRef g /\ cameraRef g' = cameraRef g
  /\ submitted g' = submitted g
  /\ lastCheckpointRef g' = lastCheckpointRef g
  /\ (modalState g' = NONE -> orb_id orb ∈ collectedRef g').
Proof.
  cbv zeta. rewrite touchOrb_cases.
  destruct (bool_decide _); [destruct (quizOf orb)|].
  - destruct g as [? ? ? ? ? ? ? ? ? ? ? ? ? ? ? ? ? ? ? ? ? ? ? p ?].
    destruct p. repeat split. discriminate.
  - destruct g as [? ? ? ? ? ? ? ? ? ? ? ? ? ? ? ? ? ? ? ? ? ? ? p ?].
    destruct p. repeat split. intros _.
    apply elem_of_union_r, elem_of_singleton. reflexivity.
  - destruct g as [? ? ? ? ? ? ? ? ? ? ? ? ? ? ? ? ? ? ? ? ? ? ? p ?].
    destruct p. repeat split. discriminate.
Qed.

Lemma executeJump_enemies (g : Game) :
  enemiesRef (executeJump g) = enemiesRef g.
Proof. unfold executeJump. destruct (_ || _); destruct g; reflexivity. Qed.

Lemma bufferedJump_enemies (g : Game) :
  enemiesRef (bufferedJump g) = enemiesRef g.
Proof.
  unfold bufferedJump.
  destruct (p_isGrounded (playerRef g) && (0 <? jumpBufferRef g)%Z).
  - destruct (0 <? jumpBufferRef (executeJump g))%Z;
      [rewrite <- (executeJump_enemies g); destruct (executeJump g)
      |apply executeJump_enemies]; reflexivity.
  - destruct (0 <? jumpBufferRef g)%Z; destruct g; reflexivity.
Qed.

Lemma atOrbs_enemies (g : Game) : enemiesRef (atOrbs g) = enemiesRef g.
Proof.
  unfold atOrbs, settle. rewrite bufferedJump_enemies.
  destruct g; reflexivity.
Qed.

(** X13: the orb trigger ends the frame.  A run of a frame callback in
    which the player touches an active orb stops the player where the
    collision pass left it, drops the held keys and leaves the game state
    as it is; the enemies do not move in that frame, the camera does not
    move, the goal is not tested and nothing is sent; and unless the orb
    is collected on the spot a modal is open when the frame ends. *)
Theorem orb_trigger_ends_frame (cl : Closure) (c : Chance) (g : Game)
    (orb : Orb) :
  ticking cl ->
  fellOut (playerRef (integrate g)) = false ->
  orb ∈ frameOrbs (collectedRef g) -> orb_active orb = true ->
  touchesOrb (playerRef (atOrbs g)) orb = true ->
  exists g' first,
    step (Frame cl c) g = Some g'
    /\ g' = touchOrb first (atOrbs g)
    /\ first ∈ frameOrbs (collectedRef g)
    /\ gameState g' = gameState g
    /\ p_vx (playerRef g') = 0 /\ p_vy (playerRef g') = 0
    /\ p_x (playerRef g') = p_x (playerRef (atOrbs g))
    /\ p_y (playerRef g') = p_y (playerRef (atOrbs g))
    /\ keysRef g' = ∅
    /\ enemiesRef g' = enemiesRef g /\ cameraRef g' = cameraRef g
    /\ submitted g' = submitted g
    /\ (modalState g' = NONE -> orb_id first ∈ collectedRef g').
Proof.
  intros (Hs & Hm & Hd) Hfell Hin Hact Htouch.
  destruct (orbLoop_cases (frameOrbs (collectedRef g)) (atOrbs g))
    as [E|(first & Hfin & _ & _ & E)].
  { apply orbLoop_Normal in E as [_ Hall]. rewrite Forall_forall in Hall.
    destruct (Hall orb Hin); congruence. }
  exists (touchOrb first (atOrbs g)), first.
  destruct (touchOrb_fields first (atOrbs g))
    as (T1 & T2 & T3 & T4 & T5 & T6 & T7 & T8 & T9 & _ & T11).
  pose proof (atOrbs_enemies g) as Henemies.
  destruct (ledger_fields _ _ (atOrbs_ledger g))
    as (_ & _ & _ & L1 & _ & _ & _ & _ & _ & _ & _ & _ & _ & _ & _ & _ & L2
        & _ & _ & L3).
  split.
  { unfold step. cbn [offered]. rewrite Hs, Hm.
    cbn [subscribes handler]. unfold frame.
    unfold loop. unfold sized in Hd. rewrite Hd.
    rewrite (untilGoal_cases cl c g Hs), Hfell, E.
    now rewrite !andThen_Return. }
  rewrite T1, T2, T3, T4, T5, T6, T7, T8, T9, L1, L2, L3, Henemies.
  repeat split; auto.
Qed.

Lemma orb_trigger_ends_frame_witness :
  exists g',
    step (Frame sampleClosure sampleChance) sampleBySkirret = Some g'
    /\ gameState g' = gameState sampleBySkirret
    /\ enemiesRef g' = enemiesRef sampleBySkirret.
Proof.
  edestruct (orb_trigger_ends_frame sampleClosure sampleChance
               sampleBySkirret (skirret ∅))
    as (g' & first & H1 & _ & _ & H2 & _ & _ & _ & _ & _ & H3 & _).
  - repeat split.
  - vm_compute. reflexivity.
  - apply list_elem_of_here.
  - reflexivity.
  - vm_compute. reflexivity.
  - exists g'. auto.
Defined.

(** X14: contact with an enemy kills.  In a run of a frame callback that
    touches no orb, an enemy that overlaps the player after its move opens
    the grave with a question of the death pool; the player stops, the
    held keys are dropped, the enemies after that one have not moved, the
    camera has not moved, and the goal is not tested: nothing is sent to
    the leaderboard even if the player stands at the goal with every
    tool. *)
Theorem enemy_contact_opens_grave (cl : Closure) (c : Chance) (g : Game) :
  ticking cl -> 0 <= ch_random c < 1 ->
  fellOut (playerRef (integrate g)) = false ->
  orbLoop (frameOrbs (collectedRef g)) (atOrbs g) = Normal (atOrbs g) ->
  (enemyLoop (playerRef (atOrbs g)) (enemiesRef g)).2 = true ->
  exists g' q,
    step (Frame cl c) g = Some g'
    /\ gameState g' = GRAVE
    /\ q ∈ QUESTIONS /\ graveQuestion g' = Some q
    /\ p_vx (playerRef g') = 0 /\ p_vy (playerRef g') = 0
    /\ keysRef g' = ∅
    /\ enemiesRef g' = (enemyLoop (playerRef (atOrbs g)) (enemiesRef g)).1
    /\ cameraRef g' = cameraRef g
    /\ submitted g' = submitted g
    /\ score g' = score g /\ collectedIds g' = collectedIds g.
Proof.
  intros (Hs & Hm & Hd) Hr Hfell Horb Hhit.
  destruct (pickGraveQuestion_in_pool c Hr) as (q & Hq & Hin).
  exists (graveOpened c q (atGoal g)), q.
  assert (Hgoal : atGoal g
                  = set_enemiesRef
                      (enemyLoop (playerRef (atOrbs g)) (enemiesRef g)).1
                      (atOrbs g))
    by (unfold atGoal; cbv zeta; now rewrite atOrbs_enemies).
  split.
  { unfold step. cbn [offered]. rewrite Hs, Hm.
    cbn [subscribes handler]. unfold frame.
    unfold loop. unfold sized in Hd. rewrite Hd.
    rewrite (untilGoal_cases cl c g Hs), Hfell, Horb, andThen_Normal.
    pose proof (enemyPhase_cases cl c (atOrbs g) Hs) as Hen.
    cbv zeta in Hen.
    fold (atGoal g) in Hen. rewrite Hen, Hq; clear Hen.
    rewrite atOrbs_enemies, Hhit. now rewrite !andThen_Return. }
  destruct (graveOpened_fields c q (atGoal g))
    as (E1 & _ & _ & _ & E5 & _ & _ & E8 & _ & E10 & _ & _ & _ & E14 & E15
        & E16 & _ & E18 & E19 & _).
  destruct (ledger_fields _ _ (atGoal_ledger g))
    as (_ & _ & _ & _ & _ & _ & _ & _ & _ & _ & L1 & _ & L2 & _ & _ & _ & L3
        & _ & _ & L4).
  rewrite E1, E5, E8, E10, E14, E15, E16, E18, E19, L1, L2, L3, L4.
  repeat split; auto. rewrite Hgoal. destruct (atOrbs g); reflexivity.
Qed.

Lemma enemy_contact_opens_grave_witness :
  exists g',
    step (Frame sampleClosure sampleChance) sampleByEnemy = Some g'
    /\ gameState g' = GRAVE.
Proof.
  edestruct (enemy_contact_opens_grave sampleClosure sampleChance
               sampleByEnemy)
    as (g' & q & H1 & H2 & _).
  - repeat split.
  - cbn. lra.
  - vm_compute. reflexivity.
  - vm_compute. reflexivity.
  - vm_compute. reflexivity.
  - exists g'. auto.
Defined.

(** ** World bounds *)

(** X15: the world-bound clamp puts the player between the left edge of
    the world and the last position at which it still fits, leaves a
    player that is already there untouched, and zeroes the horizontal
    velocity whenever it moves the player. *)
Theorem worldBounds_clamps (p : Player) :
  p_width p <= WORLD_WIDTH ->
  let p' := worldBounds p in
  0 <= p_x p' /\ p_x p' <= WORLD_WIDTH - p_width p'
  /\ (0 <= p_x p /\ p_x p <= WORLD_WIDTH - p_width p -> p' = p)
  /\ (p_x p' <> p_x p -> p_vx p' = 0)
  /\ p_y p' = p_y p /\ p_width p' = p_width p.
Proof.
  intros Hw. cbv zeta. unfold worldBounds, Qgtb.
  destruct (Qltb_spec (p_x p) 0) as [H0|H0]; cbn [p_x p_width set_p_x set_p_vx];
    match goal with
    | |- context [Qltb ?a ?b] => destruct (Qltb_spec a b) as [H1|H1]
    end; destruct p; cbn [p_x p_y p_vx p_width set_p_x set_p_vx] in *;
    repeat split; try lra; try reflexivity; try (intros; exfalso; lra);
    try (intros Hne; exfalso; now apply Hne).
Qed.

Lemma worldBounds_clamps_witness :
  0 <= p_x (worldBounds (mkPlayer (-3) 276 30 44 (-3) 0 true (-1) 0 6)).
Proof.
  apply (worldBounds_clamps (mkPlayer (-3) 276 30 44 (-3) 0 true (-1) 0 6)).
  vm_compute. discriminate.
Defined.

(** ** Camera *)

(** X16: the camera never leaves the band it is clamped to and never
    overshoots.  When the view is not wider than the world and the
    vertical band is not empty, a camera inside [[0, WORLD_WIDTH - viewW]]
    by [[minY, maxY]] is still inside after a frame, and each of its
    coordinates has moved towards the clamped target without passing the
    old position or the target. *)
Theorem camera_stays_in_band (dims : Dimensions) (bounds : Bounds)
    (p : Player) (cam : Point) :
  let viewW := dim_w dims / (dim_h dims / DESIGN_HEIGHT) in
  viewW <= WORLD_WIDTH -> b_minY bounds <= b_maxY bounds ->
  0 <= pt_x cam <= WORLD_WIDTH - viewW ->
  b_minY bounds <= pt_y cam <= b_maxY bounds ->
  let cam' := follow dims bounds p cam in
  let targetX :=
    Qmax 0 (Qmin (p_x p - viewW / 2 + p_width p / 2) (WORLD_WIDTH - viewW)) in
  let targetY :=
    Qmax (b_minY bounds) (Qmin (p_y p - DESIGN_HEIGHT / 2) (b_maxY bounds)) in
  0 <= pt_x cam' <= WORLD_WIDTH - viewW
  /\ b_minY bounds <= pt_y cam' <= b_maxY bounds
  /\ Qmin (pt_x cam) targetX <= pt_x cam' <= Qmax (pt_x cam) targetX
  /\ Qmin (pt_y cam) targetY <= pt_y cam' <= Qmax (pt_y cam) targetY.
Proof.
  intros viewW Hview Hband Hx Hy. cbv zeta. unfold follow.
  fold viewW. cbn [pt_x pt_y].
  set (tx := Qmax 0 _). set (ty := Qmax (b_minY bounds) _).
  assert (Htx : 0 <= tx <= WORLD_WIDTH - viewW).
  { unfold tx.
    destruct (Q.max_spec 0 (Qmin (p_x p - viewW / 2 + p_width p / 2)
                              (WORLD_WIDTH - viewW))) as [[? E]|[? E]];
      rewrite E;
      pose proof (Q.le_min_r (p_x p - viewW / 2 + p_width p / 2)
                    (WORLD_WIDTH - viewW)); lra. }
  assert (Hty : b_minY bounds <= ty <= b_maxY bounds).
  { unfold ty.
    destruct (Q.max_spec (b_minY bounds)
                (Qmin (p_y p - DESIGN_HEIGHT / 2) (b_maxY bounds)))
      as [[? E]|[? E]]; rewrite E;
      pose proof (Q.le_min_r (p_y p - DESIGN_HEIGHT / 2) (b_maxY bounds));
      lra. }
  clearbody tx ty.
  destruct (Q.min_spec (pt_x cam) tx) as [[? E1]|[? E1]];
    destruct (Q.max_spec (pt_x cam) tx) as [[? E2]|[? E2]];
    destruct (Q.min_spec (pt_y cam) ty) as [[? E3]|[? E3]];
    destruct (Q.max_spec (pt_y cam) ty) as [[? E4]|[? E4]];
    rewrite E1, E2, E3, E4; repeat split; lra.
Qed.

Lemma camera_stays_in_band_witness :
  0 <= pt_x (follow (mkDimensions 800 600) (levelBounds initialPlatforms)
               initialPlayer (mkPoint 0 0)).
Proof.
  apply (camera_stays_in_band (mkDimensions 800 600)
           (levelBounds initialPlatforms) initialPlayer (mkPoint 0 0));
    vm_compute; try split; discriminate.
Defined.

(** ** Jumping *)

(** X17: there is no double jump.  A jump asked for on the ground or within
    coyote time launches the player with [JUMP_FORCE], takes it off the
    ground and spends the coyote time; a second request right after it
    leaves the player as it is and is only buffered for six frames. *)
Theorem no_double_jump (g : Game) :
  p_isGrounded (playerRef g) = true
  \/ (0 < p_coyoteTimer (playerRef g))%Z ->
  let g1 := executeJump g in
  let g2 := executeJump g1 in
  p_vy (playerRef g1) = JUMP_FORCE
  /\ p_isGrounded (playerRef g1) = false
  /\ p_jumpCount (playerRef g1) = 1%Z
  /\ p_coyoteTimer (playerRef g1) = 0%Z
  /\ jumpBufferRef g1 = 0%Z
  /\ playerRef g2 = playerRef g1
  /\ jumpBufferRef g2 = 6%Z.
Proof.
  intros Hcan. cbv zeta.
  assert (Htest : p_isGrounded (playerRef g)
                  || (0 <? p_coyoteTimer (playerRef g))%Z = true).
  { destruct Hcan as [-> | H]; [reflexivity|].
    apply Z.ltb_lt in H. rewrite H. apply orb_true_r. }
  destruct g as [? ? ? ? ? ? ? ? ? ? ? ? ? ? ? ? ? ? ? ? ? ? ? p ?].
  destruct p. cbn [playerRef p_isGrounded p_coyoteTimer] in Htest.
  clear Hcan. unfold executeJump.
  cbn [playerRef p_isGrounded p_coyoteTimer]. rewrite Htest.
  cbn. repeat split; reflexivity.
Qed.

Lemma no_double_jump_witness :
  p_vy (playerRef (executeJump sampleStanding)) = JUMP_FORCE.
Proof.
  apply (no_double_jump sampleStanding). left. vm_compute. reflexivity.
Defined.

Lemma bufferedJump_lands (g : Game) :
  p_isGrounded (playerRef g) = true -> (0 <? jumpBufferRef g)%Z = true ->
  playerRef (bufferedJump g)
  = set_p_coyoteTimer 0
      (set_p_jumpCount 1
        (set_p_isGrounded false (set_p_vy JUMP_FORCE (playerRef g))))
  /\ jumpBufferRef (bufferedJump g) = 0%Z.
Proof.
  destruct g as [? ? ? ? ? ? ? ? ? ? ? ? ? ? ? ? ? jb ? ? ? ? ? p ?].
  destruct p. cbn [playerRef jumpBufferRef p_isGrounded]. intros -> Hbuf.
  unfold bufferedJump, executeJump.
  cbn [playerRef jumpBufferRef p_isGrounded]. rewrite Hbuf.
  cbn. split; reflexivity.
Qed.

Lemma bufferedJump_airborne (g : Game) :
  p_isGrounded (playerRef g) = false -> (0 <? jumpBufferRef g)%Z = true ->
  playerRef (bufferedJump g) = playerRef g
  /\ jumpBufferRef (bufferedJump g) = (jumpBufferRef g - 1)%Z.
Proof.
  destruct g as [? ? ? ? ? ? ? ? ? ? ? ? ? ? ? ? ? jb ? ? ? ? ? p ?].
  destruct p. cbn [playerRef jumpBufferRef p_isGrounded]. intros -> Hbuf.
  unfold bufferedJump.
  cbn [playerRef jumpBufferRef p_isGrounded andb]. rewrite Hbuf.
  cbn. split; reflexivity.
Qed.

Lemma settle_stages (g : Game) :
  exists g1,
    settle g = bufferedJump g1
    /\ playerRef g1
       = coyote (collide (platformsRef g) (worldBounds (playerRef g)))
    /\ jumpBufferRef g1 = jumpBufferRef g
    /\ ledger g1 = ledger g
    /\ enemiesRef g1 = enemiesRef g.
Proof.
  destruct g. eexists. split; [reflexivity|]. repeat split; reflexivity.
Qed.

Lemma coyote_grounded (p : Player) :
  p_isGrounded (coyote p) = p_isGrounded p /\ p_vy (coyote p) = p_vy p.
Proof.
  unfold coyote. destruct p as [? ? ? ? ? ? gr ? ? ct]; cbn.
  destruct gr; [split; reflexivity|].
  destruct (0 <? ct)%Z; split; reflexivity.
Qed.

(** X18: a buffered jump fires on landing and otherwise runs down.  With a
    jump in the buffer, a frame whose collision pass leaves the player on
    the ground launches it at once and empties the buffer; a frame that
    leaves it in the air only takes one frame off the buffer. *)
Theorem buffered_jump_fires_on_landing (g : Game) :
  (0 < jumpBufferRef g)%Z ->
  let landed := collide (platformsRef g) (worldBounds (playerRef g)) in
  let g' := settle g in
  (p_isGrounded landed = true ->
     p_vy (playerRef g') = JUMP_FORCE
     /\ p_isGrounded (playerRef g') = false
     /\ jumpBufferRef g' = 0%Z)
  /\ (p_isGrounded landed = false ->
     p_vy (playerRef g') = p_vy landed
     /\ p_isGrounded (playerRef g') = false
     /\ jumpBufferRef g' = (jumpBufferRef g - 1)%Z).
Proof.
  intros Hbuf. cbv zeta. apply Z.ltb_lt in Hbuf.
  destruct (settle_stages g) as (g1 & -> & Hp & Hjb & _ & _).
  destruct (coyote_grounded
              (collide (platformsRef g) (worldBounds (playerRef g))))
    as [Hgr Hvy].
  rewrite <- Hp in Hgr, Hvy. rewrite <- Hjb in Hbuf |- *.
  split; intros Hland; rewrite Hland in Hgr.
  - destruct (bufferedJump_lands g1 Hgr Hbuf) as [-> ->].
    destruct (playerRef g1). cbn. repeat split; reflexivity.
  - destruct (bufferedJump_airborne g1 Hgr Hbuf) as [-> ->].
    repeat split; assumption.
Qed.

Lemma buffered_jump_fires_on_landing_witness :
  (p_isGrounded
     (collide (platformsRef sampleLanding)
        (worldBounds (playerRef sampleLanding))) = true ->
   p_vy (playerRef (settle sampleLanding)) = JUMP_FORCE
   /\ p_isGrounded (playerRef (settle sampleLanding)) = false
   /\ jumpBufferRef (settle sampleLanding) = 0%Z)
  /\ p_isGrounded
       (collide (platformsRef sampleLanding)
          (worldBounds (playerRef sampleLanding))) = true.
Proof.
  split.
  - apply (buffered_jump_fires_on_landing sampleLanding).
    vm_compute. reflexivity.
  - vm_compute. reflexivity.
Defined.

(** ** Counters and patrols over a whole session *)

Lemma marks_steady (a b : Player) :
  marks a = marks b -> steadyPlayer b -> steadyPlayer a.
Proof.
  unfold marks, steadyPlayer. intros H.
  assert (H1 : p_coyoteTimer a = p_coyoteTimer b) by congruence.
  assert (H2 : p_jumpCount a = p_jumpCount b) by congruence.
  assert (H3 : p_facing a = p_facing b) by congruence.
  assert (H4 : p_width a = p_width b) by congruence.
  assert (H5 : p_height a = p_height b) by congruence.
  rewrite H1, H2, H3, H4, H5. exact id.
Qed.

Lemma body_orderly (a b : Game) : body a = body b -> orderly b -> orderly a.
Proof.
  intros H [[Hp Hjb] He].
  assert (Hm : marks (playerRef a) = marks (playerRef b))
    by (unfold body in H; congruence).
  assert (Hj : jumpBufferRef a = jumpBufferRef b)
    by (unfold body in H; congruence).
  assert (Hen : enemiesRef a = enemiesRef b)
    by (unfold body in H; congruence).
  unfold orderly, steady. rewrite Hj, Hen.
  split; [split; [exact (marks_steady _ _ Hm Hp)|exact Hjb]|exact He].
Qed.

Lemma steer_steady keys (p : Player) :
  steadyPlayer p -> steadyPlayer (steer keys p).
Proof.
  unfold steadyPlayer, steer.
  destruct (held keys "ArrowLeft" || held keys "KeyA"),
           (held keys "ArrowRight" || held keys "KeyD"); cbn; intuition.
Qed.

Lemma clampSpeed_marks (p : Player) : marks (clampSpeed p) = marks p.
Proof.
  unfold clampSpeed. destruct (Qgtb (p_vx p) MOVE_SPEED); cbn [p_vx set_p_vx];
    match goal with |- context [Qltb ?a ?b] => destruct (Qltb a b) end;
    reflexivity.
Qed.

Lemma applyFriction_marks (p : Player) : marks (applyFriction p) = marks p.
Proof.
  unfold applyFriction. cbn [p_vx set_p_vx].
  match goal with |- context [Qltb ?a ?b] => destruct (Qltb a b) end;
    reflexivity.
Qed.

Lemma horizontal_steady keys (p : Player) :
  steadyPlayer p -> steadyPlayer (horizontal keys p).
Proof.
  intros H. unfold horizontal.
  apply (marks_steady _ (steer keys p)); [|now apply steer_steady].
  transitivity (marks (applyFriction (clampSpeed (steer keys p))));
    [reflexivity|].
  rewrite applyFriction_marks. apply clampSpeed_marks.
Qed.

Lemma worldBounds_marks (p : Player) : marks (worldBounds p) = marks p.
Proof.
  unfold worldBounds. destruct (Qltb (p_x p) 0); cbn [p_x p_width set_p_x set_p_vx];
    match goal with |- context [Qgtb ?a ?b] => destruct (Qgtb a b) end;
    reflexivity.
Qed.

Lemma cutJump_marks (p : Player) : marks (cutJump p) = marks p.
Proof. unfold cutJump. destruct (Qltb (p_vy p) 0); reflexivity. Qed.

Lemma pushOut_steady (p : Player) (plat : Platform) :
  steadyPlayer p -> steadyPlayer (pushOut p plat).
Proof.
  unfold pushOut. cbv zeta. destruct (resolvedAxis p plat).
  - intros H. apply (marks_steady _ p); [|exact H].
    destruct (Qltb _ _); reflexivity.
  - destruct (Qltb _ _); unfold steadyPlayer; cbn; intuition.
Qed.

Lemma collide_steady (platforms : list Platform) (p : Player) :
  steadyPlayer p -> steadyPlayer (collide platforms p).
Proof.
  unfold collide. intros H.
  assert (H0 : steadyPlayer (set_p_isGrounded false p)) by exact H.
  revert H0. generalize (set_p_isGrounded false p). clear.
  induction platforms as [|plat rest IH]; intros p H; cbn [fold_left];
    [exact H|].
  apply IH. unfold resolve.
  destruct (overlapsPlatform p plat); [now apply pushOut_steady|exact H].
Qed.

Lemma coyote_steady (p : Player) : steadyPlayer p -> steadyPlayer (coyote p).
Proof.
  unfold coyote, steadyPlayer. destruct (p_isGrounded p); cbn; [intuition lia|].
  destruct (0 <? p_coyoteTimer p)%Z eqn:E; cbn; [|exact id].
  apply Z.ltb_lt in E. intuition lia.
Qed.

Lemma resetPlayer_steady (x y : Q) (p : Player) :
  steadyPlayer p -> steadyPlayer (resetPlayer x y p).
Proof. unfold steadyPlayer, resetPlayer. cbn. intuition lia. Qed.

Lemma executeJump_orderly (g : Game) : orderly g -> orderly (executeJump g).
Proof.
  unfold executeJump, orderly, steady, steadyPlayer.
  destruct (_ || _); cbn; intuition lia.
Qed.

Lemma bufferedJump_orderly (g : Game) : orderly g -> orderly (bufferedJump g).
Proof.
  intros H. unfold bufferedJump.
  set (g1 := if p_isGrounded (playerRef g) && (0 <? jumpBufferRef g)%Z
             then executeJump g else g).
  assert (H1 : orderly g1)
    by (unfold g1; destruct (_ && _); [now apply executeJump_orderly|exact H]).
  clearbody g1. destruct (0 <? jumpBufferRef g1)%Z eqn:E; [|exact H1].
  apply Z.ltb_lt in E. revert H1. unfold orderly, steady. cbn. intuition lia.
Qed.

Lemma set_playerRef_orderly (p : Player) (g : Game) :
  steadyPlayer p -> orderly g -> orderly (set_playerRef p g).
Proof. unfold orderly, steady. cbn. intuition. Qed.

Lemma integrate_orderly (g : Game) : orderly g -> orderly (integrate g).
Proof.
  intros H. unfold integrate. apply set_playerRef_orderly; [|exact H].
  apply (marks_steady _ (horizontal (keysRef g) (playerRef g)));
    [reflexivity|]. apply horizontal_steady, H.
Qed.

Lemma settle_orderly (g : Game) : orderly g -> orderly (settle g).
Proof.
  intros H. destruct (settle_stages g) as (g1 & -> & Hp & Hjb & _ & He).
  apply bufferedJump_orderly. destruct H as [[Hs Hb] Hg].
  unfold orderly, steady. rewrite Hp, Hjb, He.
  split; [split; [|exact Hb]|exact Hg].
  apply coyote_steady, collide_steady.
  apply (marks_steady _ _ (worldBounds_marks _) Hs).
Qed.

Lemma atOrbs_orderly (g : Game) : orderly g -> orderly (atOrbs g).
Proof. intros H. apply settle_orderly, integrate_orderly, H. Qed.

Lemma patrol_garrisoned (e : EnemyState) :
  patrolSpan e -> heading e ->
  patrolSpan (patrol e) /\ withinPatrol (patrol e) /\ heading (patrol e).
Proof.
  intros Hs Hh. destruct (patrol_patrolled e Hs) as [[E1 E2] Hw Hlow Hhigh Hfree _].
  split; [unfold patrolSpan in *; rewrite E1, E2; exact Hs|].
  split; [exact Hw|]. unfold heading.
  destruct (Qlt_le_dec (advanced e) (en_minX e)) as [L|L].
  - left. apply (Hlow L).
  - destruct (Qlt_le_dec (en_maxX e) (advanced e)) as [R|R].
    + right. apply (Hhigh R).
    + destruct (Hfree (conj L R)) as [_ ->]. exact Hh.
Qed.

Lemma enemyLoop_garrisoned (p : Player) (enemies : list EnemyState) :
  garrisoned enemies -> garrisoned (enemyLoop p enemies).1.
Proof.
  unfold garrisoned. induction enemies as [|e rest IH]; intros (Hs & Hw & Hh).
  - cbn. repeat split; constructor.
  - inversion Hs as [|? ? Hs1 Hs2]; inversion Hw as [|? ? Hw1 Hw2];
      inversion Hh as [|? ? Hh1 Hh2]; subst.
    destruct (patrol_garrisoned e Hs1 Hh1) as (Ps & Pw & Ph).
    cbn [enemyLoop]. destruct (hitsEnemy p (patrol e)); cbn [fst].
    + repeat split; constructor; assumption.
    + destruct (IH (conj Hs2 (conj Hw2 Hh2))) as (Is & Iw & Ih).
      destruct (enemyLoop p rest) as [rest' hit]. cbn [fst] in *.
      repeat split; constructor; assumption.
Qed.

Lemma set_enemiesRef_orderly (enemies : list EnemyState) (g : Game) :
  steady g -> garrisoned enemies -> orderly (set_enemiesRef enemies g).
Proof. intros Hs Hg. split; [exact Hs|exact Hg]. Qed.

Lemma atGoal_orderly (g : Game) : orderly g -> orderly (atGoal g).
Proof.
  intros H. apply atOrbs_orderly in H. unfold atGoal. cbv zeta.
  destruct H as [Hs Hg].
  apply set_enemiesRef_orderly; [exact Hs|].
  apply enemyLoop_garrisoned, Hg.
Qed.

Lemma graveOpened_body (c : Chance) (q : Question) (g : Game) :
  body (graveOpened c q g) = body g.
Proof. reflexivity. Qed.

Lemma collectOrb_body (orb : Orb) (g : Game) : body (collectOrb orb g) = body g.
Proof. destruct g; reflexivity. Qed.

Lemma touchOrb_body (orb : Orb) (g : Game) : body (touchOrb orb g) = body g.
Proof.
  rewrite touchOrb_cases.
  destruct (bool_decide _); [destruct (quizOf orb)|];
    rewrite ?collectOrb_body; reflexivity.
Qed.

Lemma handleLoreContinue_body (g : Game) :
  body (handleLoreContinue g) = body g.
Proof.
  rewrite handleLoreContinue_cases.
  destruct (activeOrb g) as [orb|]; [destruct (quizOf orb)|];
    rewrite ?collectOrb_body; reflexivity.
Qed.

Lemma warned_body (cl : Closure) (g : Game) :
  body (warned cl g) = body g.
Proof. unfold warned. destruct (_ && _); reflexivity. Qed.

Lemma victorious_body (cl : Closure) (g : Game) :
  body (victorious cl g) = body g.
Proof. reflexivity. Qed.

Lemma cameraPhase_body (cl : Closure) (g : Game) :
  body (cameraPhase cl g) = body g.
Proof. reflexivity. Qed.

Lemma initialEnemies_garrisoned : garrisoned initialEnemies.
Proof.
  unfold garrisoned, initialEnemies, patrolSpan, withinPatrol, heading.
  cbn. repeat split; repeat constructor; cbn; try lra; try discriminate.
Qed.

Lemma resetGame_orderly (toMenu : bool) (g : Game) :
  orderly g -> orderly (resetGame toMenu g).
Proof.
  intros [[Hs Hjb] _]. split; [split|].
  - exact (resetPlayer_steady _ _ _ Hs).
  - exact Hjb.
  - exact initialEnemies_garrisoned.
Qed.

Lemma respawnAtCheckpoint_orderly (g : Game) :
  orderly g -> orderly (respawnAtCheckpoint g).
Proof.
  intros [[Hs Hjb] He]. split; [split|].
  - exact (resetPlayer_steady _ _ _ Hs).
  - exact Hjb.
  - exact He.
Qed.

Lemma keyed_orderly (jump : bool) (k : string) (g : Game) :
  orderly g ->
  orderly (let g := if jump then executeJump g else g in
           set_keysRef (<[ k := true ]> (keysRef g)) g).
Proof.
  intros H. cbv zeta.
  apply (body_orderly _ (if jump then executeJump g else g)); [reflexivity|].
  destruct jump; [now apply executeJump_orderly|exact H].
Qed.

Lemma released_orderly (cut : bool) (k : string) (g : Game) :
  orderly g ->
  orderly (let g := set_keysRef (<[ k := false ]> (keysRef g)) g in
           if cut then set_playerRef (cutJump (playerRef g)) g else g).
Proof.
  intros H. cbv zeta. destruct cut; [|exact H].
  apply set_playerRef_orderly; [|exact H].
  apply (marks_steady _ _ (cutJump_marks _)), H.
Qed.

(** Every event keeps the counters of the player in range and the
    enemies on their patrols. *)
Lemma step_orderly (ev : Event) (g g' : Game) :
  orderly g -> step ev g = Some g' -> orderly g'.
Proof.
  intros H Hstep.
  destruct ev as [cl c| | | | | | | | | | | | | | | | |].
  { apply frame_outcome in Hstep.
    destruct Hstep as [_|q _ _ _|orb _ _ _ _ _|q _ _ _ _ _|_ _ _ _ _ _
                      |_ _ _ _ _].
    - exact H.
    - apply (body_orderly _ _ (graveOpened_body c q _)).
      now apply integrate_orderly.
    - apply (body_orderly _ _ (touchOrb_body orb _)).
      now apply atOrbs_orderly.
    - apply (body_orderly _ _ (graveOpened_body c q _)).
      now apply atGoal_orderly.
    - apply (body_orderly _ _ (victorious_body _ _)).
      now apply atGoal_orderly.
    - apply (body_orderly _ _ (cameraPhase_body _ _)).
      apply (body_orderly _ _ (warned_body _ _)).
      now apply atGoal_orderly. }
  all: unfold step in Hstep;
    (destruct (offered _ g) eqn:Hoff;
     [|apply (inj Some) in Hstep; now subst g']);
    cbn [handler completed] in Hstep;
    apply (inj Some) in Hstep; subst g'.
  - unfold handleKeyDown. destruct (String.eqb code "Escape").
    + destruct (gameState g), (modalState g); exact H.
    + destruct (gameState g); try exact H.
      * destruct (String.eqb code "Enter");
          [now apply resetGame_orderly|exact H].
      * destruct (modalState g); try exact H.
        now apply (keyed_orderly (isJumpKey code) code g).
  - now apply (released_orderly (isJumpKey code) code g).
  - unfold handleInputStart.
    destruct (gameState g), (modalState g); try exact H.
    now apply (keyed_orderly (String.eqb key "Space") key g).
  - now apply (released_orderly (String.eqb key "Space") key g).
  - unfold handleResize. destruct (_ && _); exact H.
  - exact H.
  - exact (resetGame_orderly false g H).
  - apply (body_orderly _ _ (handleLoreContinue_body g)), H.
  - unfold handleQuizCorrect. destruct (activeOrb g); [|exact H].
    apply (body_orderly _ _ (collectOrb_body _ g)), H.
  - exact H.
  - unfold handleGraveAnswer. destruct (graveQuestion g); [|exact H].
    destruct (String.eqb _ _); exact H.
  - exact (respawnAtCheckpoint_orderly g H).
  - exact (resetGame_orderly false g H).
  - exact H.
  - exact (resetGame_orderly false g H).
  - exact (resetGame_orderly true g H).
  - exact (resetGame_orderly true g H).
Qed.

Lemma mount_orderly (uid : option string) (uname : option JsString)
    (dims : Dimensions) :
  orderly (mount uid uname dims).
Proof.
  split; [|exact initialEnemies_garrisoned].
  unfold steady, steadyPlayer. cbn. repeat split; try lia; auto.
Qed.

Lemma run_orderly (evs : list Event) (g g' : Game) :
  orderly g -> run evs g = Some g' -> orderly g'.
Proof.
  revert g. induction evs as [|ev rest IH]; intros g H Hrun; cbn [run] in Hrun.
  - apply (inj Some) in Hrun. now subst g'.
  - destruct (step ev g) as [g1|] eqn:Hstep; [|discriminate].
    exact (IH g1 (step_orderly ev g g1 H Hstep) Hrun).
Qed.

(** X19: the counters of the player stay in range for the whole session.
    After any events from mounting on, the coyote timer and the jump
    buffer are between 0 and 6, the jump count is 0 or 1, the player
    faces left or right, and it has the size it was created with. *)
Theorem reachable_counters_in_range (evs : list Event)
    (uid : option string) (uname : option JsString) (dims : Dimensions)
    (g : Game) :
  run evs (mount uid uname dims) = Some g ->
  (0 <= p_coyoteTimer (playerRef g) <= 6)%Z
  /\ (0 <= jumpBufferRef g <= 6)%Z
  /\ (p_jumpCount (playerRef g) = 0 \/ p_jumpCount (playerRef g) = 1)%Z
  /\ (p_facing (playerRef g) = 1 \/ p_facing (playerRef g) = -1)%Z
  /\ p_width (playerRef g) = 30 /\ p_height (playerRef g) = 44.
Proof.
  intros Hrun.
  destruct (run_orderly evs _ g (mount_orderly uid uname dims) Hrun)
    as [[(Hc & Hj & Hf & Hw & Hh) Hb] _].
  repeat split; try assumption; try apply Hc; try apply Hb.
Qed.

Lemma reachable_counters_in_range_witness :
  exists g,
    run sampleVisit sampleMount = Some g
    /\ (0 <= p_coyoteTimer (playerRef g) <= 6)%Z
    /\ (0 <= jumpBufferRef g <= 6)%Z.
Proof.
  edestruct (reachable_counters_in_range sampleVisit None (Some (units "Hiram"))
               (mkDimensions 800 600)) as (H1 & H2 & _).
  - vm_compute. reflexivity.
  - eexists. split; [vm_compute; reflexivity|]. split; [exact H1|exact H2].
Defined.

(** X20: the enemies stay on their patrols for the whole session.  After
    any events from mounting on, every enemy is inside its patrol
    interval and heads left or right, whether the frames ran on, stopped
    on a contact, or the game was restarted. *)
Theorem reachable_enemies_on_patrol (evs : list Event)
    (uid : option string) (uname : option JsString) (dims : Dimensions)
    (g : Game) :
  run evs (mount uid uname dims) = Some g ->
  Forall (fun e => en_minX e <= en_x e <= en_maxX e
                   /\ (en_dir e = 1 \/ en_dir e = -1)%Z)
         (enemiesRef g).
Proof.
  intros Hrun.
  destruct (run_orderly evs _ g (mount_orderly uid uname dims) Hrun)
    as [_ (_ & Hw & Hh)].
  revert Hw Hh. generalize (enemiesRef g).
  induction l as [|e rest IH]; intros Hw Hh; constructor;
    inversion Hw; inversion Hh; subst; auto.
Qed.

Lemma reachable_enemies_on_patrol_witness :
  exists g,
    run sampleVisit sampleMount = Some g
    /\ Forall (fun e => en_minX e <= en_x e <= en_maxX e
                        /\ (en_dir e = 1 \/ en_dir e = -1)%Z)
              (enemiesRef g).
Proof.
  eexists. split; [vm_compute; reflexivity|].
  apply (reachable_enemies_on_patrol sampleVisit None (Some (units "Hiram"))
           (mkDimensions 800 600)).
  vm_compute. reflexivity.
Defined.

(** ** Lore is told once *)

Lemma handleLoreContinue_seen (g : Game) (orb : Orb) :
  activeOrb g = Some orb ->
  orb_spriteKey orb ∈ seenLoreRef (handleLoreContinue g).
Proof.
  intros Ha. rewrite handleLoreContinue_cases, Ha.
  assert (Hs : orb_spriteKey orb ∈ seenLoreRef (loreSeen orb g))
    by (unfold loreSeen; cbn; set_solver).
  revert Hs. generalize (loreSeen orb g). intros g1 Hs.
  destruct (quizOf orb); destruct g1; exact Hs.
Qed.

(** X21: the lore of an orb is told once in a run.  Once the player has
    acknowledged the lore of an orb, then for the rest of the run (any
    events that do not restart the game) touching an orb with that sprite
    never opens the lore modal again: it goes straight to the review
    question of the orb, or collects the orb when it has none. *)
Theorem lore_shown_once (evs : list Event) (g g' : Game) (orb orb' : Orb) :
  coherent g -> modalState g = LORE -> activeOrb g = Some orb ->
  oneRun evs (handleLoreContinue g) ->
  run evs (handleLoreContinue g) = Some g' ->
  orb_spriteKey orb' = orb_spriteKey orb ->
  modalState (touchOrb orb' g') <> LORE
  /\ touchOrb orb' g'
     = match quizOf orb' with
       | Some q => quizOpened q (halted orb' g')
       | None => collectOrb orb' (halted orb' g')
       end.
Proof.
  intros H Hm Ha Hone Hrun Hkey.
  pose proof (handleLoreContinue_seen g orb Ha) as Hseen.
  destruct (run_earnings evs _ g' (handleLoreContinue_coherent g H Hm)
              Hone Hrun) as (_ & Hsub & _).
  assert (Hin : orb_spriteKey orb' ∈ seenLoreRef g')
    by (rewrite Hkey; apply Hsub, Hseen).
  assert (E : touchOrb orb' g'
              = match quizOf orb' with
                | Some q => quizOpened q (halted orb' g')
                | None => collectOrb orb' (halted orb' g')
                end)
    by (rewrite touchOrb_cases, (bool_decide_eq_true_2 _ Hin); reflexivity).
  split; [|exact E]. rewrite E.
  destruct (quizOf orb'); destruct g'; discriminate.
Qed.

Lemma lore_shown_once_witness :
  exists g',
    run [KeyDown "ArrowRight"] (handleLoreContinue sampleAcaciaTouched)
    = Some g'
    /\ modalState (touchOrb sampleAcacia g') <> LORE.
Proof.
  eexists. split; [vm_compute; reflexivity|].
  refine (proj1 (lore_shown_once [KeyDown "ArrowRight"] sampleAcaciaTouched
                   _ sampleAcacia sampleAcacia _ _ _ _ _ _)).
  - apply touchOrb_coherent.
    + apply resetGame_coherent.
    + eexists _, ∅. split; [|reflexivity].
      do 3 apply list_elem_of_further. apply list_elem_of_here.
  - vm_compute. reflexivity.
  - vm_compute. reflexivity.
  - vm_compute. repeat split.
  - vm_compute. reflexivity.
  - reflexivity.
Defined.

(** ** The score is the points of the collected orbs *)

Lemma tallyOver_fresh (orbs : list OrbDefinition) (collected : gset Z)
    (i : Z) :
  ~ In i (List.map od_id orbs) ->
  tallyOver orbs (collected ∪ {[ i ]}) = tallyOver orbs collected.
Proof.
  induction orbs as [|a rest IH]; intros Hn; [reflexivity|].
  cbn [tallyOver fold_right List.map In] in *.
  fold (tallyOver rest (collected ∪ {[ i ]})). fold (tallyOver rest collected).
  rewrite IH by tauto.
  rewrite (bool_decide_ext (od_id a ∈ collected ∪ {[ i ]})
             (od_id a ∈ collected)); [reflexivity|].
  assert (od_id a <> i) by tauto.
  rewrite elem_of_union, elem_of_singleton. tauto.
Qed.

Lemma tallyOver_collect (orbs : list OrbDefinition) (collected : gset Z)
    (o : OrbDefinition) :
  NoDup (List.map od_id orbs) -> In o orbs -> od_id o ∉ collected ->
  tallyOver orbs (collected ∪ {[ od_id o ]})
  == tallyOver orbs collected + orbPoints o.
Proof.
  induction orbs as [|a rest IH]; intros Hnd Hin Hfresh; [destruct Hin|].
  cbn [List.map] in Hnd. apply NoDup_cons in Hnd. destruct Hnd as [Ha Hnd].
  rewrite list_elem_of_In in Ha.
  cbn [tallyOver fold_right].
  fold (tallyOver rest (collected ∪ {[ od_id o ]})).
  fold (tallyOver rest collected).
  destruct Hin as [-> | Hin].
  - rewrite (tallyOver_fresh rest collected (od_id o) Ha).
    rewrite (bool_decide_eq_true_2 (od_id o ∈ collected ∪ {[ od_id o ]}))
      by (apply elem_of_union_r, elem_of_singleton; reflexivity).
    rewrite (bool_decide_eq_false_2 (od_id o ∈ collected)) by exact Hfresh.
    lra.
  - assert (Hne : od_id a <> od_id o).
    { intros E. apply Ha. rewrite E. now apply in_map. }
    rewrite (bool_decide_ext (od_id a ∈ collected ∪ {[ od_id o ]})
               (od_id a ∈ collected))
      by (rewrite elem_of_union, elem_of_singleton; tauto).
    pose proof (IH Hnd Hin Hfresh) as E.
    destruct (bool_decide (od_id a ∈ collected)); lra.
Qed.

Lemma ORB_DATA_ids : NoDup (List.map od_id ORB_DATA).
Proof.
  cbn.
  repeat (apply NoDup_cons_2;
          [rewrite ?elem_of_cons, elem_of_nil; intuition discriminate|]).
  apply NoDup_nil_2.
Qed.

Lemma tally_collect (collected : gset Z) (o : OrbDefinition) :
  o ∈ ORB_DATA -> od_id o ∉ collected ->
  tally (collected ∪ {[ od_id o ]}) == tally collected + orbPoints o.
Proof.
  intros Hin. apply tallyOver_collect; [exact ORB_DATA_ids|].
  now apply list_elem_of_In.
Qed.

Lemma tally_empty : tally ∅ == 0.
Proof. vm_compute. reflexivity. Qed.

Lemma tally_bounds (collected : gset Z) : 0 <= tally collected <= 700.
Proof.
  unfold tally, tallyOver, ORB_DATA. cbn [fold_right od_id].
  repeat match goal with
         | |- context [bool_decide ?P] => destruct (bool_decide P)
         end; vm_compute; split; discriminate.
Qed.

Lemma tally_tools (collected : gset Z) :
  hasTools collected = true ->
  tally collected == 450 \/ tally collected == 700.
Proof.
  unfold hasTools, REQUIRED_TOOL_IDS. cbn [forallb].
  intros H. apply andb_true_iff in H. destruct H as [H1 H].
  apply andb_true_iff in H. destruct H as [H2 H].
  apply andb_true_iff in H. destruct H as [H3 _].
  unfold tally, tallyOver, ORB_DATA. cbn [fold_right od_id].
  rewrite H1, H2, H3.
  match goal with
  | |- context [bool_decide ?P] => destruct (bool_decide P)
  end; [right|left]; vm_compute; reflexivity.
Qed.

Lemma purse_fields (a : Game) (s : Q) (c : gset Z) (orb : option Orb) :
  purse a = (s, c, orb) ->
  score a = s /\ collectedIds a = c /\ activeOrb a = orb.
Proof. unfold purse. intros H. repeat split; congruence. Qed.

Lemma ledger_purse (a b : Game) : ledger a = ledger b -> purse a = purse b.
Proof.
  intros H. apply ledger_fields in H. unfold purse.
  destruct H as (_ & _ & _ & _ & _ & -> & _ & _ & _ & _ & -> & _ & -> & _).
  reflexivity.
Qed.

Lemma transacts_audited (g g' : Game) :
  audited g -> transacts g g' -> audited g'.
Proof.
  intros [Hp Hs] [E|E|E|orb Hn E|o Ho Hn E]; apply purse_fields in E;
    destruct E as (E1 & E2 & E3); unfold audited, pending;
    rewrite E1, E2, E3.
  - split; [exact Hp|exact Hs].
  - split; [discriminate|exact Hs].
  - split; [discriminate|]. rewrite tally_empty. reflexivity.
  - split; [|exact Hs]. intros orb' E. apply (inj Some) in E. now subst orb'.
  - split; [discriminate|].
    rewrite (tally_collect _ o Ho Hn), Hs. reflexivity.
Qed.

Lemma graveOpened_purse (c : Chance) (q : Question) (g : Game) :
  purse (graveOpened c q g) = purse g.
Proof. reflexivity. Qed.

Lemma victorious_purse (cl : Closure) (g : Game) :
  purse (victorious cl g) = purse g.
Proof. reflexivity. Qed.

Lemma cameraPhase_purse (cl : Closure) (g : Game) :
  purse (cameraPhase cl g) = purse g.
Proof. reflexivity. Qed.

Lemma warned_purse (cl : Closure) (g : Game) :
  purse (warned cl g) = purse g.
Proof. unfold warned. destruct (_ && _); reflexivity. Qed.

Lemma collectOrb_purse (orb : Orb) (g : Game) :
  purse (collectOrb orb g)
  = (score g + default 100 (orb_points orb),
     collectedRef g ∪ {[ orb_id orb ]}, None).
Proof. destruct g; reflexivity. Qed.

Lemma resetGame_purse (toMenu : bool) (g : Game) :
  purse (resetGame toMenu g) = (0, ∅, None).
Proof. destruct g; reflexivity. Qed.

Lemma touchOrb_purse (orb : Orb) (g : Game) :
  purse (touchOrb orb g)
  = if bool_decide (orb_spriteKey orb ∈ seenLoreRef g)
    then match quizOf orb with
         | Some _ => (score g, collectedIds g, Some orb)
         | None => (score g + default 100 (orb_points orb),
                    collectedRef g ∪ {[ orb_id orb ]}, None)
         end
    else (score g, collectedIds g, Some orb).
Proof.
  rewrite touchOrb_cases.
  destruct (bool_decide _); [destruct (quizOf orb)|];
    rewrite ?collectOrb_purse; destruct g; reflexivity.
Qed.

Lemma handleLoreContinue_purse (g : Game) :
  purse (handleLoreContinue g)
  = match activeOrb g with
    | None => purse g
    | Some orb =>
        match quizOf orb with
        | Some _ => purse g
        | None => (score g + default 100 (orb_points orb),
                   collectedRef g ∪ {[ orb_id orb ]}, None)
        end
    end.
Proof.
  rewrite handleLoreContinue_cases.
  destruct (activeOrb g) as [orb|]; [destruct (quizOf orb)|];
    rewrite ?collectOrb_purse; destruct g; reflexivity.
Qed.

Lemma transacts_collect (g g' : Game) (orb : Orb) :
  coherent g ->
  (exists o s, o ∈ ORB_DATA /\ orb = toOrb s o) ->
  orb_id orb ∉ collectedIds g ->
  purse g'
  = (score g + default 100 (orb_points orb),
     collectedRef g ∪ {[ orb_id orb ]}, None) ->
  transacts g g'.
Proof.
  intros H (o & s & Ho & ->) Hn E.
  destruct (coh_mirror g H) as [_ Hm]. rewrite Hm in E.
  exact (transacts_collected g g' o Ho Hn E).
Qed.

Lemma keyed_purse (jump : bool) (k : string) (g : Game) :
  purse (let g := if jump then executeJump g else g in
         set_keysRef (<[ k := true ]> (keysRef g)) g)
  = purse g.
Proof.
  cbv zeta. destruct jump; [|reflexivity].
  transitivity (purse (executeJump g)); [reflexivity|].
  apply ledger_purse, executeJump_ledger.
Qed.

Lemma released_purse (cut : bool) (k : string) (g : Game) :
  purse (let g := set_keysRef (<[ k := false ]> (keysRef g)) g in
         if cut then set_playerRef (cutJump (playerRef g)) g else g)
  = purse g.
Proof. cbv zeta. destruct cut; reflexivity. Qed.

(** What each event does to the score, the collected set and the pending
    orb. *)
Lemma step_transacts (ev : Event) (g g' : Game) :
  coherent g -> pending g -> step ev g = Some g' -> transacts g g'.
Proof.
  intros H Hp Hstep.
  destruct ev as [cl c| | | | | | | | | | | | | | | | |].
  { apply frame_outcome in Hstep.
    destruct Hstep as [_|q _ _ _|orb _ _ Hin Hact _|q _ _ _ _ _|_ _ _ _ _ _
                      |_ _ _ _ _].
    - now apply transacts_same.
    - apply transacts_same. rewrite graveOpened_purse.
      apply ledger_purse, integrate_ledger.
    - destruct (ledger_fields _ _ (atOrbs_ledger g))
        as (_ & _ & _ & _ & _ & _ & _ & _ & _ & _ & L1 & _ & L2 & L3 & L4 & _).
      destruct (coh_mirror g H) as [_ Hm].
      destruct (frameOrbs_spec _ _ Hin) as (o & Ho & Eo).
      assert (Hn : orb_id orb ∉ collectedIds g).
      { rewrite <- Hm. rewrite Eo in Hact |- *. cbn in Hact |- *.
        apply negb_true_iff, bool_decide_eq_false in Hact. exact Hact. }
      pose proof (touchOrb_purse orb (atOrbs g)) as E.
      rewrite L1, L2, L3, L4 in E.
      destruct (bool_decide _); [destruct (quizOf orb)|].
      + exact (transacts_held g _ orb Hn E).
      + exact (transacts_collect g _ orb H
                 (ex_intro _ o (ex_intro _ _ (conj Ho Eo))) Hn E).
      + exact (transacts_held g _ orb Hn E).
    - apply transacts_same. rewrite graveOpened_purse.
      apply ledger_purse, atGoal_ledger.
    - apply transacts_same. rewrite victorious_purse.
      apply ledger_purse, atGoal_ledger.
    - apply transacts_same. rewrite cameraPhase_purse, warned_purse.
      apply ledger_purse, atGoal_ledger. }
  all: unfold step in Hstep;
    (destruct (offered _ g) eqn:Hoff;
     [|apply (inj Some) in Hstep; subst g'; now apply transacts_same]);
    cbn [handler completed] in Hstep;
    apply (inj Some) in Hstep; subst g'.
  - unfold handleKeyDown. destruct (String.eqb code "Escape").
    + apply transacts_same.
      destruct (gameState g), (modalState g); reflexivity.
    + destruct (gameState g); try (now apply transacts_same).
      * destruct (String.eqb code "Enter"); [|now apply transacts_same].
        apply transacts_reset, resetGame_purse.
      * destruct (modalState g); try (now apply transacts_same).
        apply transacts_same.
        exact (keyed_purse (isJumpKey code) code g).
  - apply transacts_same. exact (released_purse (isJumpKey code) code g).
  - apply transacts_same. unfold handleInputStart.
    destruct (gameState g), (modalState g); try reflexivity.
    exact (keyed_purse (String.eqb key "Space") key g).
  - apply transacts_same.
    exact (released_purse (String.eqb key "Space") key g).
  - apply transacts_same. unfold handleResize.
    destruct (_ && _); reflexivity.
  - now apply transacts_same.
  - apply transacts_reset, resetGame_purse.
  - pose proof (handleLoreContinue_purse g) as E.
    destruct (activeOrb g) as [orb|] eqn:Horb;
      [destruct (quizOf orb)|]; try (now apply transacts_same).
    exact (transacts_collect g _ orb H (coh_orb g H orb Horb) (Hp orb Horb)
             E).
  - unfold handleQuizCorrect.
    destruct (activeOrb g) as [orb|] eqn:Horb; [|now apply transacts_same].
    exact (transacts_collect g _ orb H (coh_orb g H orb Horb) (Hp orb Horb)
             (collectOrb_purse orb g)).
  - now apply transacts_cleared.
  - apply transacts_same. unfold handleGraveAnswer.
    destruct (graveQuestion g); [|reflexivity].
    destruct (String.eqb _ _); reflexivity.
  - now apply transacts_same.
  - apply transacts_reset, resetGame_purse.
  - now apply transacts_same.
  - apply transacts_reset, resetGame_purse.
  - apply transacts_reset, resetGame_purse.
  - apply transacts_reset, resetGame_purse.
Qed.

Lemma step_booked (ev : Event) (g g' : Game) :
  booked g -> step ev g = Some g' -> booked g'.
Proof.
  intros (H & Ha & Hsub) Hstep. split; [|split].
  - exact (step_coherent ev g g' H Hstep).
  - exact (transacts_audited g g' Ha
             (step_transacts ev g g' H (proj1 Ha) Hstep)).
  - destruct (step_submits ev g g' Hstep)
      as [->|(cl & c & _ & _ & _ & Htools & ->)]; [exact Hsub|].
    apply Forall_app. split; [exact Hsub|].
    constructor; [|constructor]. split; [reflexivity|].
    cbn [sub_score].
    destruct (coh_mirror g H) as [Hs Hc]. rewrite Hs.
    rewrite Hc in Htools. destruct Ha as [_ Ha]. rewrite Ha.
    destruct (tally_tools _ Htools) as [E|E]; rewrite E;
      [left|right]; reflexivity.
Qed.

Lemma mount_booked (uid : option string) (uname : option JsString)
    (dims : Dimensions) :
  booked (mount uid uname dims).
Proof.
  split; [apply mount_coherent|]. split; [|constructor].
  split; [intros orb; discriminate|]. cbn [mount score collectedIds].
  rewrite tally_empty. reflexivity.
Qed.

Lemma run_booked (evs : list Event) (g g' : Game) :
  booked g -> run evs g = Some g' -> booked g'.
Proof.
  revert g. induction evs as [|ev rest IH]; intros g H Hrun; cbn [run] in Hrun.
  - apply (inj Some) in Hrun. now subst g'.
  - destruct (step ev g) as [g1|] eqn:Hstep; [|discriminate].
    exact (IH g1 (step_booked ev g g1 H Hstep) Hrun).
Qed.

(** X22: the score is the points of the collected orbs.  After any events
    from mounting on, the score is the sum of the points of the orbs of
    the level that are in the collected set, each counted once; so it is
    between 0 and 700. *)
Theorem reachable_score_is_tally (evs : list Event)
    (uid : option string) (uname : option JsString) (dims : Dimensions)
    (g : Game) :
  run evs (mount uid uname dims) = Some g ->
  score g == tally (collectedIds g) /\ 0 <= score g <= 700.
Proof.
  intros Hrun.
  destruct (run_booked evs _ g (mount_booked uid uname dims) Hrun)
    as (_ & [_ Hs] & _).
  split; [exact Hs|]. rewrite Hs. apply tally_bounds.
Qed.

Lemma reachable_score_is_tally_witness :
  exists g,
    run sampleVisit sampleMount = Some g
    /\ score g == tally (collectedIds g).
Proof.
  eexists. split; [vm_compute; reflexivity|].
  apply (reachable_score_is_tally sampleVisit None (Some (units "Hiram"))
           (mkDimensions 800 600)).
  vm_compute. reflexivity.
Defined.

(** X23: every score on the leaderboard is 950 or 1200.  After any events
    from mounting on, each score the page has sent is marked completed
    and is the points of the three working tools plus the 500 of the
    victory, with or without the 250 of the Sprig of Acacia. *)
Theorem leaderboard_scores (evs : list Event)
    (uid : option string) (uname : option JsString) (dims : Dimensions)
    (g : Game) :
  run evs (mount uid uname dims) = Some g ->
  Forall (fun s => sub_completed s = true
                   /\ (sub_score s == 950 \/ sub_score s == 1200))
         (submitted g).
Proof.
  intros Hrun.
  exact (proj2 (proj2 (run_booked evs _ g (mount_booked uid uname dims)
                         Hrun))).
Qed.

Lemma leaderboard_scores_witness :
  exists g,
    run sampleVisit sampleMount = Some g
    /\ Forall (fun s => sub_completed s = true
                        /\ (sub_score s == 950 \/ sub_score s == 1200))
              (submitted g).
Proof.
  eexists. split; [vm_compute; reflexivity|].
  apply (leaderboard_scores sampleVisit None (Some (units "Hiram"))
           (mkDimensions 800 600)).
  vm_compute. reflexivity.
Defined.

(** ** Touch controls *)

(** X24: the on-screen buttons do what the keys do.  For the three keys the
    buttons send, pressing a button leaves the component exactly as the
    key press does, in every state; and while the buttons are on screen
    (a run in progress with no modal) releasing a button leaves it
    exactly as the key release does. *)
Theorem touch_matches_keyboard (key : string) (g : Game) :
  key = "ArrowLeft" \/ key = "ArrowRight" \/ key = "Space" ->
  step (InputStart key) g = step (KeyDown key) g
  /\ (gameState g = PLAYING -> modalState g = NONE ->
      step (InputEnd key) g = step (KeyUp key) g).
Proof.
  intros Hkey.
  assert (Hk : String.eqb key "Escape" = false
               /\ String.eqb key "Enter" = false
               /\ isJumpKey key = String.eqb key "Space")
    by (destruct Hkey as [->|[->| ->]]; repeat split; reflexivity).
  destruct Hk as (He & Hn & Hj).
  unfold step. cbn [offered handler completed].
  unfold handleKeyDown, handleInputStart, handleKeyUp, handleInputEnd,
    inState, inModal.
  rewrite He, Hn, Hj. split.
  - destruct (gameState g), (modalState g); reflexivity.
  - intros -> ->. reflexivity.
Qed.

Lemma touch_matches_keyboard_witness :
  step (InputStart "Space") sampleStanding
  = step (KeyDown "Space") sampleStanding.
Proof.
  exact (proj1 (touch_matches_keyboard "Space" sampleStanding
                  (or_intror (or_intror eq_refl)))).
Defined.

(** ** The page *)














Lemma mountPage_queued (uid : option string) (uname : option JsString)
    (dims : Dimensions) :
  queued (mountPage uid uname dims).
Proof. constructor. Qed.

(** *** Requests the clean-up does not reach *)












Lemma withoutRequest_issued (h : Z) (p : Page) :
  issued p -> issued (withoutRequest h p).
Proof.
  intros [Hq Href]. split; [|exact Href].
  unfold withoutRequest. cbn [pg_requests pg_nextHandle].
  rewrite Forall_forall in *. intros r Hr. apply Hq.
  apply list_elem_of_In in Hr. apply filter_In in Hr.
  apply list_elem_of_In. apply Hr.
Qed.

Lemma requestAnimationFrame_issued (cl : Closure) (p : Page) :
  issued p -> issued (requestAnimationFrame cl p).
Proof.
  intros [Hq Href]. unfold issued, requestAnimationFrame.
  cbn [pg_requests pg_nextHandle pg_animationRef]. split.
  - apply Forall_app. split.
    + eapply Forall_impl; [exact Hq|]. cbn beta. intros r Hr. lia.
    + repeat constructor. cbn [fst]. lia.
  - destruct (pg_animationRef p); [lia|exact I].
Qed.

Lemma cleanup_issued (p : Page) : issued p -> issued (cleanup p).
Proof.
  intros H. unfold cleanup. destruct (pg_animationRef p) as [h|]; [|exact H].
  destruct (h =? 0)%Z; [exact H|]. now apply withoutRequest_issued.
Qed.

Lemma subscribe_issued (p : Page) : issued p -> issued (subscribe p).
Proof.
  intros H. unfold subscribe. cbv zeta.
  destruct (subscribes _ _); [|exact H].
  destruct (requestAnimationFrame_issued (closureOf (pg_game p)) p H)
    as [Hq _].
  split; [exact Hq|].
  cbn [set_pg_animationRef requestAnimationFrame pg_animationRef
         pg_nextHandle]. lia.
Qed.

Lemma loopEffect_issued (ev : Event) (before : Game) (p : Page) :
  issued p -> issued (loopEffect ev before p).
Proof.
  intros H. unfold loopEffect.
  destruct (dependenciesChanged ev before (pg_game p)); [|exact H].
  apply subscribe_issued.
  destruct (subscribes (gameState before) (modalState before));
    [now apply cleanup_issued|exact H].
Qed.

Lemma page_step_issued (pev : PageEvent) (p p' : Page) :
  issued p -> page_step pev p = Some p' -> issued p'.
Proof.
  intros H Hstep. destruct pev as [h c|ev]; cbn [page_step] in Hstep.
  - unfold runCallback in Hstep.
    destruct (requested h p) as [cl|];
      [|apply (inj Some) in Hstep; now subst p'].
    cbv zeta in Hstep.
    destruct (frame cl c (pg_game p)) as [g|g|e]; [| |discriminate];
      apply (inj Some) in Hstep; subst p'; apply loopEffect_issued.
    + apply requestAnimationFrame_issued.
      exact (withoutRequest_issued h p H).
    + exact (withoutRequest_issued h p H).
  - destruct (negb (isFrame ev) && offered ev (pg_game p));
      [|apply (inj Some) in Hstep; now subst p'].
    destruct (completed (handler ev (pg_game p))) as [g|]; [|discriminate].
    apply (inj Some) in Hstep. subst p'.
    apply loopEffect_issued. exact H.
Qed.

Lemma page_run_issued (pevs : list PageEvent) (p p' : Page) :
  issued p -> page_run pevs p = Some p' -> issued p'.
Proof.
  revert p. induction pevs as [|pev rest IH]; intros p H Hrun;
    cbn [page_run] in Hrun.
  - apply (inj Some) in Hrun. now subst p'.
  - destruct (page_step pev p) as [p1|] eqn:Hstep; [|discriminate].
    exact (IH p1 (page_step_issued pev p p1 H Hstep) Hrun).
Qed.

Lemma mountPage_issued (uid : option string) (uname : option JsString)
    (dims : Dimensions) :
  issued (mountPage uid uname dims).
Proof. split; [constructor|exact I]. Qed.






(** X28: the game goes on behind the pause panel.  The player of
    [samplePorch] walks right and pauses; the callback of the run,
    requested under its own id, runs on: in state PAUSED the player
    passes the first checkpoint, the checkpoint is recorded, and the
    callback is requested again. *)
Theorem surviving_callback_runs_while_paused :
  exists p,
    page_run samplePause samplePorch = Some p
    /\ gameState (pg_game p) = PAUSED
    /\ 140 < p_x (playerRef (pg_game p))
    /\ pt_x (lastCheckpointRef (pg_game p)) = 140
    /\ pg_animationRef p = Some 1%Z
    /\ pg_requests p = [(7%Z, sampleClosure)].
Proof.
  destruct (page_run samplePause samplePorch) as [p|] eqn:Hrun;
    [|vm_compute in Hrun; discriminate].
  exists p. split; [reflexivity|].
  vm_compute in Hrun. apply (inj Some) in Hrun. subst p.
  repeat split; vm_compute; reflexivity.
Qed.

(** X29: a run won with two callbacks requested is sent to the leaderboard
    twice.  The player of [sampleNearChair] pauses and resumes, which
    subscribes a second callback beside the first, and steps to the
    chair: the first callback wins the run and submits 950, and the
    second, which the clean-up does not reach, submits 950 again in state
    VICTORY. *)
Theorem second_callback_submits_again :
  exists p,
    page_run sampleResume sampleNearChair = Some p
    /\ gameState (pg_game p) = VICTORY
    /\ List.map sub_score (submitted (pg_game p)) = [450 + 500; 450 + 500].
Proof.
  destruct (page_run sampleResume sampleNearChair) as [p|] eqn:Hrun;
    [|vm_compute in Hrun; discriminate].
  exists p. split; [reflexivity|].
  vm_compute in Hrun. apply (inj Some) in Hrun. subst p.
  split; vm_compute; reflexivity.
Qed.


